(** * JetsonSlideshow: the playback session of [slideshow.py]

  A shallow embedding of [MediaSlideshowViewer] (src/slideshow.py) and the
  properties of its playback session: one pipeline at a time, bounded
  retry, index wrap-around, catalog ordering and media classification.

  Python values are modelled as follows.
  - [str] is [string], the text in bytes as the file system and the
    command line give it; Python reads it as UTF-8 with the
    [surrogateescape] handler, and [code_points] gives the code points it
    compares by.  [str.lower] belongs to the interpreter (its Unicode
    case tables are not part of the repository) and is an operation of the
    class [PyStr]; [ascii_lower] is its restriction to ASCII text.
  - [int] is [Z]; [%] is [Z.modulo] (both take the sign of the divisor)
    and raises on a zero divisor; list indexing accepts negative indices
    and raises out of range.
  - GStreamer and GLib are the environment: what they answer is an
    operation of the class [MediaEngine], what the program asks of them is
    appended to the [trace] of the session.
  - [print] is not modelled: the session is followed on the paths where
    every [print] returns.  Where standard output cannot encode a file
    name, the [print] of [create_pipeline] before its [try] raises, and
    the callback ends there, after [cleanup_pipeline]. *)

From Stdlib Require Import ZArith NArith List Bool Lia Ascii String.
From Stdlib Require Import Permutation Sorted Orders Mergesort.
Import ListNotations.

Set Implicit Arguments.

#[local] Open Scope Z_scope.

(* ================================================================== *)
(** ** Python builtins used by the viewer *)

Module Py.

(** Uncaught exceptions the viewer's own statements can raise. *)
Inductive exn := IndexError | ZeroDivisionError | AttributeError.

(** Outcome of a statement sequence: a value, an exception that leaves
    the callback, or a loop that was cut off by its fuel. *)
Inductive result (A : Type) : Type :=
| Ok (a : A)
| Raised (e : exn)
| OutOfFuel.
Arguments Ok {A} a.
Arguments Raised {A} e.
Arguments OutOfFuel {A}.

Definition bind {A B} (m : result A) (k : A -> result B) : result B :=
  match m with
  | Ok a => k a
  | Raised e => Raised e
  | OutOfFuel => OutOfFuel
  end.

(** [a % b] on Python integers. *)
Definition mod_ (a b : Z) : result Z :=
  if b =? 0 then Raised ZeroDivisionError else Ok (a mod b).

(** [len(l)] *)
Definition len {A} (l : list A) : Z := Z.of_nat (List.length l).

(** [l[i]]: negative indices count from the end. *)
Definition getitem {A} (l : list A) (i : Z) : result A :=
  let j := if i <? 0 then i + len l else i in
  if j <? 0 then Raised IndexError
  else match nth_error l (Z.to_nat j) with
       | Some x => Ok x
       | None => Raised IndexError
       end.

(** [s[n:]] for [0 <= n]. *)
Fixpoint drop (n : nat) (s : string) : string :=
  match n, s with
  | O, _ => s
  | S n', String _ s' => drop n' s'
  | S _, EmptyString => EmptyString
  end.

(** [s.endswith(suffix)]: the last [len(suffix)] characters of [s] are
    [suffix]. *)
Definition endswith (s suffix : string) : bool :=
  (String.length suffix <=? String.length s)%nat
  && String.eqb (drop (String.length s - String.length suffix) s) suffix.

(** [any(f(x) for x in l)] *)
Definition any {A} (f : A -> bool) (l : list A) : bool := existsb f l.

(** [l[i] = v]; the viewer only writes inside the list. *)
Fixpoint setitem {A} (l : list A) (i : nat) (v : A) : list A :=
  match l, i with
  | [], _ => []
  | _ :: t, O => v :: t
  | h :: t, S i' => h :: setitem t i' v
  end.

(** [x[i], x[j] = x[j], x[i]]: the right-hand side is read first, then
    [x[i]] and [x[j]] are written in this order. *)
Definition swap {A} (x : list A) (i j : nat) : list A :=
  match nth_error x j, nth_error x i with
  | Some xj, Some xi => setitem (setitem x i xj) j xi
  | _, _ => x
  end.

(** The loop of [random.shuffle]:
    [for i in reversed(range(1, len(x))): j = randbelow(i + 1); swap].
    [entropy] is the generator's raw output for the draw at position [i];
    [randbelow(n)] reduces it below [n]. *)
Definition randbelow (entropy : nat -> nat) (i : nat) : nat :=
  Nat.modulo (entropy i) (S i).

Fixpoint shuffle_down {A} (entropy : nat -> nat) (i : nat) (x : list A)
  : list A :=
  match i with
  | O => x
  | S i' => shuffle_down entropy i' (swap x i (randbelow entropy i))
  end.

Definition shuffle {A} (entropy : nat -> nat) (x : list A) : list A :=
  shuffle_down entropy (List.length x - 1) x.

(** The code points of a [str].  A [string] holds the text as the file
    system and the script give it, in bytes; Python reads it as UTF-8
    with the [surrogateescape] handler (PEP 383): a well-formed sequence
    of one to four bytes is one code point, and every byte that belongs
    to none is the lone surrogate [U+DC00 + byte]. *)
Definition continuation (b : N) : bool := ((128 <=? b) && (b <=? 191))%N.

(** The second byte of a three-byte sequence: no overlong form, no
    surrogate. *)
Definition second_of_three (b0 b1 : N) : bool :=
  (if b0 =? 224 then (160 <=? b1) && (b1 <=? 191)
   else if b0 =? 237 then (128 <=? b1) && (b1 <=? 159)
   else continuation b1)%N.

(** The second byte of a four-byte sequence: no overlong form, nothing
    above [U+10FFFF]. *)
Definition second_of_four (b0 b1 : N) : bool :=
  (if b0 =? 240 then (144 <=? b1) && (b1 <=? 191)
   else if b0 =? 244 then (128 <=? b1) && (b1 <=? 143)
   else continuation b1)%N.

Fixpoint decode (l : list N) : list N :=
  match l with
  | [] => []
  | b0 :: r0 =>
      let escaped := (56320 + b0)%N :: decode r0 in
      if (b0 <? 128)%N then b0 :: decode r0
      else if ((194 <=? b0) && (b0 <=? 223))%N then
        match r0 with
        | b1 :: r1 =>
            if continuation b1
            then ((b0 - 192) * 64 + (b1 - 128))%N :: decode r1
            else escaped
        | _ => escaped
        end
      else if ((224 <=? b0) && (b0 <=? 239))%N then
        match r0 with
        | b1 :: b2 :: r2 =>
            if second_of_three b0 b1 && continuation b2
            then ((b0 - 224) * 4096 + (b1 - 128) * 64 + (b2 - 128))%N
                 :: decode r2
            else escaped
        | _ => escaped
        end
      else if ((240 <=? b0) && (b0 <=? 244))%N then
        match r0 with
        | b1 :: b2 :: b3 :: r3 =>
            if second_of_four b0 b1 && continuation b2 && continuation b3
            then ((b0 - 240) * 262144 + (b1 - 128) * 4096
                  + (b2 - 128) * 64 + (b3 - 128))%N :: decode r3
            else escaped
        | _ => escaped
        end
      else escaped
  end.

Definition code_points (s : string) : list N :=
  decode (map N_of_ascii (list_ascii_of_string s)).

(** [a <= b] on sequences: the first position where they differ decides,
    and a proper prefix comes first. *)
Fixpoint lex_leb (a b : list N) : bool :=
  match a, b with
  | [], _ => true
  | _ :: _, [] => false
  | x :: a', y :: b' =>
      if (x <? y)%N then true
      else if (y <? x)%N then false
      else lex_leb a' b'
  end.

(** [a <= b] on [str]: by code point. *)
Definition str_leb (a b : string) : bool :=
  lex_leb (code_points a) (code_points b).

Lemma lex_leb_total (a b : list N) : lex_leb a b = true \/ lex_leb b a = true.
Proof.
  revert b. induction a as [|x a IH]; intros [|y b]; cbn; auto.
  destruct (N.ltb_spec x y); [auto|].
  destruct (N.ltb_spec y x); [auto|]. apply IH.
Qed.

(** [list.sort()] on strings: ascending in the order of [str]. *)
Module StringOrder <: TotalLeBool.
Definition t := string.
Definition leb := str_leb.
Theorem leb_total : forall a1 a2, leb a1 a2 = true \/ leb a2 a1 = true.
Proof. intros a1 a2. apply lex_leb_total. Qed.
End StringOrder.

Module StringSort := Sort StringOrder.

Definition sort (l : list string) : list string := StringSort.sort l.

End Py.

Import Py.

Notation "x <- m ;; k" := (Py.bind m (fun x => k))
  (at level 61, m at next level, right associativity).

(** [str.lower], an operation of the interpreter. *)
Class PyStr := { str_lower : string -> string }.

(** Lower-casing of ASCII text: [A]..[Z] become [a]..[z]. *)
Definition ascii_lower_char (c : ascii) : ascii :=
  let n := nat_of_ascii c in
  if ((65 <=? n) && (n <=? 90))%nat then ascii_of_nat (n + 32) else c.

Fixpoint ascii_lower (s : string) : string :=
  match s with
  | EmptyString => EmptyString
  | String c s' => String (ascii_lower_char c) (ascii_lower s')
  end.

Definition AsciiStr : PyStr := {| str_lower := ascii_lower |}.

(* ================================================================== *)
(** ** The environment: GStreamer, GLib and the GTK main loop *)

(** The four pipeline descriptions [create_pipeline] chooses from. *)
Inductive pipeline_kind := AviChain | Playbin | JpegChain | DecodebinChain.

(** What the callbacks of the viewer are connected to.  Bus messages carry
    the bus they were posted on; a timeout carries its GLib source id. *)
Inductive signal :=
| SigIdle                                (* idle_add(initialize_media) *)
| SigTimeout (id : positive)             (* timeout_add_seconds(.., change_media) *)
| SigError (b : nat)                     (* message::error *)
| SigEos (b : nat)                       (* message::eos *)
| SigBuffering (b : nat) (percent : Z)   (* message, type BUFFERING *)
| SigStateChanged (b : nat)              (* message::state-changed *)
| SigKeyPress (escape : bool)            (* key-press-event *)
| SigDestroy.                            (* the window is closed *)

(** Calls into the environment, in program order.  A pipeline and its bus
    share one identifier (the bus is [pipeline.get_bus()]). *)
Inductive event :=
| EvIdleAdd
| EvDispatch (sig : signal)              (* the main loop runs a callback *)
| EvIdleDone                             (* initialize_media returned False *)
| EvSourceDone (id : positive)           (* change_media returned False *)
| EvFocusWindow                          (* ensure_window_focused() *)
| EvSelect (index : Z) (path : string)   (* media_files[current_index] *)
| EvClearDrawingArea
| EvSourceRemove (id : positive)         (* GLib.source_remove(id) *)
| EvSetStateNull (p : nat)               (* set_state(Gst.State.NULL) *)
| EvRemoveSignalWatch (b : nat)
| EvGetState (p : nat)                   (* get_state(CLOCK_TIME_NONE) *)
| EvRelease (p : nat)                    (* self.pipeline = None *)
| EvConstruct (p : nat) (k : pipeline_kind) (path : string)
| EvAddSignalWatch (b : nat)
| EvSetStatePlaying (p : nat) (started : bool)
| EvTimeoutAdd (id : positive) (seconds : Z)
| EvSetStatePaused (p : nat)             (* on_message, buffering < 100 *)
| EvResume (p : nat)                     (* on_message, buffering done *)
| EvQueueDraw
| EvDestroy                              (* self.destroy() *)
| EvMainQuit.                            (* Gtk.main_quit() *)

(** What GStreamer and GLib answer.  The first argument of the first three
    is the number of the [create_pipeline] call, which is also the
    identifier of the pipeline it builds. *)
Class MediaEngine := {
  (** [Gst.parse_launch] raises on this description *)
  parse_launch_raises : nat -> string -> bool;
  (** [Gst.ElementFactory.make("playbin", ..)] returns [None] *)
  playbin_missing : nat -> bool;
  (** [set_state(Gst.State.PLAYING)] returns [FAILURE] *)
  start_fails : nat -> bool;
  (** [GLib.timeout_add_seconds] rejects the interval (it takes an
      unsigned 32-bit number of seconds) *)
  timeout_add_raises : Z -> bool
}.

(** State of the environment, a function of the calls made so far. *)
Record resources := {
  live : list nat;          (* pipelines built and still referenced *)
  stopping : list nat;      (* set to NULL, the wait not yet done *)
  halted : list nat;        (* set to NULL and waited for *)
  watched : list nat;       (* buses with a signal watch *)
  armed : list positive;    (* timeout sources of change_media *)
  built : list nat;         (* every pipeline built so far *)
  idle_pending : bool;      (* initialize_media scheduled *)
  quit : bool               (* Gtk.main_quit() was called *)
}.

Definition no_resources : resources :=
  {| live := []; stopping := []; halted := []; watched := []; armed := [];
     built := []; idle_pending := false; quit := false |}.

Definition without (p : nat) (l : list nat) : list nat :=
  filter (fun x => negb (Nat.eqb x p)) l.

Definition without_source (id : positive) (l : list positive) : list positive :=
  filter (fun x => negb (Pos.eqb x id)) l.

Definition has (p : nat) (l : list nat) : bool := existsb (Nat.eqb p) l.

Definition has_source (id : positive) (l : list positive) : bool :=
  existsb (Pos.eqb id) l.

Definition account (r : resources) (e : event) : resources :=
  match e with
  | EvIdleAdd =>
      {| live := live r; stopping := stopping r; halted := halted r;
         watched := watched r; armed := armed r; built := built r;
         idle_pending := true; quit := quit r |}
  | EvIdleDone =>
      {| live := live r; stopping := stopping r; halted := halted r;
         watched := watched r; armed := armed r; built := built r;
         idle_pending := false; quit := quit r |}
  | EvSourceDone id | EvSourceRemove id =>
      {| live := live r; stopping := stopping r; halted := halted r;
         watched := watched r; armed := without_source id (armed r); built := built r;
         idle_pending := idle_pending r; quit := quit r |}
  | EvTimeoutAdd id _ =>
      {| live := live r; stopping := stopping r; halted := halted r;
         watched := watched r; armed := id :: armed r; built := built r;
         idle_pending := idle_pending r; quit := quit r |}
  | EvSetStateNull p =>
      {| live := live r; stopping := p :: stopping r; halted := halted r;
         watched := watched r; armed := armed r; built := built r;
         idle_pending := idle_pending r; quit := quit r |}
  | EvGetState p =>
      {| live := live r; stopping := without p (stopping r);
         halted := if has p (stopping r) then p :: halted r else halted r;
         watched := watched r; armed := armed r; built := built r;
         idle_pending := idle_pending r; quit := quit r |}
  | EvRelease p =>
      {| live := without p (live r); stopping := without p (stopping r);
         halted := without p (halted r);
         watched := watched r; armed := armed r; built := built r;
         idle_pending := idle_pending r; quit := quit r |}
  | EvConstruct p _ _ =>
      {| live := p :: live r; stopping := stopping r; halted := halted r;
         watched := watched r; armed := armed r; built := p :: built r;
         idle_pending := idle_pending r; quit := quit r |}
  | EvAddSignalWatch b =>
      {| live := live r; stopping := stopping r; halted := halted r;
         watched := b :: watched r; armed := armed r; built := built r;
         idle_pending := idle_pending r; quit := quit r |}
  | EvRemoveSignalWatch b =>
      {| live := live r; stopping := stopping r; halted := halted r;
         watched := without b (watched r); armed := armed r; built := built r;
         idle_pending := idle_pending r; quit := quit r |}
  | EvMainQuit =>
      {| live := live r; stopping := stopping r; halted := halted r;
         watched := watched r; armed := armed r; built := built r;
         idle_pending := idle_pending r; quit := true |}
  | _ => r
  end.

(** The environment after a sequence of calls. *)
Definition replay (t : list event) : resources :=
  fold_left account t no_resources.

Arguments replay : simpl never.

(** The main loop runs a callback only while its source exists: the idle
    source, an attached timeout, a bus with a signal watch, the window. *)
Definition enabled (r : resources) (sig : signal) : bool :=
  negb (quit r) &&
  match sig with
  | SigIdle => idle_pending r
  | SigTimeout id => has_source id (armed r)
  | SigError b | SigEos b | SigBuffering b _ | SigStateChanged b =>
      has b (watched r)
  | SigKeyPress _ | SigDestroy => true
  end.

(* ================================================================== *)
(** ** MediaSlideshowViewer *)

(** The attributes of the viewer the playback session reads and writes,
    the two allocation counters of the environment, and the calls made so
    far.  [sink] is the element [get_by_name("sink")] returned, named by
    the pipeline it belongs to; the viewer writes it and never reads it.
    The cursor attributes are in [Chrome] below; the [recursive],
    [shuffle] and [media_directory] attributes (used for printing only)
    are left out. *)
Record session := {
  media_files : list string;
  current_index : Z;
  image_interval : Z;
  pipeline : option nat;
  bus : option nat;
  is_video : bool;
  timeout_id : option positive;
  next_object : nat;
  next_source : positive;
  trace : list event;
  sink : option nat
}.

Definition set_media_files (v : list string) (s : session) : session :=
  {| media_files := v; current_index := current_index s;
     image_interval := image_interval s; pipeline := pipeline s;
     bus := bus s; is_video := is_video s; timeout_id := timeout_id s;
     next_object := next_object s; next_source := next_source s;
     trace := trace s; sink := sink s |}.

Definition set_current_index (v : Z) (s : session) : session :=
  {| media_files := media_files s; current_index := v;
     image_interval := image_interval s; pipeline := pipeline s;
     bus := bus s; is_video := is_video s; timeout_id := timeout_id s;
     next_object := next_object s; next_source := next_source s;
     trace := trace s; sink := sink s |}.

Definition set_pipeline (v : option nat) (s : session) : session :=
  {| media_files := media_files s; current_index := current_index s;
     image_interval := image_interval s; pipeline := v;
     bus := bus s; is_video := is_video s; timeout_id := timeout_id s;
     next_object := next_object s; next_source := next_source s;
     trace := trace s; sink := sink s |}.

Definition set_bus (v : option nat) (s : session) : session :=
  {| media_files := media_files s; current_index := current_index s;
     image_interval := image_interval s; pipeline := pipeline s;
     bus := v; is_video := is_video s; timeout_id := timeout_id s;
     next_object := next_object s; next_source := next_source s;
     trace := trace s; sink := sink s |}.

Definition set_is_video (v : bool) (s : session) : session :=
  {| media_files := media_files s; current_index := current_index s;
     image_interval := image_interval s; pipeline := pipeline s;
     bus := bus s; is_video := v; timeout_id := timeout_id s;
     next_object := next_object s; next_source := next_source s;
     trace := trace s; sink := sink s |}.

Definition set_timeout_id (v : option positive) (s : session) : session :=
  {| media_files := media_files s; current_index := current_index s;
     image_interval := image_interval s; pipeline := pipeline s;
     bus := bus s; is_video := is_video s; timeout_id := v;
     next_object := next_object s; next_source := next_source s;
     trace := trace s; sink := sink s |}.

Definition set_sink (v : option nat) (s : session) : session :=
  {| media_files := media_files s; current_index := current_index s;
     image_interval := image_interval s; pipeline := pipeline s;
     bus := bus s; is_video := is_video s; timeout_id := timeout_id s;
     next_object := next_object s; next_source := next_source s;
     trace := trace s; sink := v |}.

(** A call into the environment. *)
Definition emit (e : event) (s : session) : session :=
  {| media_files := media_files s; current_index := current_index s;
     image_interval := image_interval s; pipeline := pipeline s;
     bus := bus s; is_video := is_video s; timeout_id := timeout_id s;
     next_object := next_object s; next_source := next_source s;
     trace := trace s ++ [e]; sink := sink s |}.

(** The environment hands out a new object, a new source id. *)
Definition fresh_object (s : session) : session :=
  {| media_files := media_files s; current_index := current_index s;
     image_interval := image_interval s; pipeline := pipeline s;
     bus := bus s; is_video := is_video s; timeout_id := timeout_id s;
     next_object := S (next_object s); next_source := next_source s;
     trace := trace s; sink := sink s |}.

Definition fresh_source (s : session) : session :=
  {| media_files := media_files s; current_index := current_index s;
     image_interval := image_interval s; pipeline := pipeline s;
     bus := bus s; is_video := is_video s; timeout_id := timeout_id s;
     next_object := next_object s; next_source := Pos.succ (next_source s);
     trace := trace s; sink := sink s |}.

(** [self.video_extensions] *)
Definition video_extensions : list string :=
  [".mp4"; ".avi"; ".mkv"; ".mov"; ".webm"; ".flv"; ".wmv"; ".mpg"; ".mpeg"]%string.

(** The image patterns of [__init__] ([image_exts] without the star). *)
Definition image_extensions : list string :=
  [".jpg"; ".jpeg"; ".png"; ".bmp"; ".gif"]%string.

Section Viewer.

Context {py : PyStr} {engine : MediaEngine}.

(** [is_video_file]:
    [any(filepath.lower().endswith(ext) for ext in self.video_extensions)] *)
Definition is_video_file (filepath : string) : bool :=
  any (fun ext => endswith (str_lower filepath) ext) video_extensions.

(** The two kinds of media: [media_type] in [create_pipeline]. *)
Inductive media_kind := Image | Video.

Definition kind_of (filepath : string) : media_kind :=
  if is_video_file filepath then Video else Image.

(** [cleanup_pipeline] *)
Definition cleanup_pipeline (s : session) : session :=
  match pipeline s with
  | Some p =>
      (* Cancel any pending timeout *)
      let s := match timeout_id s with
               | Some id => set_timeout_id None (emit (EvSourceRemove id) s)
               | None => s
               end in
      (* Stop the pipeline *)
      let s := emit (EvSetStateNull p) s in
      (* Remove bus watch *)
      let s := match bus s with
               | Some b => set_bus None (emit (EvRemoveSignalWatch b) s)
               | None => s
               end in
      (* Wait for state change to complete *)
      let s := emit (EvGetState p) s in
      (* Unreference the pipeline *)
      set_pipeline None (emit (EvRelease p) s)
  | None => s
  end.

(** The second half of [create_pipeline], from "Set up bus for messages":
    [p] is the pipeline just stored in [self.pipeline]. *)
Definition start_pipeline (p : nat) (s : session) : session * bool :=
  let s := emit (EvAddSignalWatch p) (set_bus (Some p) s) in
  (* Start playing *)
  let failure := start_fails p in
  let s := emit (EvSetStatePlaying p (negb failure)) s in
  if failure then (s, false)
  else if negb (is_video s) then
    if timeout_add_raises (image_interval s) then (s, false)
    else
      let id := next_source s in
      let s := emit (EvTimeoutAdd id (image_interval s)) (fresh_source s) in
      (set_timeout_id (Some id) s, true)
  else (s, true).

(** [create_pipeline]; [n] numbers the call.  An exception inside [try]
    makes the call return [False].  The [print] before [try] is taken to
    return. *)
Definition create_pipeline (s : session) (media_path : string)
  : session * bool :=
  (* Clean up existing pipeline *)
  let s := cleanup_pipeline s in
  let s := set_is_video (is_video_file media_path) s in
  let n := next_object s in
  let s := fresh_object s in
  if is_video s then
    if endswith (str_lower media_path) ".avi" then
      if parse_launch_raises n media_path then (s, false)
      else start_pipeline n
             (set_pipeline (Some n) (emit (EvConstruct n AviChain media_path) s))
    else
      if playbin_missing n then (set_pipeline None s, false)
      else start_pipeline n
             (set_pipeline (Some n) (emit (EvConstruct n Playbin media_path) s))
  else
    let k := if endswith (str_lower media_path) ".jpg"
                || endswith (str_lower media_path) ".jpeg"
             then JpegChain else DecodebinChain in
    if parse_launch_raises n media_path then (s, false)
    else
      (* Get the sink element for images *)
      start_pipeline n
        (set_sink (Some n)
           (set_pipeline (Some n) (emit (EvConstruct n k media_path) s))).

(** The state the loop of [load_current_media] calls [create_pipeline] in,
    once it has read [current_file]. *)
Definition picked (s : session) (current_file : string) : session :=
  let s := emit (EvSelect (current_index s) current_file) s in
  (* Only clear the drawing area if we're about to play a video *)
  if is_video_file current_file then emit EvClearDrawingArea s else s.

(** [on_destroy]; the cursor timeout belongs to the window chrome. *)
Definition on_destroy (s : session) : session :=
  (* Remove timeouts *)
  let s := match timeout_id s with
           | Some id => emit (EvSourceRemove id) s
           | None => s
           end in
  (* Clean up pipeline *)
  let s := cleanup_pipeline s in
  emit EvMainQuit s.

(** [self.destroy()] emits "destroy", which runs [on_destroy]. *)
Definition destroy (s : session) : session :=
  on_destroy (emit EvDestroy s).

(** The [while] loop of [load_current_media]; it returns the final value
    of [attempts]. *)
Fixpoint load_loop (fuel : nat) (attempts : Z) (s : session)
  : result (Z * session) :=
  match fuel with
  | O => OutOfFuel
  | S fuel' =>
      if attempts <? len (media_files s) then
        current_file <- getitem (media_files s) (current_index s) ;;
        let (s, loaded) := create_pipeline (picked s current_file)
                                           current_file in
        if loaded then Ok (attempts, s)
        else
          (* Failed, try next media *)
          i <- mod_ (current_index s + 1) (len (media_files s)) ;;
          load_loop fuel' (attempts + 1) (set_current_index i s)
      else Ok (attempts, s)
  end.

(** [load_current_media]: one more unit of fuel than there are media
    files is enough for the loop (see [load_loop_fuel]). *)
Definition load_current_media (s : session) : result session :=
  let s := emit EvFocusWindow s in
  r <- load_loop (S (List.length (media_files s))) 0 s ;;
  let (attempts, s) := r in
  if attempts >=? len (media_files s) then Ok (destroy s) else Ok s.

(** [change_media] *)
Definition change_media (s : session) : result session :=
  (* Move to next media file *)
  i <- mod_ (current_index s + 1) (len (media_files s)) ;;
  (* Load the current media *)
  s <- load_current_media (set_current_index i s) ;;
  (* Force redraw *)
  Ok (emit EvQueueDraw s).

(** [initialize_media] *)
Definition initialize_media (s : session) : result session :=
  load_current_media (emit EvFocusWindow s).

(** [on_error] *)
Definition on_error (s : session) : result session := change_media s.

(** [on_eos] *)
Definition on_eos (s : session) : result session :=
  if is_video s then change_media s else Ok s.

(** [on_message] for a BUFFERING message *)
Definition on_buffering (percent : Z) (s : session) : result session :=
  match pipeline s with
  | Some p =>
      if percent <? 100 then Ok (emit (EvSetStatePaused p) s)
      else Ok (emit (EvResume p) s)
  | None => Raised AttributeError
  end.

(** [on_key_press] *)
Definition on_key_press (escape : bool) (s : session) : session :=
  if escape then destroy s else s.

(** The callbacks connected to each signal.  A BUFFERING, ERROR or EOS
    message first goes through [on_message], which does nothing for the
    last two; [on_state_changed] does nothing. *)
Definition handle (sig : signal) (s : session) : result session :=
  match sig with
  | SigIdle => s <- initialize_media s ;; Ok (emit EvIdleDone s)
  | SigTimeout id => s <- change_media s ;; Ok (emit (EvSourceDone id) s)
  | SigError _ => on_error s
  | SigEos _ => on_eos s
  | SigBuffering _ percent => on_buffering percent s
  | SigStateChanged _ => Ok s
  | SigKeyPress escape => Ok (on_key_press escape s)
  | SigDestroy => Ok (on_destroy s)
  end.

(** One iteration of the main loop. *)
Definition step (sig : signal) (s : session) : result session :=
  if enabled (replay (trace s)) sig
  then handle sig (emit (EvDispatch sig) s)
  else Ok s.

Fixpoint run (sigs : list signal) (s : session) : result session :=
  match sigs with
  | [] => Ok s
  | sig :: rest => s <- step sig s ;; run rest s
  end.

(** "Sort or shuffle files" in [__init__] *)
Definition order_media (shuffle : bool) (entropy : nat -> nat)
  (files : list string) : list string :=
  if shuffle then Py.shuffle entropy files else Py.sort files.

(** [__init__], from the list the globbing found. *)
Definition init (found : list string) (interval : Z) (shuffle : bool)
  (entropy : nat -> nat) : session :=
  let s := {| media_files := found; current_index := 0;
              image_interval := interval; pipeline := None; bus := None;
              is_video := false; timeout_id := None;
              next_object := 0; next_source := 1; trace := [];
              sink := None |} in
  match found with
  | [] => destroy s
  | _ :: _ => emit EvIdleAdd
                (set_media_files (order_media shuffle entropy found) s)
  end.

(** The specification's reading of teardown, to compare with
    [cleanup_pipeline]: removing the bus watch is the first call made. *)
Definition unsubscribes_first (s : session) : Prop :=
  exists b rest,
    trace (cleanup_pipeline s) = trace s ++ EvRemoveSignalWatch b :: rest.

(** The specification's reading of a failed load, to compare with
    [create_pipeline]: nothing built by the call is left referenced. *)
Definition released_on_failure (s : session) (media_path : string) : Prop :=
  snd (create_pipeline s media_path) = false ->
  pipeline (fst (create_pipeline s media_path)) = None
  /\ bus (fst (create_pipeline s media_path)) = None.

(** "Move to next media file": the statement of [change_media] that the
    loop of [load_current_media] repeats after a failure. *)
Definition advance_index (s : session) : result session :=
  i <- mod_ (current_index s + 1) (len (media_files s)) ;;
  Ok (set_current_index i s).

Fixpoint advance_times (k : nat) (s : session) : result session :=
  match k with
  | O => Ok s
  | S k' => s <- advance_index s ;; advance_times k' s
  end.

End Viewer.

(* ================================================================== *)
(** ** What a well-behaved sequence of calls looks like *)

(** The bus a message was posted on. *)
Definition bus_of (sig : signal) : option nat :=
  match sig with
  | SigError b | SigEos b | SigBuffering b _ | SigStateChanged b => Some b
  | _ => None
  end.

Definition is_empty {A} (l : list A) : bool :=
  match l with [] => true | _ :: _ => false end.

(** The condition under which a call is in order, given the environment
    it is made in:
    - a pipeline is built only when no earlier pipeline is live, stopping,
      or watched, no timeout is attached, and its identifier is new;
    - a timeout is attached only when none is attached;
    - a reference is dropped only after the pipeline was set to NULL and
      waited for, and its bus watch removed;
    - a watch is added to, and a state change asked of, a live pipeline;
    - a watch is removed from a live pipeline that was set to NULL and
      not yet waited for;
    - a bus message reaches a callback only from the watched bus of a
      live pipeline. *)
Definition safeb (r : resources) (e : event) : bool :=
  match e with
  | EvConstruct p _ _ =>
      is_empty (live r) && is_empty (stopping r) && is_empty (halted r)
      && is_empty (watched r) && is_empty (armed r) && negb (has p (built r))
  | EvTimeoutAdd _ _ => is_empty (armed r)
  | EvRelease p => has p (halted r) && negb (has p (watched r))
  | EvAddSignalWatch p | EvSetStatePlaying p _
  | EvSetStatePaused p | EvResume p => has p (live r)
  | EvRemoveSignalWatch b => has b (live r) && has b (stopping r)
  | EvDispatch sig =>
      match bus_of sig with
      | Some b => has b (live r) && has b (watched r)
      | None => true
      end
  | _ => true
  end.

Fixpoint checks (r : resources) (t : list event) : bool :=
  match t with
  | [] => true
  | e :: t' => safeb r e && checks (account r e) t'
  end.

(** Every call of the trace was in order when it was made. *)
Definition sound (t : list event) : Prop := checks no_resources t = true.

Definition opt_list {A} (o : option A) : list A :=
  match o with Some x => [x] | None => [] end.

(** The attributes of the viewer agree with the environment: the only
    live pipeline, watched bus and attached timeout are the ones the
    viewer holds. *)
Record consistent (s : session) : Prop := {
  c_sound : sound (trace s);
  c_live : live (replay (trace s)) = opt_list (pipeline s);
  c_stopping : stopping (replay (trace s)) = [];
  c_halted : halted (replay (trace s)) = [];
  c_watched : watched (replay (trace s)) = opt_list (bus s);
  c_armed : armed (replay (trace s)) = opt_list (timeout_id s);
  c_built : forall p, In p (built (replay (trace s))) ->
                      (p < next_object s)%nat;
  c_bus : bus s = None \/ bus s = pipeline s;
  c_timer : timeout_id s <> None -> pipeline s <> None
}.

(** [current_index] is a position of [media_files]. *)
Definition in_range (s : session) : Prop :=
  0 <= current_index s < len (media_files s).

(** The calls [cleanup_pipeline] makes, in order. *)
Definition teardown_events (s : session) : list event :=
  match pipeline s with
  | Some p =>
      match timeout_id s with Some id => [EvSourceRemove id] | None => [] end
      ++ [EvSetStateNull p]
      ++ match bus s with Some b => [EvRemoveSignalWatch b] | None => [] end
      ++ [EvGetState p; EvRelease p]
  | None => []
  end.

(** The positions of [media_files] the loading loop picked, in order. *)
Definition selected (t : list event) : list Z :=
  flat_map (fun e => match e with EvSelect i _ => [i] | _ => [] end) t.

Fixpoint last_opt {A} (l : list A) : option A :=
  match l with
  | [] => None
  | [x] => Some x
  | _ :: l' => last_opt l'
  end.

(** Each position follows the one before it, modulo [n]. *)
Fixpoint stepwise (n : Z) (l : list Z) : Prop :=
  match l with
  | i :: (j :: _) as l' => j = (i + 1) mod n /\ stepwise n l'
  | _ => True
  end.

(** The next item to load follows the last one picked. *)
Definition follows (s : session) : Prop :=
  forall i, last_opt (selected (trace s)) = Some i ->
            current_index s = (i + 1) mod len (media_files s).

(** The last item picked is the current one. *)
Definition current (s : session) : Prop :=
  forall i, last_opt (selected (trace s)) = Some i -> i = current_index s.

(** The calls that leave the idle source of [initialize_media] alone. *)
Definition playback (e : event) : bool :=
  match e with
  | EvIdleAdd | EvIdleDone => false
  | _ => true
  end.

(** [s'] is [s] after some more calls, none of them on the idle source. *)
Definition grows (s s' : session) : Prop :=
  exists u, trace s' = trace s ++ u /\ forallb playback u = true.

(** The invariant of the session between two callbacks: the viewer and
    the environment agree, the items were picked one after the other,
    source ids are new, and unless the main loop was told to quit the
    current item is the last one picked; before [initialize_media] has
    run nothing was picked and nothing plays. *)
Record invariant (s : session) : Prop := {
  i_consistent : consistent s;
  i_stepwise : stepwise (len (media_files s)) (selected (trace s));
  i_sources : forall id, timeout_id s = Some id ->
                         (id < next_source s)%positive;
  i_running :
    quit (replay (trace s)) = true
    \/ (in_range s /\ current s
        /\ (idle_pending (replay (trace s)) = true ->
            selected (trace s) = [] /\ pipeline s = None))
}.

(** Calls that change none of the resources the viewer holds. *)
Definition bookkeeping (e : event) : Prop :=
  forall r,
    live (account r e) = live r /\ stopping (account r e) = stopping r
    /\ halted (account r e) = halted r /\ watched (account r e) = watched r
    /\ armed (account r e) = armed r /\ built (account r e) = built r
    /\ quit (account r e) = quit r.

(** The implication between the two attributes: a pending timeout has a
    pipeline. *)
Definition timer_implies_pipeline (s : session) : Prop :=
  timeout_id s <> None -> pipeline s <> None.

(* ================================================================== *)
(** ** Replaying a trace *)

Lemma replay_app (t u : list event) :
  replay (t ++ u) = fold_left account u (replay t).
Proof. unfold replay. apply fold_left_app. Qed.

Lemma replay_snoc (t : list event) (e : event) :
  replay (t ++ [e]) = account (replay t) e.
Proof. rewrite replay_app. reflexivity. Qed.

Lemma checks_app (t u : list event) (r : resources) :
  checks r (t ++ u) = checks r t && checks (fold_left account t r) u.
Proof.
  revert r. induction t as [|e t IH]; intro r; simpl.
  - reflexivity.
  - rewrite IH. apply andb_assoc.
Qed.

Lemma sound_app (t u : list event) :
  sound t -> checks (replay t) u = true -> sound (t ++ u).
Proof.
  unfold sound, replay. intros Ht Hu. rewrite checks_app, Ht, Hu. reflexivity.
Qed.

Lemma sound_snoc (t : list event) (e : event) :
  sound t -> safeb (replay t) e = true -> sound (t ++ [e]).
Proof.
  intros Ht He. apply sound_app; [exact Ht|]. simpl. rewrite He. reflexivity.
Qed.

Lemma sound_prefix (t u : list event) : sound (t ++ u) -> sound t.
Proof.
  unfold sound. rewrite checks_app. intro H.
  apply andb_true_iff in H. tauto.
Qed.

(** In a sound trace, every call was in order in the environment left by
    the calls before it. *)
Lemma sound_at (t pre post : list event) (e : event) :
  sound t -> t = pre ++ e :: post -> safeb (replay pre) e = true.
Proof.
  unfold sound, replay. intros H ->. rewrite checks_app in H. simpl in H.
  apply andb_true_iff in H. destruct H as [_ H].
  apply andb_true_iff in H. tauto.
Qed.

Lemma is_empty_true {A} (l : list A) : is_empty l = true <-> l = [].
Proof. destruct l; simpl; split; congruence. Qed.

Lemma has_In (p : nat) (l : list nat) : has p l = true <-> In p l.
Proof.
  unfold has. rewrite existsb_exists. split.
  - intros (x & Hx & E). apply Nat.eqb_eq in E. subst. exact Hx.
  - intro H. exists p. split; [exact H | apply Nat.eqb_refl].
Qed.

Lemma without_length (p : nat) (l : list nat) :
  (List.length (without p l) <= List.length l)%nat.
Proof. unfold without. apply filter_length_le. Qed.

(** At most one pipeline is live after a sound trace. *)
Lemma sound_one_live (t : list event) :
  sound t -> (List.length (live (replay t)) <= 1)%nat.
Proof.
  induction t as [|e t IH] using rev_ind; intro H.
  - simpl. lia.
  - pose proof (sound_prefix _ _ H) as Ht. specialize (IH Ht).
    pose proof (sound_at t [] e H eq_refl) as He.
    rewrite replay_snoc.
    destruct e; simpl; try exact IH.
    + pose proof (without_length p (live (replay t))). lia.
    + simpl in He. rewrite !andb_true_iff in He.
      destruct He as [[[[[He _] _] _] _] _].
      apply is_empty_true in He. rewrite He. simpl. lia.
Qed.

(* ================================================================== *)
(** ** Suffixes *)

Lemma string_length_app (s t : string) :
  String.length (s ++ t) = (String.length s + String.length t)%nat.
Proof. induction s as [|c s IH]; cbn; [reflexivity | rewrite IH; reflexivity]. Qed.

Lemma drop_app (pre x : string) : drop (String.length pre) (pre ++ x) = x.
Proof. induction pre as [|c pre IH]; cbn; [reflexivity | exact IH]. Qed.

Lemma drop_split (n : nat) (s : string) :
  exists pre, s = (pre ++ drop n s)%string.
Proof.
  revert s. induction n as [|n IH]; intro s.
  - exists EmptyString. reflexivity.
  - destruct s as [|c s].
    + exists EmptyString. reflexivity.
    + destruct (IH s) as (pre & E). exists (String c pre).
      cbn. rewrite <- E. reflexivity.
Qed.

(** [s.endswith(x)] holds exactly when [s] is some text followed by [x]. *)
Lemma endswith_spec (s x : string) :
  endswith s x = true <-> exists pre, s = (pre ++ x)%string.
Proof.
  unfold endswith. split.
  - intro H. apply andb_true_iff in H. destruct H as [_ H].
    apply String.eqb_eq in H.
    destruct (drop_split (String.length s - String.length x) s) as (pre & E).
    exists pre. rewrite H in E. exact E.
  - intros (pre & ->). rewrite string_length_app. apply andb_true_iff. split.
    + apply Nat.leb_le. lia.
    + replace (String.length pre + String.length x - String.length x)%nat
        with (String.length pre) by lia.
      rewrite drop_app. apply String.eqb_refl.
Qed.

Lemma list_of_app (s t : string) :
  list_ascii_of_string (s ++ t)
  = (list_ascii_of_string s ++ list_ascii_of_string t)%list.
Proof. induction s as [|c s IH]; cbn; [reflexivity | rewrite IH; reflexivity]. Qed.

(** Two texts that end the same string agree from the right. *)
Lemma suffixes_agree (p1 x1 p2 x2 : string) :
  (p1 ++ x1)%string = (p2 ++ x2)%string ->
  (rev (list_ascii_of_string x1) ++ rev (list_ascii_of_string p1))%list
  = (rev (list_ascii_of_string x2) ++ rev (list_ascii_of_string p2))%list.
Proof.
  intro H. apply (f_equal list_ascii_of_string) in H.
  rewrite !list_of_app in H. apply (f_equal (@rev ascii)) in H.
  rewrite !rev_app_distr in H. exact H.
Qed.

(** No string ends with an image extension and a video extension. *)
Lemma image_not_video (s img vid : string) :
  In img image_extensions -> In vid video_extensions ->
  endswith s img = true -> endswith s vid = false.
Proof.
  intros Hi Hv H. destruct (endswith s vid) eqn:E; [|reflexivity].
  apply endswith_spec in H. apply endswith_spec in E.
  destruct H as (p1 & ->). destruct E as (p2 & E).
  apply suffixes_agree in E. exfalso.
  unfold image_extensions, video_extensions in Hi, Hv. cbn [In] in Hi, Hv.
  repeat (destruct Hi as [<-|Hi]; [|]); try contradiction;
    repeat (destruct Hv as [<-|Hv]; [|]); try contradiction;
    cbn in E; discriminate E.
Qed.

Section Classification.

Context {py : PyStr}.

Lemma is_video_file_spec (filepath : string) :
  is_video_file filepath = true <->
  exists ext, In ext video_extensions
              /\ endswith (str_lower filepath) ext = true.
Proof. unfold is_video_file, any. apply existsb_exists. Qed.

(** C9. Media classification is a function of the lower-cased path alone:
    [is_video_file p] is true exactly when the lower-cased [p] ends with one
    of the nine video extensions; there are two kinds and every path has
    one of them; a path whose lower-cased form ends with an image extension
    is an image. *)
Theorem is_video_file_classifies (p : string) :
  video_extensions
  = [".mp4"; ".avi"; ".mkv"; ".mov"; ".webm"; ".flv"; ".wmv"; ".mpg";
     ".mpeg"]%string
  /\ (is_video_file p = true <->
      exists ext pre, In ext video_extensions
                      /\ str_lower p = (pre ++ ext)%string)
  /\ (forall q, str_lower q = str_lower p ->
                is_video_file q = is_video_file p)
  /\ (kind_of p = Video <-> is_video_file p = true)
  /\ (kind_of p = Image <-> is_video_file p = false)
  /\ (forall ext pre, In ext image_extensions ->
                      str_lower p = (pre ++ ext)%string ->
                      kind_of p = Image).
Proof.
  split; [reflexivity|]. split; [|split; [|split; [|split]]].
  - rewrite is_video_file_spec. split.
    + intros (ext & Hin & H). apply endswith_spec in H.
      destruct H as (pre & H). exists ext, pre. auto.
    + intros (ext & pre & Hin & H). exists ext. split; [exact Hin|].
      apply endswith_spec. exists pre. exact H.
  - intros q H. unfold is_video_file. rewrite H. reflexivity.
  - unfold kind_of. destruct (is_video_file p); split; congruence.
  - unfold kind_of. destruct (is_video_file p); split; congruence.
  - intros ext pre Hin H. unfold kind_of.
    destruct (is_video_file p) eqn:E; [|reflexivity].
    apply is_video_file_spec in E. destruct E as (vid & Hv & E).
    assert (Himg : endswith (str_lower p) ext = true)
      by (apply endswith_spec; exists pre; exact H).
    rewrite (image_not_video _ Hin Hv Himg) in E. discriminate.
Qed.

End Classification.

(** Upper-case spellings found by the globbing, on ASCII paths. *)
Example classify_ascii :
  @is_video_file AsciiStr "/media/Clip.MP4" = true
  /\ @is_video_file AsciiStr "/media/photo.JPG" = false
  /\ @is_video_file AsciiStr "/media/a.mpeg.png" = false
  /\ @is_video_file AsciiStr "mpeg" = false
  /\ @kind_of AsciiStr "holiday.Webm" = Video
  /\ @kind_of AsciiStr "notes.txt" = Image.
Proof. repeat split; reflexivity. Qed.

(* ================================================================== *)
(** ** Ordering the catalog *)

Lemma setitem_perm {A} (l : list A) (j : nat) (a b : A) :
  nth_error l j = Some b -> Permutation (b :: setitem l j a) (a :: l).
Proof.
  revert j. induction l as [|c l IH]; intros [|j] H; cbn in *; try discriminate.
  - injection H as ->. apply perm_swap.
  - apply IH in H. rewrite perm_swap. rewrite H. apply perm_swap.
Qed.

(** Exchanging two elements of a list permutes it. *)
Lemma swap_perm {A} (x : list A) (i j : nat) : Permutation (swap x i j) x.
Proof.
  unfold swap.
  destruct (nth_error x j) as [xj|] eqn:Ej; [|reflexivity].
  destruct (nth_error x i) as [xi|] eqn:Ei; [|reflexivity].
  revert i j Ei Ej.
  induction x as [|c x IH]; intros [|i] [|j] Ei Ej; cbn in *;
    try discriminate.
  - injection Ei as ->. injection Ej as ->. reflexivity.
  - injection Ei as ->. apply setitem_perm. exact Ej.
  - injection Ej as ->. apply setitem_perm. exact Ei.
  - apply perm_skip. apply IH; assumption.
Qed.

Lemma shuffle_down_perm {A} (entropy : nat -> nat) (i : nat) (x : list A) :
  Permutation (shuffle_down entropy i x) x.
Proof.
  revert x. induction i as [|i IH]; intro x; cbn [shuffle_down].
  - reflexivity.
  - rewrite IH. apply swap_perm.
Qed.

Lemma shuffle_perm {A} (entropy : nat -> nat) (x : list A) :
  Permutation (Py.shuffle entropy x) x.
Proof. apply shuffle_down_perm. Qed.

Lemma sort_perm (l : list string) : Permutation (Py.sort l) l.
Proof. symmetry. apply StringSort.Permuted_sort. Qed.

Lemma order_media_perm (shuffle : bool) (entropy : nat -> nat)
  (files : list string) :
  Permutation (order_media shuffle entropy files) files.
Proof.
  unfold order_media. destruct shuffle; [apply shuffle_perm | apply sort_perm].
Qed.

Lemma setitem_length {A} (l : list A) (i : nat) (v : A) :
  List.length (setitem l i v) = List.length l.
Proof.
  revert i. induction l as [|c l IH]; intros [|i]; cbn; auto.
Qed.

Lemma setitem_front {A} (pre suf : list A) (i : nat) (v : A) :
  (i < List.length pre)%nat ->
  setitem (pre ++ suf) i v = setitem pre i v ++ suf.
Proof.
  revert i. induction pre as [|c pre IH]; intros [|i] H; cbn in *;
    try lia; [reflexivity|].
  f_equal. apply IH. lia.
Qed.

Lemma setitem_back {A} (pre suf : list A) (a v : A) :
  setitem (pre ++ a :: suf) (List.length pre) v = pre ++ v :: suf.
Proof.
  induction pre as [|c pre IH]; cbn; [reflexivity|]. f_equal. exact IH.
Qed.

Lemma setitem_same {A} (l : list A) (i : nat) (v : A) :
  nth_error l i = Some v -> setitem l i v = l.
Proof.
  revert i. induction l as [|c l IH]; intros [|i] H; cbn in *;
    try discriminate.
  - injection H as ->. reflexivity.
  - f_equal. apply IH. exact H.
Qed.

(** Exchanging the last element [a] of a prefix with itself, or with an
    earlier element [t]. *)
Lemma swap_last_itself {A} (pre suf : list A) (a : A) :
  swap (pre ++ a :: suf) (List.length pre) (List.length pre)
  = pre ++ a :: suf.
Proof.
  unfold swap.
  assert (E : nth_error (pre ++ a :: suf) (List.length pre) = Some a).
  { rewrite nth_error_app2 by lia. rewrite Nat.sub_diag. reflexivity. }
  rewrite E. rewrite (@setitem_same A _ _ _ E). apply setitem_same. exact E.
Qed.

Lemma swap_last_earlier {A} (pre suf : list A) (a t : A) (j : nat) :
  nth_error pre j = Some t ->
  swap (pre ++ a :: suf) (List.length pre) j = setitem pre j a ++ t :: suf.
Proof.
  intro H.
  assert (Hj : (j < List.length pre)%nat)
    by (apply nth_error_Some; congruence).
  unfold swap.
  rewrite nth_error_app1 by exact Hj. rewrite H.
  rewrite nth_error_app2 by lia. rewrite Nat.sub_diag. cbn [nth_error].
  rewrite setitem_back. apply setitem_front. exact Hj.
Qed.

(** The loop reads the entropy of the positions it visits only. *)
Lemma shuffle_down_ext {A} (e1 e2 : nat -> nat) (i : nat) (x : list A) :
  (forall k, (1 <= k <= i)%nat -> e1 k = e2 k) ->
  shuffle_down e1 i x = shuffle_down e2 i x.
Proof.
  revert x. induction i as [|i IH]; intros x H; cbn [shuffle_down];
    [reflexivity|].
  unfold randbelow. rewrite (H (S i)) by lia. apply IH.
  intros k Hk. apply H. lia.
Qed.

(** The exchanges can put the first [i + 1] elements in any order. *)
Lemma shuffle_down_reaches {A} (i : nat) (pre target suf : list A) :
  List.length pre = S i -> Permutation pre target ->
  exists entropy, shuffle_down entropy i (pre ++ suf) = target ++ suf.
Proof.
  revert pre target suf. induction i as [|i IH]; intros pre target suf Hl Hp.
  - destruct pre as [|a [|b pre]]; try discriminate.
    apply Permutation_length_1_inv in Hp. subst target.
    exists (fun _ => 0%nat). reflexivity.
  - assert (Ht : List.length target = S (S i))
      by (rewrite <- Hl; symmetry; apply Permutation_length, Hp).
    destruct (exists_last (l := pre)) as (pre0 & a & ->);
      [intros ->; discriminate|].
    destruct (exists_last (l := target)) as (target0 & t & ->);
      [intros ->; discriminate|].
    rewrite length_app in Hl. cbn in Hl.
    assert (Hl0 : List.length pre0 = S i) by lia.
    assert (Hin : In t (pre0 ++ [a])).
    { apply (Permutation_in t (Permutation_sym Hp)).
      apply in_or_app. right. now left. }
    rewrite <- !app_assoc. cbn [app].
    apply in_app_or in Hin. destruct Hin as [Hin|[->|[]]].
    + apply In_nth_error in Hin. destruct Hin as [j Hj].
      assert (Hjl : (j < S i)%nat)
        by (rewrite <- Hl0; apply nth_error_Some; congruence).
      assert (Hp0 : Permutation (setitem pre0 j a) target0).
      { apply Permutation_cons_inv with (a := t).
        rewrite (@setitem_perm A pre0 j a t Hj).
        rewrite (Permutation_cons_append pre0 a), Hp.
        symmetry. apply Permutation_cons_append. }
      destruct (IH (setitem pre0 j a) target0 (t :: suf)) as [e He];
        [rewrite setitem_length; exact Hl0 | exact Hp0 |].
      exists (fun k => if Nat.eqb k (S i) then j else e k).
      cbn [shuffle_down]. unfold randbelow. rewrite Nat.eqb_refl.
      rewrite Nat.mod_small by lia.
      assert (E : swap (pre0 ++ a :: suf) (S i) j
                  = setitem pre0 j a ++ t :: suf)
        by (rewrite <- Hl0; apply swap_last_earlier; exact Hj).
      rewrite E.
      rewrite <- He. apply shuffle_down_ext.
      intros k Hk. replace (Nat.eqb k (S i)) with false; [reflexivity|].
      symmetry. apply Nat.eqb_neq. lia.
    + assert (Hp0 : Permutation pre0 target0)
        by (apply Permutation_app_inv_r with (l := [t]); exact Hp).
      destruct (IH pre0 target0 (t :: suf)) as [e He]; [exact Hl0 | exact Hp0 |].
      exists (fun k => if Nat.eqb k (S i) then S i else e k).
      cbn [shuffle_down]. unfold randbelow. rewrite Nat.eqb_refl.
      rewrite Nat.mod_small by lia.
      assert (E : swap (pre0 ++ t :: suf) (S i) (S i) = pre0 ++ t :: suf)
        by (rewrite <- Hl0; apply swap_last_itself).
      rewrite E.
      rewrite <- He. apply shuffle_down_ext.
      intros k Hk. replace (Nat.eqb k (S i)) with false; [reflexivity|].
      symmetry. apply Nat.eqb_neq. lia.
Qed.

(** Every order of the list is the result of [random.shuffle] for some
    output of the generator. *)
Lemma shuffle_reaches {A} (x target : list A) :
  Permutation x target -> exists entropy, Py.shuffle entropy x = target.
Proof.
  intro Hp. unfold Py.shuffle. destruct x as [|a x].
  - apply Permutation_nil in Hp. subst. exists (fun _ => 0%nat). reflexivity.
  - destruct (@shuffle_down_reaches A (List.length x) (a :: x) target [])
      as [e He]; [reflexivity | exact Hp |].
    rewrite !app_nil_r in He. exists e.
    cbn [List.length]. rewrite Nat.sub_1_r. exact He.
Qed.

(** C8. Ordering the catalog applies one transformation, chosen by
    [shuffle], and either way the catalog of the viewer is a permutation
    of the files found.  Without [shuffle] it is in ascending order of
    [str] (by code point), whatever the generator gives.  With
    [shuffle] it is left as the exchanges of [random.shuffle] put it:
    every order of the files is the result for some output of the
    generator, so the list is not sorted again. *)
Theorem order_media_permutes (shuffle : bool) (entropy : nat -> nat)
  (files : list string) (interval : Z) :
  Permutation (order_media shuffle entropy files) files
  /\ Sorted (fun a b => is_true (str_leb a b))
            (order_media false entropy files)
  /\ (forall entropy', order_media false entropy' files
                       = order_media false entropy files)
  /\ (forall target, Permutation files target ->
        exists entropy', order_media true entropy' files = target)
  /\ media_files (init files interval shuffle entropy)
     = order_media shuffle entropy files
  /\ List.length (order_media shuffle entropy files) = List.length files.
Proof.
  split; [apply order_media_perm|].
  split; [apply StringSort.Sorted_sort|]. split; [reflexivity|]. split.
  - intros target Hp. unfold order_media. apply shuffle_reaches. exact Hp.
  - split.
    + destruct files as [|f files]; [|reflexivity].
      destruct shuffle; reflexivity.
    + apply Permutation_length, order_media_perm.
Qed.

(** A shuffled catalog is left as the exchanges put it, not sorted again;
    a sorted one does not depend on the entropy. *)
Example order_media_one_of_two :
  order_media true (fun _ => 0%nat) ["a.png"; "b.png"; "c.png"]%string
  = ["b.png"; "c.png"; "a.png"]%string
  /\ order_media false (fun _ => 0%nat) ["c.png"; "a.png"; "b.png"]%string
     = ["a.png"; "b.png"; "c.png"]%string
  /\ order_media false (fun _ => 7%nat) ["c.png"; "a.png"; "b.png"]%string
     = ["a.png"; "b.png"; "c.png"]%string.
Proof. vm_compute. repeat split. Qed.

(** Names are ordered by code point, not by byte: [U+00E9] comes before
    the byte [0xFF] that no code point has (read as [U+DCFF]), which
    comes before [U+E000], although its bytes [0xEE 0x80 0x80] are the
    smaller ones. *)
Example sort_by_code_point :
  let e_acute := String (ascii_of_nat 195) (String (ascii_of_nat 169) ".png") in
  let stray := String (ascii_of_nat 255) ".png" in
  let private := String (ascii_of_nat 238) (String (ascii_of_nat 128)
                   (String (ascii_of_nat 128) ".png")) in
  code_points e_acute = [233; 46; 112; 110; 103]%N
  /\ code_points stray = [56575; 46; 112; 110; 103]%N
  /\ code_points private = [57344; 46; 112; 110; 103]%N
  /\ Py.sort [private; stray; "z.png"%string; e_acute]
     = ["z.png"%string; e_acute; stray; private]
  /\ String.leb private stray = true.
Proof. vm_compute. repeat split. Qed.

(* ================================================================== *)
(** ** Teardown *)

Section ViewerFacts.

Context {py : PyStr} {engine : MediaEngine}.

Lemma trace_cleanup (s : session) :
  trace (cleanup_pipeline s) = trace s ++ teardown_events s.
Proof.
  unfold cleanup_pipeline, teardown_events.
  destruct s as [mf ci iv [p|] [b|] isv [id|] no ns t sk]; cbn;
    rewrite <- ?app_assoc; cbn; rewrite ?app_nil_r; reflexivity.
Qed.

(** Closes the goals of [consistent] for a trace extended by a few calls,
    once the environment before them is known field by field. *)
Ltac after_calls Er :=
  cbn; rewrite ?replay_snoc, <- ?Er;
  repeat (progress (cbn; rewrite ?Nat.eqb_refl, ?Pos.eqb_refl));
  try reflexivity; try tauto; try congruence; auto.

Ltac sound_calls Hs Er :=
  repeat (apply sound_snoc; [ | after_calls Er ]); try exact Hs.

Lemma cleanup_consistent (s : session) :
  consistent s ->
  consistent (cleanup_pipeline s)
  /\ pipeline (cleanup_pipeline s) = None
  /\ bus (cleanup_pipeline s) = None
  /\ timeout_id (cleanup_pipeline s) = None.
Proof.
  intros [Hs Hl Hst Hh Hw Ha Hb Hbus Ht].
  destruct s as [mf ci iv [p|] bu isv tid no ns t sk]; cbn in *.
  - split; [| repeat split; destruct tid, bu; reflexivity].
    remember (replay t) as r eqn:Er.
    destruct r as [lv st ha wa ar bl ip qt]; cbn in *; subst.
    destruct tid as [id|], bu as [b|];
      (destruct Hbus as [Hbu|Hbu]; [try discriminate Hbu | try discriminate Hbu]);
      try (injection Hbu as ->);
      cbn in *; subst;
      (constructor; [ sound_calls Hs Er | after_calls Er .. ]).
  - repeat split; try assumption.
    + destruct bu; [destruct Hbus; discriminate | reflexivity].
    + destruct tid; [exfalso; apply Ht; congruence | reflexivity].
Qed.

Lemma cleanup_keeps (s : session) :
  media_files (cleanup_pipeline s) = media_files s
  /\ current_index (cleanup_pipeline s) = current_index s
  /\ image_interval (cleanup_pipeline s) = image_interval s
  /\ next_object (cleanup_pipeline s) = next_object s
  /\ next_source (cleanup_pipeline s) = next_source s.
Proof.
  destruct s as [mf ci iv [p|] [b|] isv [id|] no ns t sk]; cbn; tauto.
Qed.

(* ================================================================== *)
(** ** Loading one item *)

Lemma fresh_not_has (n : nat) (l : list nat) :
  (forall p, In p l -> (p < n)%nat) -> has n l = false.
Proof.
  intro H. destruct (has n l) eqn:E; [|reflexivity].
  apply has_In in E. apply H in E. lia.
Qed.

Ltac built_goal Hb :=
  try (intros ? [<-|Hin]; [lia | apply Hb in Hin; lia]);
  try (intros ? Hin; apply Hb in Hin; lia).

Lemma create_consistent (s : session) (media_path : string) :
  consistent s -> consistent (fst (create_pipeline s media_path)).
Proof.
  intro C. unfold create_pipeline.
  destruct (cleanup_consistent C) as (C1 & Hp & Hbu & Hti).
  destruct (cleanup_pipeline s) as [mf ci iv pl bu isv tid no ns t sk].
  cbn in Hp, Hbu, Hti. subst pl bu tid.
  destruct C1 as [Hs Hl Hst Hh Hw Ha Hb _ _]. cbn in *.
  remember (replay t) as r eqn:Er.
  destruct r as [lv st ha wa ar bl ip qt]; cbn in *; subst.
  pose proof (fresh_not_has _ Hb) as Hfresh. unfold has in Hfresh.
  unfold start_pipeline.
  destruct (is_video_file media_path); cbn;
    repeat match goal with
    | |- context [if ?b then _ else _] => destruct b; cbn
    end;
    (constructor;
     [ sound_calls Hs Er; rewrite ?Hfresh; reflexivity
     | after_calls Er; built_goal Hb .. ]).
Qed.

(** Case analysis on what the environment answers. *)
Ltac split_ifs :=
  repeat match goal with
  | |- context [endswith ?a ?b] => destruct (endswith a b); cbn
  | |- context [parse_launch_raises ?a ?b] =>
      destruct (parse_launch_raises a b); cbn
  | |- context [playbin_missing ?a] => destruct (playbin_missing a); cbn
  | |- context [start_fails ?a] => destruct (start_fails a); cbn
  | |- context [timeout_add_raises ?a] =>
      destruct (timeout_add_raises a); cbn
  end.

Lemma selected_app (t u : list event) :
  selected (t ++ u) = selected t ++ selected u.
Proof. apply flat_map_app. Qed.

Lemma selected_teardown (s : session) : selected (teardown_events s) = [].
Proof.
  unfold teardown_events.
  destruct (pipeline s), (timeout_id s), (bus s); reflexivity.
Qed.

Lemma create_keeps (s : session) (media_path : string) :
  let s' := fst (create_pipeline s media_path) in
  media_files s' = media_files s
  /\ current_index s' = current_index s
  /\ image_interval s' = image_interval s
  /\ selected (trace s') = selected (trace s).
Proof.
  unfold create_pipeline, start_pipeline.
  pose proof (cleanup_keeps s) as (Hm & Hc & Hi & _).
  assert (Hsel : selected (trace (cleanup_pipeline s)) = selected (trace s)).
  { rewrite trace_cleanup, selected_app, selected_teardown.
    apply app_nil_r. }
  destruct (cleanup_pipeline s) as [mf ci iv pl bu isv tid no ns t sk].
  cbn in Hm, Hc, Hi, Hsel. rewrite <- Hm, <- Hc, <- Hi, <- Hsel.
  destruct (is_video_file media_path); cbn; split_ifs;
    rewrite ?selected_app; cbn; rewrite ?app_nil_r; auto.
Qed.

(** What [create_pipeline] leaves behind, by the way it returns. *)
Lemma create_outcome (s : session) (media_path : string) :
  consistent s ->
  let s' := fst (create_pipeline s media_path) in
  let n := next_object s in
  if snd (create_pipeline s media_path) then
    pipeline s' = Some n /\ bus s' = Some n
    /\ timeout_id s' =
         (if is_video_file media_path then None else Some (next_source s))
    /\ trace s' =
         (trace s ++ teardown_events s)
         ++ [EvConstruct n
               (if is_video_file media_path
                then if endswith (str_lower media_path) ".avi"
                     then AviChain else Playbin
                else if endswith (str_lower media_path) ".jpg"
                        || endswith (str_lower media_path) ".jpeg"
                     then JpegChain else DecodebinChain)
               media_path;
             EvAddSignalWatch n; EvSetStatePlaying n true]
         ++ (if is_video_file media_path then []
             else [EvTimeoutAdd (next_source s) (image_interval s)])
  else
    timeout_id s' = None
    /\ ((pipeline s' = None /\ bus s' = None
         /\ trace s' = trace s ++ teardown_events s)
        \/ (pipeline s' = Some n /\ bus s' = Some n
            /\ exists k started,
                 trace s' = (trace s ++ teardown_events s)
                            ++ [EvConstruct n k media_path;
                                EvAddSignalWatch n;
                                EvSetStatePlaying n started])).
Proof.
  intro C. unfold create_pipeline, start_pipeline.
  destruct (cleanup_consistent C) as (_ & Hp & Hbu & Hti).
  pose proof (cleanup_keeps s) as (_ & _ & Hi & Hno & Hns).
  pose proof (trace_cleanup s) as Ht.
  destruct (cleanup_pipeline s) as [mf ci iv pl bu isv tid no ns t sk].
  cbn in Hp, Hbu, Hti, Hi, Hno, Hns, Ht. subst pl bu tid.
  rewrite <- Hi, <- Hno, <- Hns, <- Ht. clear.
  destruct (is_video_file media_path); cbn; split_ifs;
    rewrite <- ?app_assoc; cbn; repeat split; eauto 10.
Qed.

(** Source ids are handed out in increasing order: a timeout attached by
    [create_pipeline] has an id no earlier call has seen. *)
Lemma create_sources (s : session) (media_path : string) :
  consistent s ->
  let s' := fst (create_pipeline s media_path) in
  (next_source s <= next_source s')%positive
  /\ forall id, timeout_id s' = Some id ->
                (next_source s <= id < next_source s')%positive.
Proof.
  intro C. unfold create_pipeline, start_pipeline.
  destruct (cleanup_consistent C) as (_ & _ & _ & Hti).
  pose proof (cleanup_keeps s) as (_ & _ & _ & _ & Hns).
  destruct (cleanup_pipeline s) as [mf ci iv pl bu isv tid no ns t sk].
  cbn in Hti, Hns. subst tid. rewrite <- Hns. clear.
  destruct (is_video_file media_path); cbn; split_ifs;
    (split; [lia | intros id [=]; lia]).
Qed.

(* ================================================================== *)
(** ** Frames: what the callbacks leave untouched *)

Lemma grows_refl (s : session) : grows s s.
Proof. exists []. split; [symmetry; apply app_nil_r | reflexivity]. Qed.

Lemma grows_trans (s1 s2 s3 : session) :
  grows s1 s2 -> grows s2 s3 -> grows s1 s3.
Proof.
  intros (u & Hu & Pu) (v & Hv & Pv). exists (u ++ v). split.
  - rewrite Hv, Hu. symmetry. apply app_assoc.
  - rewrite forallb_app, Pu, Pv. reflexivity.
Qed.

Lemma grows_emit (e : event) (s : session) :
  playback e = true -> grows s (emit e s).
Proof. intro H. exists [e]. cbn. rewrite H. auto. Qed.

Ltac grows_now :=
  first [ exists []; split; [symmetry; apply app_nil_r | reflexivity]
        | rewrite <- ?app_assoc; eexists; split; reflexivity ].

Lemma grows_cleanup (s : session) : grows s (cleanup_pipeline s).
Proof.
  exists (teardown_events s). split; [apply trace_cleanup|].
  unfold teardown_events.
  destruct (pipeline s), (timeout_id s), (bus s); reflexivity.
Qed.

Lemma grows_create (s : session) (media_path : string) :
  grows s (fst (create_pipeline s media_path)).
Proof.
  apply grows_trans with (cleanup_pipeline s); [apply grows_cleanup|].
  unfold create_pipeline, start_pipeline.
  destruct (cleanup_pipeline s) as [mf ci iv pl bu isv tid no ns t sk].
  unfold grows.
  destruct (is_video_file media_path); cbn; split_ifs; grows_now.
Qed.

Lemma grows_on_destroy (s : session) : grows s (on_destroy s).
Proof.
  unfold on_destroy.
  set (s1 := match timeout_id s with
             | Some id => emit (EvSourceRemove id) s
             | None => s
             end).
  apply grows_trans with s1.
  - unfold s1. destruct (timeout_id s);
      [apply grows_emit; reflexivity | apply grows_refl].
  - apply grows_trans with (cleanup_pipeline s1);
      [apply grows_cleanup | apply grows_emit; reflexivity].
Qed.

Lemma grows_destroy (s : session) : grows s (destroy s).
Proof.
  unfold destroy.
  apply grows_trans with (emit EvDestroy s);
    [apply grows_emit; reflexivity | apply grows_on_destroy].
Qed.

Lemma account_idle (r : resources) (e : event) :
  playback e = true -> idle_pending (account r e) = idle_pending r.
Proof. destruct e; cbn; intro H; try reflexivity; discriminate. Qed.

Lemma account_quit (r : resources) (e : event) :
  quit r = true -> quit (account r e) = true.
Proof. destruct e; cbn; auto. Qed.

Lemma grows_idle (s s' : session) :
  grows s s' ->
  idle_pending (replay (trace s')) = idle_pending (replay (trace s)).
Proof.
  intros (u & -> & Pu). rewrite replay_app. generalize (replay (trace s)).
  induction u as [|e u IH]; intro r; cbn in *.
  - reflexivity.
  - apply andb_true_iff in Pu. destruct Pu as [Pe Pu].
    rewrite IH by exact Pu. apply account_idle. exact Pe.
Qed.

Lemma replay_quit (t u : list event) :
  quit (replay t) = true -> quit (replay (t ++ u)) = true.
Proof.
  rewrite replay_app. generalize (replay t).
  induction u as [|e u IH]; intros r H; cbn.
  - exact H.
  - apply IH. apply account_quit. exact H.
Qed.

Lemma grows_quit (s s' : session) :
  grows s s' -> quit (replay (trace s)) = true ->
  quit (replay (trace s')) = true.
Proof. intros (u & -> & _). apply replay_quit. Qed.

(* ================================================================== *)
(** ** Closing the session *)

Lemma on_destroy_consistent (s : session) :
  consistent s ->
  consistent (on_destroy s)
  /\ pipeline (on_destroy s) = None
  /\ bus (on_destroy s) = None
  /\ timeout_id (on_destroy s) = None
  /\ quit (replay (trace (on_destroy s))) = true.
Proof.
  intros [Hs Hl Hst Hh Hw Ha Hb Hbus Ht].
  destruct s as [mf ci iv pl bu isv tid no ns t sk]; cbn in *.
  remember (replay t) as r eqn:Er.
  destruct r as [lv st ha wa ar bl ip qt]; cbn in *; subst.
  unfold on_destroy, cleanup_pipeline.
  destruct pl as [p|], tid as [id|], bu as [b|];
    try (exfalso; apply Ht; congruence);
    (destruct Hbus as [Hbu|Hbu]; [try discriminate Hbu | try discriminate Hbu]);
    try (injection Hbu as ->);
    cbn in *; subst;
    (split; [constructor; [ sound_calls Hs Er | after_calls Er .. ]
            | repeat split; after_calls Er ]).
Qed.

Lemma on_destroy_keeps (s : session) :
  media_files (on_destroy s) = media_files s
  /\ current_index (on_destroy s) = current_index s
  /\ selected (trace (on_destroy s)) = selected (trace s).
Proof.
  unfold on_destroy, cleanup_pipeline.
  destruct s as [mf ci iv [p|] [b|] isv [id|] no ns t sk]; cbn;
    rewrite ?selected_app; cbn; rewrite ?app_nil_r; auto.
Qed.

Lemma destroy_consistent (s : session) :
  consistent s ->
  consistent (destroy s)
  /\ pipeline (destroy s) = None
  /\ bus (destroy s) = None
  /\ timeout_id (destroy s) = None
  /\ quit (replay (trace (destroy s))) = true.
Proof.
  intro C. unfold destroy. apply on_destroy_consistent.
  destruct C as [Hs Hl Hst Hh Hw Ha Hb Hbus Ht].
  constructor; cbn; rewrite ?replay_snoc; cbn; auto.
  apply sound_snoc; [exact Hs | reflexivity].
Qed.

Lemma destroy_keeps (s : session) :
  media_files (destroy s) = media_files s
  /\ current_index (destroy s) = current_index s
  /\ selected (trace (destroy s)) = selected (trace s).
Proof.
  unfold destroy.
  destruct (on_destroy_keeps (emit EvDestroy s)) as (Hm & Hc & Hsel).
  rewrite Hm, Hc, Hsel. cbn. rewrite selected_app. cbn.
  rewrite app_nil_r. auto.
Qed.

(* ================================================================== *)
(** ** The loading loop *)

Lemma last_opt_snoc {A} (l : list A) (x : A) : last_opt (l ++ [x]) = Some x.
Proof.
  induction l as [|a l IH]; [reflexivity|].
  cbn [app last_opt]. destruct (l ++ [x]) eqn:E.
  - destruct l; discriminate.
  - exact IH.
Qed.

Lemma stepwise_snoc (n : Z) (l : list Z) (x : Z) :
  stepwise n l ->
  (forall i, last_opt l = Some i -> x = (i + 1) mod n) ->
  stepwise n (l ++ [x]).
Proof.
  induction l as [|a l IH]; intros Hl Hx; [exact I|].
  destruct l as [|b l].
  - cbn. split; [apply Hx; reflexivity | exact I].
  - destruct Hl as [Hab Hl]. cbn [app stepwise]. split; [exact Hab|].
    apply IH; [exact Hl | exact Hx].
Qed.

Lemma getitem_in_range {A} (l : list A) (i : Z) :
  0 <= i < len l ->
  exists x, getitem l i = Ok x /\ nth_error l (Z.to_nat i) = Some x.
Proof.
  intro H. unfold getitem.
  destruct (i <? 0) eqn:E; [apply Z.ltb_lt in E; lia|]. rewrite E.
  destruct (nth_error l (Z.to_nat i)) as [x|] eqn:N.
  - exists x. auto.
  - apply nth_error_None in N. unfold len in H. lia.
Qed.

Lemma mod_in_range (a n : Z) :
  0 < n -> exists i, mod_ a n = Ok i /\ i = a mod n /\ 0 <= i < n.
Proof.
  intro H. unfold mod_. destruct (n =? 0) eqn:E; [apply Z.eqb_eq in E; lia|].
  exists (a mod n). repeat split; apply Z.mod_pos_bound; exact H.
Qed.

Lemma load_loop_unfold (fuel : nat) (attempts : Z) (s : session) :
  load_loop (S fuel) attempts s =
  if attempts <? len (media_files s) then
    current_file <- getitem (media_files s) (current_index s) ;;
    if snd (create_pipeline (picked s current_file) current_file)
    then Ok (attempts, fst (create_pipeline (picked s current_file) current_file))
    else
      i <- mod_ (current_index
                   (fst (create_pipeline (picked s current_file) current_file))
                 + 1)
                (len (media_files
                   (fst (create_pipeline (picked s current_file) current_file)))) ;;
      load_loop fuel (attempts + 1)
        (set_current_index i
           (fst (create_pipeline (picked s current_file) current_file)))
  else Ok (attempts, s).
Proof.
  cbn [load_loop]. destruct (attempts <? len (media_files s)); [|reflexivity].
  destruct (getitem (media_files s) (current_index s)) as [f| |];
    cbn [bind]; try reflexivity.
  unfold picked.
  destruct (create_pipeline _ f) as [s1 [|]]; reflexivity.
Qed.

Lemma picked_keeps (s : session) (f : string) :
  media_files (picked s f) = media_files s
  /\ current_index (picked s f) = current_index s
  /\ image_interval (picked s f) = image_interval s
  /\ selected (trace (picked s f)) = selected (trace s) ++ [current_index s].
Proof.
  unfold picked. destruct (is_video_file f); cbn;
    rewrite ?selected_app; cbn; rewrite ?app_nil_r; auto.
Qed.

Lemma picked_source (s : session) (f : string) :
  next_source (picked s f) = next_source s.
Proof. unfold picked. destruct (is_video_file f); reflexivity. Qed.

Lemma picked_consistent (s : session) (f : string) :
  consistent s -> consistent (picked s f).
Proof.
  intros [Hs Hl Hst Hh Hw Ha Hb Hbus Ht]. unfold picked.
  destruct (is_video_file f); constructor; cbn; rewrite ?replay_snoc; cbn;
    auto; repeat (apply sound_snoc; [|reflexivity]); exact Hs.
Qed.

Lemma grows_picked (s : session) (f : string) : grows s (picked s f).
Proof.
  unfold picked. destruct (is_video_file f).
  - eapply grows_trans; apply grows_emit; reflexivity.
  - apply grows_emit; reflexivity.
Qed.

(** One step of the loop keeps the list of media files. *)
Lemma attempt_keeps (s : session) (f : string) :
  let s' := fst (create_pipeline (picked s f) f) in
  media_files s' = media_files s
  /\ current_index s' = current_index s
  /\ image_interval s' = image_interval s
  /\ selected (trace s') = selected (trace s) ++ [current_index s].
Proof.
  destruct (create_keeps (picked s f) f) as (Hm & Hc & Hi & Hsel).
  destruct (picked_keeps s f) as (Hm' & Hc' & Hi' & Hsel').
  cbn. rewrite Hm, Hc, Hi, Hsel. auto.
Qed.

Lemma getitem_fuel {A} (l : list A) (i : Z) : getitem l i <> OutOfFuel.
Proof.
  unfold getitem. destruct (_ <? 0); [discriminate|].
  destruct (nth_error _ _); discriminate.
Qed.

Lemma mod_fuel (a b : Z) : mod_ a b <> OutOfFuel.
Proof. unfold mod_. destruct (b =? 0); discriminate. Qed.

Lemma consistent_set_index (i : Z) (s : session) :
  consistent s -> consistent (set_current_index i s).
Proof. intros [? ? ? ? ? ? ? ? ?]. constructor; assumption. Qed.

(** The loop ends: with more fuel than attempts left it never runs out,
    whatever the environment answers. *)
Lemma load_loop_terminates (fuel : nat) (attempts : Z) (s : session) :
  (Z.to_nat (len (media_files s) - attempts) < fuel)%nat ->
  load_loop fuel attempts s <> OutOfFuel.
Proof.
  revert attempts s. induction fuel as [|fuel IH]; intros a s Hf; [lia|].
  rewrite load_loop_unfold.
  destruct (a <? len (media_files s)) eqn:E; [|discriminate].
  apply Z.ltb_lt in E.
  pose proof (@getitem_fuel _ (media_files s) (current_index s)) as Hg.
  destruct (getitem (media_files s) (current_index s)) as [f| |];
    cbn [bind]; try discriminate; try congruence.
  destruct (attempt_keeps s f) as (Hm & _).
  destruct (snd (create_pipeline (picked s f) f)); [discriminate|].
  match goal with |- context [mod_ ?x ?y] =>
    pose proof (mod_fuel x y) as Hmod; destruct (mod_ x y) as [i| |]
  end; cbn [bind]; try discriminate; try congruence.
  apply IH. cbn. rewrite Hm. lia.
Qed.

(** Fuel beyond what the loop needs does not change its result. *)
Lemma load_loop_fuel (fuel1 fuel2 : nat) (attempts : Z) (s : session) :
  (Z.to_nat (len (media_files s) - attempts) < fuel1)%nat ->
  (Z.to_nat (len (media_files s) - attempts) < fuel2)%nat ->
  load_loop fuel1 attempts s = load_loop fuel2 attempts s.
Proof.
  revert fuel2 attempts s.
  induction fuel1 as [|fuel1 IH]; intros fuel2 a s H1 H2; [lia|].
  destruct fuel2 as [|fuel2]; [lia|].
  rewrite !load_loop_unfold.
  destruct (a <? len (media_files s)) eqn:E; [|reflexivity].
  apply Z.ltb_lt in E.
  destruct (getitem (media_files s) (current_index s)) as [f| |];
    cbn [bind]; try reflexivity.
  destruct (attempt_keeps s f) as (Hm & _).
  destruct (snd (create_pipeline (picked s f) f)); [reflexivity|].
  destruct (mod_ _ _) as [i| |]; cbn [bind]; try reflexivity.
  apply IH; cbn; rewrite Hm; lia.
Qed.

(** The loop under the invariants of the session: it returns, keeps the
    invariants, and either stops on the item it loaded or has tried
    every item. *)
Lemma load_loop_spec (fuel : nat) (attempts : Z) (s : session) :
  consistent s -> in_range s ->
  stepwise (len (media_files s)) (selected (trace s)) -> follows s ->
  (Z.to_nat (len (media_files s) - attempts) < fuel)%nat ->
  exists attempts' s',
    load_loop fuel attempts s = Ok (attempts', s')
    /\ consistent s' /\ grows s s' /\ in_range s'
    /\ media_files s' = media_files s
    /\ image_interval s' = image_interval s
    /\ stepwise (len (media_files s)) (selected (trace s'))
    /\ attempts <= attempts'
    /\ (next_source s <= next_source s')%positive
    /\ (attempts' < len (media_files s) ->
        current s' /\ pipeline s' <> None
        /\ forall id, timeout_id s' = Some id ->
                      (next_source s <= id < next_source s')%positive).
Proof.
  revert attempts s.
  induction fuel as [|fuel IH]; intros a s C R St Fo Hf; [lia|].
  rewrite load_loop_unfold.
  destruct (a <? len (media_files s)) eqn:E.
  - apply Z.ltb_lt in E.
    destruct (getitem_in_range (media_files s) R) as (f & -> & _).
    cbn [bind].
    pose proof (create_consistent f (picked_consistent f C)) as C1.
    pose proof (create_outcome f (picked_consistent f C)) as Out.
    pose proof (grows_trans (grows_picked s f)
                  (grows_create (picked s f) f)) as G1.
    destruct (attempt_keeps s f) as (Hm & Hc & Hi & Hsel). cbn in Hm, Hc, Hi, Hsel.
    cbn zeta in Out.
    set (s1 := fst (create_pipeline (picked s f) f)) in *.
    assert (St1 : stepwise (len (media_files s)) (selected (trace s1))).
    { rewrite Hsel. apply stepwise_snoc; [exact St | exact Fo]. }
    assert (R1 : in_range s1).
    { unfold in_range. rewrite Hm, Hc. exact R. }
    destruct (create_sources f (picked_consistent f C)) as (Hns & Hid).
    rewrite picked_source in Hns, Hid. fold s1 in Hns, Hid.
    destruct (snd (create_pipeline (picked s f) f)).
    + exists a, s1.
      split; [reflexivity|]. split; [exact C1|]. split; [exact G1|].
      split; [exact R1|]. split; [exact Hm|]. split; [exact Hi|].
      split; [exact St1|]. split; [lia|]. split; [exact Hns|].
      intros _. split; [|split].
      * intros i Hi'. rewrite Hsel, last_opt_snoc in Hi'.
        injection Hi' as <-. symmetry. exact Hc.
      * destruct Out as (-> & _). discriminate.
      * exact Hid.
    + rewrite Hm, Hc.
      assert (Hn : 0 < len (media_files s)) by (unfold in_range in R; lia).
      destruct (mod_in_range (current_index s + 1) Hn) as (i & -> & Ei & Ri).
      cbn [bind].
      destruct (IH (a + 1) (set_current_index i s1))
        as (a' & s' & -> & C' & G' & R' & Hm' & Hi' & St' & Ha' & Hns' & Hcur).
      * apply consistent_set_index. exact C1.
      * unfold in_range. cbn. rewrite Hm. exact Ri.
      * cbn. rewrite Hm. exact St1.
      * intros j Hj. cbn [trace set_current_index] in Hj.
        rewrite Hsel, last_opt_snoc in Hj. injection Hj as <-.
        cbn [current_index media_files set_current_index].
        rewrite Hm. exact Ei.
      * cbn. rewrite Hm. lia.
      * cbn [media_files image_interval next_source timeout_id trace
              set_current_index] in Hm', Hi', St', Hns', Hcur.
        rewrite Hm in *.
        exists a', s'.
        split; [reflexivity|]. split; [exact C'|].
        split; [apply grows_trans with s1; [exact G1 | exact G']|].
        split; [exact R'|]. split; [exact Hm'|].
        split; [congruence|]. split; [exact St'|]. split; [lia|].
        split; [lia|].
        intro Hlt. destruct (Hcur Hlt) as (Hcu & Hpl & Hid').
        split; [exact Hcu|]. split; [exact Hpl|].
        intros id Hsome. specialize (Hid' id Hsome). lia.
  - apply Z.ltb_ge in E. exists a, s.
    split; [reflexivity|]. split; [exact C|]. split; [apply grows_refl|].
    split; [exact R|]. split; [reflexivity|]. split; [reflexivity|].
    split; [exact St|]. split; [lia|]. split; [lia|]. intro. lia.
Qed.

(** The positions tried in one pass of [m] attempts starting at [c]. *)
Lemma pass_cons (n c : Z) (m : nat) :
  0 <= c < n ->
  map (fun k => (c + Z.of_nat k) mod n) (seq 0 (S m)) =
  c :: map (fun k => ((c + 1) mod n + Z.of_nat k) mod n) (seq 0 m).
Proof.
  intro H. cbn [seq map]. f_equal.
  - rewrite Z.add_0_r. apply Z.mod_small. exact H.
  - rewrite <- seq_shift, map_map. apply map_ext. intro k.
    rewrite Zplus_mod_idemp_l. f_equal. lia.
Qed.

(** When every item fails, the loop makes one attempt per remaining unit
    of the bound, on consecutive positions, and returns with the bound
    reached. *)
Lemma load_loop_all_fail (fuel : nat) (attempts : Z) (s : session) :
  (forall s0 p, In p (media_files s) -> snd (create_pipeline s0 p) = false) ->
  in_range s -> 0 <= attempts <= len (media_files s) ->
  (Z.to_nat (len (media_files s) - attempts) < fuel)%nat ->
  exists s',
    load_loop fuel attempts s = Ok (len (media_files s), s')
    /\ media_files s' = media_files s
    /\ current_index s' =
       (current_index s + (len (media_files s) - attempts))
       mod len (media_files s)
    /\ selected (trace s') =
       selected (trace s)
       ++ map (fun k => (current_index s + Z.of_nat k) mod len (media_files s))
              (seq 0 (Z.to_nat (len (media_files s) - attempts))).
Proof.
  revert attempts s.
  induction fuel as [|fuel IH]; intros a s Hfail R Ha Hf; [lia|].
  rewrite load_loop_unfold.
  destruct (a <? len (media_files s)) eqn:E.
  - apply Z.ltb_lt in E.
    destruct (getitem_in_range (media_files s) R) as (f & -> & Hnth).
    cbn [bind]. apply nth_error_In in Hnth.
    rewrite (Hfail (picked s f) f Hnth).
    destruct (attempt_keeps s f) as (Hm & Hc & _ & Hsel).
    cbn in Hm, Hc, Hsel.
    set (s1 := fst (create_pipeline (picked s f) f)) in *.
    rewrite Hm, Hc.
    assert (Hn : 0 < len (media_files s)) by (unfold in_range in R; lia).
    destruct (mod_in_range (current_index s + 1) Hn) as (i & -> & Ei & Ri).
    cbn [bind].
    destruct (IH (a + 1) (set_current_index i s1))
      as (s' & Hrun & Hm' & Hc' & Hsel').
    + cbn [media_files set_current_index]. rewrite Hm. exact Hfail.
    + unfold in_range. cbn [current_index media_files set_current_index].
      rewrite Hm. exact Ri.
    + cbn [media_files set_current_index]. rewrite Hm. lia.
    + cbn [media_files set_current_index]. rewrite Hm. lia.
    + cbn [current_index media_files set_current_index trace] in Hrun, Hm', Hc', Hsel'.
      rewrite Hm in *. exists s'.
      split; [exact Hrun|]. split; [exact Hm'|]. split.
      * rewrite Hc', Ei, Zplus_mod_idemp_l. f_equal. lia.
      * rewrite Hsel', Hsel, <- app_assoc. f_equal.
        replace (Z.to_nat (len (media_files s) - a))
          with (S (Z.to_nat (len (media_files s) - (a + 1)))) by lia.
        rewrite pass_cons by exact R. subst i. reflexivity.
  - apply Z.ltb_ge in E. assert (a = len (media_files s)) by lia. subst a.
    exists s. split; [reflexivity|]. split; [reflexivity|].
    rewrite Z.sub_diag, Z.add_0_r. cbn. rewrite app_nil_r.
    split; [|reflexivity]. symmetry. apply Z.mod_small. exact R.
Qed.

Lemma destroy_quits (s : session) : quit (replay (trace (destroy s))) = true.
Proof.
  unfold destroy, on_destroy. cbn [trace emit]. rewrite replay_snoc.
  reflexivity.
Qed.

Lemma destroy_logged (s : session) : In EvDestroy (trace (destroy s)).
Proof.
  destruct (grows_on_destroy (emit EvDestroy s)) as (u & Hu & _).
  unfold destroy. rewrite Hu. cbn. rewrite !in_app_iff. cbn. tauto.
Qed.

(* ================================================================== *)
(** ** The callbacks *)

Lemma consistent_emit (e : event) (s : session) :
  bookkeeping e -> safeb (replay (trace s)) e = true ->
  consistent s -> consistent (emit e s).
Proof.
  intros B Hsafe [Hs Hl Hst Hh Hw Ha Hb Hbus Ht].
  destruct (B (replay (trace s))) as (El & Est & Eh & Ew & Ea & Eb & _).
  constructor; cbn [trace emit pipeline bus timeout_id next_object];
    rewrite ?replay_snoc, ?El, ?Est, ?Eh, ?Ew, ?Ea, ?Eb; auto.
  apply sound_snoc; assumption.
Qed.

Lemma emit_quit (e : event) (s : session) :
  bookkeeping e ->
  quit (replay (trace (emit e s))) = quit (replay (trace s)).
Proof.
  intro B. cbn [trace emit]. rewrite replay_snoc. apply B.
Qed.

Lemma emit_selected (e : event) (s : session) :
  selected [e] = [] -> selected (trace (emit e s)) = selected (trace s).
Proof.
  intro H. cbn [trace emit]. rewrite selected_app, H. apply app_nil_r.
Qed.

Lemma invariant_emit (e : event) (s : session) :
  bookkeeping e -> safeb (replay (trace s)) e = true ->
  selected [e] = [] -> playback e = true ->
  invariant s -> invariant (emit e s).
Proof.
  intros B Hsafe Hsel Hp [C St So Ru]. constructor.
  - apply consistent_emit; assumption.
  - rewrite emit_selected by exact Hsel. exact St.
  - exact So.
  - rewrite emit_quit by exact B. destruct Ru as [Q|(R & Cu & Id)]; [auto|].
    right. split; [exact R|]. split.
    + intros i Hi. rewrite emit_selected in Hi by exact Hsel. apply Cu, Hi.
    + rewrite (grows_idle (@grows_emit e s Hp)), emit_selected by exact Hsel.
      exact Id.
Qed.

Ltac bookkeeping_now := intro r; cbn; tauto.

Lemma on_destroy_interval (s : session) :
  image_interval (on_destroy s) = image_interval s.
Proof.
  unfold on_destroy, cleanup_pipeline.
  destruct s as [mf ci iv [p|] [b|] isv [id|] no ns t sk]; reflexivity.
Qed.

Lemma destroy_source (s : session) :
  next_source (destroy s) = next_source s
  /\ image_interval (destroy s) = image_interval s.
Proof.
  unfold destroy, on_destroy, cleanup_pipeline.
  destruct s as [mf ci iv [p|] [b|] isv [id|] no ns t sk]; cbn; auto.
Qed.

Lemma load_current_media_spec (s : session) :
  consistent s -> in_range s ->
  stepwise (len (media_files s)) (selected (trace s)) -> follows s ->
  exists s',
    load_current_media s = Ok s'
    /\ consistent s' /\ grows s s'
    /\ media_files s' = media_files s
    /\ image_interval s' = image_interval s
    /\ stepwise (len (media_files s)) (selected (trace s'))
    /\ (next_source s <= next_source s')%positive
    /\ in_range s'
    /\ ((quit (replay (trace s')) = true /\ pipeline s' = None
         /\ timeout_id s' = None)
        \/ (in_range s' /\ current s' /\ pipeline s' <> None
            /\ forall id, timeout_id s' = Some id ->
                          (next_source s <= id < next_source s')%positive)).
Proof.
  intros C R St Fo. unfold load_current_media. cbv zeta.
  set (s0 := emit EvFocusWindow s).
  assert (C0 : consistent s0).
  { apply consistent_emit; [bookkeeping_now | reflexivity | exact C]. }
  assert (Sel0 : selected (trace s0) = selected (trace s))
    by (apply emit_selected; reflexivity).
  destruct (@load_loop_spec (S (List.length (media_files s0))) 0 s0)
    as (a & s1 & -> & C1 & G1 & R1 & Hm & Hi & St1 & Ha & Hns & Hok).
  - exact C0.
  - exact R.
  - rewrite Sel0. exact St.
  - intros i Hi. rewrite Sel0 in Hi. apply Fo, Hi.
  - unfold len. lia.
  - cbn [bind]. unfold s0 in Hm, Hi, St1, Hns, Hok |- *.
    cbn [media_files image_interval next_source emit] in *.
    assert (G : grows s s1).
    { apply grows_trans with s0; [apply grows_emit; reflexivity | exact G1]. }
    rewrite Hm. destruct (a >=? len (media_files s)) eqn:E.
    + exists (destroy s1).
      destruct (destroy_consistent C1) as (Cd & Hp & _ & Ht & Hq).
      destruct (destroy_keeps s1) as (Hmd & Hcd & Hseld).
      destruct (destroy_source s1) as (Hnsd & Hid).
      split; [reflexivity|]. split; [exact Cd|].
      split; [apply grows_trans with s1; [exact G | apply grows_destroy]|].
      split; [congruence|]. split; [congruence|].
      split; [rewrite Hseld; exact St1|]. split; [rewrite Hnsd; exact Hns|].
      split; [unfold in_range; rewrite Hmd, Hcd; exact R1|].
      left. auto.
    + exists s1. rewrite Z.geb_leb in E. apply Z.leb_gt in E.
      destruct (Hok E) as (Cu & Hp & Hid).
      split; [reflexivity|]. split; [exact C1|]. split; [exact G|].
      split; [exact Hm|]. split; [exact Hi|]. split; [exact St1|].
      split; [exact Hns|]. split; [exact R1|]. right. auto.
Qed.

Lemma change_media_spec (s : session) :
  consistent s -> in_range s ->
  stepwise (len (media_files s)) (selected (trace s)) -> current s ->
  exists s',
    change_media s = Ok s'
    /\ consistent s' /\ grows s s'
    /\ media_files s' = media_files s
    /\ image_interval s' = image_interval s
    /\ stepwise (len (media_files s)) (selected (trace s'))
    /\ (next_source s <= next_source s')%positive
    /\ in_range s'
    /\ ((quit (replay (trace s')) = true /\ pipeline s' = None
         /\ timeout_id s' = None)
        \/ (in_range s' /\ current s' /\ pipeline s' <> None
            /\ forall id, timeout_id s' = Some id ->
                          (next_source s <= id < next_source s')%positive)).
Proof.
  intros C R St Cu. unfold change_media.
  assert (Hn : 0 < len (media_files s)) by (unfold in_range in R; lia).
  destruct (mod_in_range (current_index s + 1) Hn) as (i & -> & Ei & Ri).
  cbn [bind].
  destruct (@load_current_media_spec (set_current_index i s))
    as (s1 & -> & C1 & G1 & Hm & Hi & St1 & Hns & Rg & Hok).
  - apply consistent_set_index, C.
  - exact Ri.
  - exact St.
  - intros j Hj. cbn [trace set_current_index] in Hj.
    cbn [current_index media_files set_current_index].
    rewrite (Cu j Hj). exact Ei.
  - cbn [bind]. cbn [media_files image_interval next_source
                      set_current_index] in *.
    exists (emit EvQueueDraw s1).
    split; [reflexivity|].
    split; [apply consistent_emit; [bookkeeping_now | reflexivity | exact C1]|].
    split; [apply grows_trans with s1;
            [exact G1 | apply grows_emit; reflexivity]|].
    split; [exact Hm|]. split; [exact Hi|].
    split; [rewrite emit_selected by reflexivity; exact St1|].
    split; [exact Hns|]. split; [exact Rg|].
    rewrite emit_quit by bookkeeping_now.
    destruct Hok as [Hq|(R1 & Cu1 & Hp & Hid)]; [left; exact Hq|].
    right. split; [exact R1|]. split; [|split; [exact Hp | exact Hid]].
    intros j Hj. rewrite emit_selected in Hj by reflexivity. apply Cu1, Hj.
Qed.

(* ================================================================== *)
(** ** The main loop *)

Lemma watched_live (s : session) (b : nat) :
  consistent s -> has b (watched (replay (trace s))) = true ->
  pipeline s = Some b /\ bus s = Some b
  /\ has b (live (replay (trace s))) = true.
Proof.
  intros [_ Hl _ _ Hw _ _ Hbus _] H. rewrite Hw in H. rewrite Hl.
  destruct (bus s) as [b0|]; cbn in H; [|discriminate].
  rewrite orb_false_r in H. apply Nat.eqb_eq in H. subst b0.
  destruct Hbus as [Hb|Hb]; [discriminate|]. rewrite <- Hb.
  cbn. rewrite Nat.eqb_refl. auto.
Qed.

Lemma armed_timeout (s : session) (id : positive) :
  consistent s -> has_source id (armed (replay (trace s))) = true ->
  timeout_id s = Some id /\ pipeline s <> None.
Proof.
  intros [_ _ _ _ _ Ha _ _ Ht] H. rewrite Ha in H.
  destruct (timeout_id s) as [id0|]; cbn in H; [|discriminate].
  rewrite orb_false_r in H. apply Pos.eqb_eq in H. subst id0.
  split; [reflexivity | apply Ht; discriminate].
Qed.

Lemma consistent_source_done (id : positive) (s : session) :
  consistent s -> (forall id', timeout_id s = Some id' -> id' <> id) ->
  consistent (emit (EvSourceDone id) s).
Proof.
  intros [Hs Hl Hst Hh Hw Ha Hb Hbus Ht] Hne.
  constructor; cbn [trace emit pipeline bus timeout_id next_object];
    rewrite ?replay_snoc; cbn; auto.
  - apply sound_snoc; [exact Hs | reflexivity].
  - rewrite Ha. destruct (timeout_id s) as [id'|]; cbn; [|reflexivity].
    destruct (Pos.eqb_spec id' id) as [E|E]; [|reflexivity].
    exfalso. apply (Hne id' eq_refl). exact E.
Qed.

(** A call that neither picks an item nor asks the main loop to quit
    keeps the invariant, provided viewer and environment still agree. *)
Lemma invariant_emit_with (e : event) (s : session) :
  consistent (emit e s) ->
  (forall r, quit (account r e) = quit r) ->
  (forall r, idle_pending (account r e) = idle_pending r
             \/ idle_pending (account r e) = false) ->
  selected [e] = [] ->
  invariant s -> invariant (emit e s).
Proof.
  intros C Hq Hidle Hsel [_ St So Ru]. constructor.
  - exact C.
  - rewrite emit_selected by exact Hsel. exact St.
  - exact So.
  - assert (Eq : quit (replay (trace (emit e s))) = quit (replay (trace s)))
      by (cbn [trace emit]; rewrite replay_snoc; apply Hq).
    rewrite Eq. destruct Ru as [Q|(R & Cu & Id)]; [auto|].
    right. split; [exact R|]. split.
    + intros i Hi. rewrite emit_selected in Hi by exact Hsel. apply Cu, Hi.
    + rewrite emit_selected by exact Hsel. cbn [trace emit pipeline].
      rewrite replay_snoc.
      destruct (Hidle (replay (trace s))) as [E|E]; rewrite E;
        [exact Id | discriminate].
Qed.

Lemma invariant_dispatch (sig : signal) (s : session) :
  safeb (replay (trace s)) (EvDispatch sig) = true ->
  invariant s -> invariant (emit (EvDispatch sig) s).
Proof.
  intros Hsafe I. apply invariant_emit_with; auto.
  apply consistent_emit; [bookkeeping_now | exact Hsafe | apply I].
Qed.

(** The session after [destroy] or [on_destroy]. *)
Lemma invariant_closed (s s' : session) :
  invariant s -> consistent s' ->
  media_files s' = media_files s ->
  selected (trace s') = selected (trace s) ->
  timeout_id s' = None ->
  quit (replay (trace s')) = true ->
  invariant s'.
Proof.
  intros [_ St _ _] C Hm Hsel Ht Hq. constructor.
  - exact C.
  - rewrite Hm, Hsel. exact St.
  - intros id H. congruence.
  - left. exact Hq.
Qed.

Lemma change_media_invariant (s : session) :
  invariant s ->
  quit (replay (trace s)) = false ->
  idle_pending (replay (trace s)) = false ->
  exists s',
    change_media s = Ok s' /\ invariant s'
    /\ media_files s' = media_files s
    /\ image_interval s' = image_interval s
    /\ in_range s'
    /\ forall id, timeout_id s' = Some id ->
                  (next_source s <= id)%positive.
Proof.
  intros [C St So Ru] Hq Hidle.
  destruct Ru as [Q|(R & Cu & _)]; [congruence|].
  destruct (change_media_spec C R St Cu)
    as (s' & Hrun & C' & G & Hm & Hi & St' & Hns & Rg & Hok).
  exists s'. split; [exact Hrun|].
  split; [|split; [exact Hm|split; [exact Hi|split; [exact Rg|]]]].
  - constructor.
    + exact C'.
    + rewrite Hm. exact St'.
    + destruct Hok as [(_ & _ & Ht)|(_ & _ & _ & Hid)].
      * intros id H. congruence.
      * intros id H. apply Hid in H. lia.
    + destruct Hok as [(Q & _)|(R' & Cu' & _ & _)]; [left; exact Q|].
      right. split; [exact R'|]. split; [exact Cu'|].
      rewrite (grows_idle G), Hidle. discriminate.
  - destruct Hok as [(_ & _ & Ht)|(_ & _ & _ & Hid)].
    + intros id H. congruence.
    + intros id H. apply Hid in H. lia.
Qed.

Lemma not_idle_when_playing (s : session) :
  invariant s -> quit (replay (trace s)) = false -> pipeline s <> None ->
  idle_pending (replay (trace s)) = false.
Proof.
  intros [_ _ _ Ru] Hq Hp. destruct Ru as [Q|(_ & _ & Id)]; [congruence|].
  destruct (idle_pending (replay (trace s))); [|reflexivity].
  destruct (Id eq_refl) as (_ & Hn). contradiction.
Qed.

(** One iteration of the main loop keeps the invariant, and no exception
    leaves the callback. *)
Lemma step_invariant (sig : signal) (s : session) :
  invariant s ->
  exists s',
    step sig s = Ok s' /\ invariant s'
    /\ media_files s' = media_files s
    /\ image_interval s' = image_interval s
    /\ (in_range s -> in_range s').
Proof.
  intro I. unfold step.
  destruct (enabled (replay (trace s)) sig) eqn:En; [|exists s; auto 6].
  unfold enabled in En. apply andb_true_iff in En. destruct En as [Hq Hen].
  apply negb_true_iff in Hq.
  pose proof (i_consistent I) as C.
  set (s0 := emit (EvDispatch sig) s).
  assert (Hq0 : quit (replay (trace s0)) = false)
    by (unfold s0; rewrite emit_quit by bookkeeping_now; exact Hq).
  assert (Hid0 : idle_pending (replay (trace s0))
                 = idle_pending (replay (trace s)))
    by (unfold s0; cbn [trace emit]; rewrite replay_snoc; reflexivity).
  assert (Hlive0 : live (replay (trace s0)) = live (replay (trace s)))
    by (unfold s0; cbn [trace emit]; rewrite replay_snoc; reflexivity).
  destruct sig as [|id|b|b|b percent|b|escape|].
  - (* initialize_media *)
    assert (I0 : invariant s0)
      by (apply invariant_dispatch; [reflexivity | exact I]).
    destruct I0 as [C0 St0 So0 Ru0].
    destruct Ru0 as [Q|(R0 & Cu0 & Id0)]; [congruence|].
    rewrite Hid0 in Id0. destruct (Id0 Hen) as (Sel0 & Pl0).
    cbn [handle]. unfold initialize_media.
    destruct (@load_current_media_spec (emit EvFocusWindow s0))
      as (s1 & -> & C1 & G1 & Hm & Hi & St1 & Hns & Rg & Hok).
    + apply consistent_emit; [bookkeeping_now | reflexivity | exact C0].
    + exact R0.
    + rewrite emit_selected by reflexivity. exact St0.
    + intros i Hi. rewrite emit_selected in Hi by reflexivity.
      rewrite Sel0 in Hi. discriminate.
    + cbn [bind]. cbn [media_files image_interval emit] in Hm, Hi, St1.
      exists (emit EvIdleDone s1).
      split; [reflexivity|].
      split; [|split; [exact Hm | split; [exact Hi | intros _; exact Rg]]].
      constructor.
      * apply consistent_emit; [bookkeeping_now | reflexivity | exact C1].
      * rewrite emit_selected by reflexivity.
        cbn [media_files emit]. rewrite Hm. exact St1.
      * cbn [timeout_id next_source emit].
        destruct Hok as [(_ & _ & Ht)|(_ & _ & _ & Hid)].
        -- intros id H. congruence.
        -- intros id H. apply Hid in H. lia.
      * rewrite emit_quit by bookkeeping_now.
        destruct Hok as [(Q & _)|(R1 & Cu1 & _ & _)]; [left; exact Q|].
        right. split; [exact R1|]. split.
        -- intros i Hi'. rewrite emit_selected in Hi' by reflexivity.
           apply Cu1, Hi'.
        -- cbn [trace emit]. rewrite replay_snoc. cbn. discriminate.
  - (* the image timeout fires: change_media *)
    assert (I0 : invariant s0)
      by (apply invariant_dispatch; [reflexivity | exact I]).
    destruct (armed_timeout id C Hen) as (Ht & Hp).
    pose proof (not_idle_when_playing I Hq Hp) as Hidle.
    rewrite <- Hid0 in Hidle.
    destruct (change_media_invariant I0 Hq0 Hidle)
      as (s1 & Hrun & I1 & Hm & Hi & Rg & Hid).
    cbn [handle]. rewrite Hrun. cbn [bind].
    exists (emit (EvSourceDone id) s1).
    split; [reflexivity|].
    split; [|split; [exact Hm | split; [exact Hi | intros _; exact Rg]]].
    apply invariant_emit_with; auto.
    apply consistent_source_done; [apply I1|].
    intros id' H E. subst id'. apply Hid in H.
    pose proof (i_sources I Ht) as Hlt. cbn in H. lia.
  - (* on_error *)
    destruct (watched_live b C Hen) as (Hp & _ & Hl).
    assert (I0 : invariant s0)
      by (apply invariant_dispatch; [cbn; rewrite Hl, Hen; reflexivity | exact I]).
    assert (Hidle : idle_pending (replay (trace s0)) = false).
    { rewrite Hid0. apply not_idle_when_playing; congruence. }
    destruct (change_media_invariant I0 Hq0 Hidle)
      as (s1 & Hrun & I1 & Hm & Hi & Rg & _).
    exists s1. auto 6.
  - (* on_eos *)
    destruct (watched_live b C Hen) as (Hp & _ & Hl).
    assert (I0 : invariant s0)
      by (apply invariant_dispatch; [cbn; rewrite Hl, Hen; reflexivity | exact I]).
    assert (Hidle : idle_pending (replay (trace s0)) = false).
    { rewrite Hid0. apply not_idle_when_playing; congruence. }
    cbn [handle]. unfold on_eos. destruct (is_video s0).
    + destruct (change_media_invariant I0 Hq0 Hidle)
        as (s1 & Hrun & I1 & Hm & Hi & Rg & _).
      exists s1. auto 6.
    + exists s0. auto 6.
  - (* on_message, buffering *)
    destruct (watched_live b C Hen) as (Hp & _ & Hl).
    assert (I0 : invariant s0)
      by (apply invariant_dispatch; [cbn; rewrite Hl, Hen; reflexivity | exact I]).
    cbn [handle]. unfold on_buffering.
    replace (pipeline s0) with (Some b) by (symmetry; exact Hp).
    assert (Hl0 : has b (live (replay (trace s0))) = true)
      by (rewrite Hlive0; exact Hl).
    destruct (percent <? 100).
    + exists (emit (EvSetStatePaused b) s0). split; [reflexivity|].
      split; [|auto 6].
      apply invariant_emit; auto. bookkeeping_now.
    + exists (emit (EvResume b) s0). split; [reflexivity|].
      split; [|auto 6].
      apply invariant_emit; auto. bookkeeping_now.
  - (* on_state_changed *)
    destruct (watched_live b C Hen) as (Hp & _ & Hl).
    exists s0. split; [reflexivity|]. split; [|auto 6].
    apply invariant_dispatch; [cbn; rewrite Hl, Hen; reflexivity | exact I].
  - (* on_key_press *)
    assert (I0 : invariant s0)
      by (apply invariant_dispatch; [reflexivity | exact I]).
    cbn [handle]. unfold on_key_press. destruct escape.
    + exists (destroy s0).
      destruct (destroy_consistent (i_consistent I0)) as (Cd & _ & _ & Ht & Q).
      destruct (destroy_keeps s0) as (Hm & Hc & Hsel).
      destruct (destroy_source s0) as (_ & Hi).
      split; [reflexivity|].
      split; [apply invariant_closed with s0; assumption|].
      split; [exact Hm|]. split; [exact Hi|].
      unfold in_range. rewrite Hm, Hc. auto.
    + exists s0. auto 6.
  - (* on_destroy *)
    assert (I0 : invariant s0)
      by (apply invariant_dispatch; [reflexivity | exact I]).
    cbn [handle]. exists (on_destroy s0).
    destruct (on_destroy_consistent (i_consistent I0)) as (Cd & _ & _ & Ht & Q).
    destruct (on_destroy_keeps s0) as (Hm & Hc & Hsel).
    split; [reflexivity|].
    split; [apply invariant_closed with s0; assumption|].
    split; [exact Hm|].
    split; [rewrite on_destroy_interval; reflexivity|].
    unfold in_range. rewrite Hm, Hc. auto.
Qed.

Lemma run_invariant (sigs : list signal) (s : session) :
  invariant s ->
  exists s',
    run sigs s = Ok s' /\ invariant s'
    /\ media_files s' = media_files s
    /\ image_interval s' = image_interval s
    /\ (in_range s -> in_range s').
Proof.
  revert s. induction sigs as [|sig sigs IH]; intros s I.
  - exists s. auto 6.
  - destruct (step_invariant sig I) as (s1 & Hstep & I1 & Hm1 & Hi1 & R1).
    destruct (IH s1 I1) as (s2 & Hrun & I2 & Hm2 & Hi2 & R2).
    exists s2. cbn [run]. rewrite Hstep. cbn [bind].
    split; [exact Hrun|]. split; [exact I2|].
    split; [congruence|]. split; [congruence|]. auto.
Qed.

Lemma consistent_initial (mf : list string) (ci iv : Z) (isv : bool) :
  consistent {| media_files := mf; current_index := ci;
                image_interval := iv; pipeline := None; bus := None;
                is_video := isv; timeout_id := None;
                next_object := 0; next_source := 1; trace := [];
              sink := None |}.
Proof.
  constructor; cbn; auto; try reflexivity; try contradiction.
Qed.

Lemma init_invariant (found : list string) (interval : Z) (shuffle : bool)
  (entropy : nat -> nat) :
  invariant (init found interval shuffle entropy).
Proof.
  unfold init. destruct found as [|f found].
  - pose proof (consistent_initial [] 0 interval false) as C.
    remember {| media_files := []; current_index := 0;
                image_interval := interval; pipeline := None; bus := None;
                is_video := false; timeout_id := None;
                next_object := 0; next_source := 1; trace := [];
              sink := None |} as s.
    destruct (destroy_consistent C) as (Cd & _ & _ & Ht & Q).
    destruct (destroy_keeps s) as (Hm & _ & Hsel).
    constructor.
    + exact Cd.
    + rewrite Hsel. subst s. exact I.
    + intros id H. congruence.
    + left. exact Q.
  - set (files := order_media shuffle entropy (f :: found)).
    pose proof (consistent_initial files 0 interval false) as C.
    constructor.
    + apply consistent_emit; [bookkeeping_now | reflexivity | exact C].
    + exact I.
    + cbn. discriminate.
    + right. split; [|split].
      * unfold in_range. cbn [current_index media_files emit set_media_files].
        unfold len, files.
        rewrite (Permutation_length (order_media_perm shuffle entropy (f :: found))).
        cbn [List.length]. lia.
      * intros i H. discriminate.
      * intros _. split; reflexivity.
Qed.

(* ================================================================== *)
(** ** Every session *)

Lemma init_interval (found : list string) (interval : Z) (shuffle : bool)
  (entropy : nat -> nat) :
  image_interval (init found interval shuffle entropy) = interval.
Proof.
  unfold init. destruct found; reflexivity.
Qed.

Lemma init_in_range (found : list string) (interval : Z) (shuffle : bool)
  (entropy : nat -> nat) :
  found <> [] -> in_range (init found interval shuffle entropy).
Proof.
  intro H. destruct found as [|f found]; [contradiction|].
  unfold in_range, init, len. cbn [current_index media_files emit set_media_files].
  rewrite (Permutation_length (order_media_perm shuffle entropy (f :: found))).
  cbn [List.length]. lia.
Qed.

(** Whatever the main loop delivers, the session runs without an
    exception and ends in a state satisfying the invariant. *)
Lemma reachable (found : list string) (interval : Z) (shuffle : bool)
  (entropy : nat -> nat) (sigs : list signal) :
  exists s,
    run sigs (init found interval shuffle entropy) = Ok s
    /\ invariant s
    /\ image_interval s = interval
    /\ (found <> [] -> in_range s).
Proof.
  destruct (run_invariant sigs (init_invariant found interval shuffle entropy))
    as (s & Hrun & I & _ & Hi & R).
  exists s. split; [exact Hrun|]. split; [exact I|]. split.
  - rewrite Hi. apply init_interval.
  - intro H. apply R. apply init_in_range. exact H.
Qed.

Lemma has_single (p : nat) (l : list nat) :
  has p l = true -> (List.length l <= 1)%nat -> l = [p].
Proof.
  destruct l as [|a [|b l]]; cbn; intros H Hl; try discriminate; try lia.
  rewrite orb_false_r in H. apply Nat.eqb_eq in H. congruence.
Qed.

Lemma not_has (p : nat) (l : list nat) : negb (has p l) = true <-> ~ In p l.
Proof.
  rewrite negb_true_iff, <- has_In. destruct (has p l); split; congruence.
Qed.

(** The teardown of [create_pipeline] comes first and leaves nothing. *)
Lemma create_starts_clean (s : session) (media_path : string) :
  consistent s ->
  (exists rest,
     trace (fst (create_pipeline s media_path))
     = (trace s ++ teardown_events s) ++ rest)
  /\ live (replay (trace s ++ teardown_events s)) = []
  /\ watched (replay (trace s ++ teardown_events s)) = []
  /\ armed (replay (trace s ++ teardown_events s)) = [].
Proof.
  intro C. split.
  - pose proof (create_outcome media_path C) as Out. cbv zeta in Out.
    destruct (snd (create_pipeline s media_path)).
    + destruct Out as (_ & _ & _ & ->). eexists. reflexivity.
    + destruct Out as (_ & [(_ & _ & ->)|(_ & _ & k & st & ->)]).
      * exists []. symmetry. apply app_nil_r.
      * eexists. reflexivity.
  - destruct (cleanup_consistent C) as ([_ Hl _ _ Hw Ha _ _ _] & Hp & Hb & Ht).
    rewrite trace_cleanup, Hp in Hl. rewrite trace_cleanup, Hb in Hw.
    rewrite trace_cleanup, Ht in Ha. auto.
Qed.

(** C1. At most one pipeline is alive at any instant of any session: at
    every point of the trace at most one pipeline is live; a pipeline is
    built only when none is live, stopping or watched and no timeout is
    attached; a reference is dropped only after the pipeline was set to NULL
    and waited for and its bus watch removed; a pipeline is started only
    when it is the one live pipeline; and in every state the session
    reaches, [create_pipeline] first makes the calls of the teardown,
    after which nothing is live, before any other call. *)
Theorem one_pipeline_at_a_time (found : list string) (interval : Z)
  (shuffle : bool) (entropy : nat -> nat) (sigs : list signal) :
  exists s,
    run sigs (init found interval shuffle entropy) = Ok s
    /\ (forall pre post, trace s = pre ++ post ->
          (List.length (live (replay pre)) <= 1)%nat)
    /\ (forall pre p k path post,
          trace s = pre ++ EvConstruct p k path :: post ->
          live (replay pre) = [] /\ stopping (replay pre) = []
          /\ halted (replay pre) = [] /\ watched (replay pre) = []
          /\ armed (replay pre) = [] /\ ~ In p (built (replay pre)))
    /\ (forall pre p post,
          trace s = pre ++ EvRelease p :: post ->
          In p (halted (replay pre)) /\ ~ In p (watched (replay pre)))
    /\ (forall pre p started post,
          trace s = pre ++ EvSetStatePlaying p started :: post ->
          live (replay pre) = [p])
    /\ (forall media_path,
          (exists rest,
             trace (fst (create_pipeline s media_path))
             = (trace s ++ teardown_events s) ++ rest)
          /\ live (replay (trace s ++ teardown_events s)) = []
          /\ watched (replay (trace s ++ teardown_events s)) = []
          /\ armed (replay (trace s ++ teardown_events s)) = []).
Proof.
  destruct (reachable found interval shuffle entropy sigs)
    as (s & Hrun & I & _ & _).
  exists s. split; [exact Hrun|].
  pose proof (c_sound (i_consistent I)) as Hs.
  split; [|split; [|split; [|split]]].
  - intros pre post E. apply sound_one_live.
    apply sound_prefix with post. rewrite <- E. exact Hs.
  - intros pre p k path post E.
    pose proof (sound_at pre post _ Hs E) as H. cbn in H.
    rewrite !andb_true_iff, !is_empty_true, not_has in H. tauto.
  - intros pre p post E.
    pose proof (sound_at pre post _ Hs E) as H. cbn in H.
    rewrite andb_true_iff, not_has, has_In in H. exact H.
  - intros pre p started post E.
    pose proof (sound_at pre post _ Hs E) as H. cbn in H.
    apply has_single; [exact H|]. apply sound_one_live.
    apply sound_prefix with (EvSetStatePlaying p started :: post).
    rewrite <- E. exact Hs.
  - intro media_path. apply create_starts_clean. apply I.
Qed.


(** C6, as the code has it. In every state a session reaches, teardown
    removes the bus watch after cancelling the timeout and setting the
    pipeline to NULL, and before waiting for the state change and dropping
    the reference; afterwards no bus is watched.  In every session a watch
    is removed only from a live pipeline that was set to NULL and is not
    yet waited for, and a bus message reaches a callback only from the
    watched bus of the live pipeline, never from one torn down. *)
Theorem unsubscribes_after_stop (found : list string) (interval : Z)
  (shuffle : bool) (entropy : nat -> nat) (sigs : list signal) :
  exists s,
    run sigs (init found interval shuffle entropy) = Ok s
    /\ (forall p b, pipeline s = Some p -> bus s = Some b ->
          trace (cleanup_pipeline s)
          = trace s
            ++ match timeout_id s with
               | Some id => [EvSourceRemove id]
               | None => []
               end
            ++ [EvSetStateNull p; EvRemoveSignalWatch b;
                EvGetState p; EvRelease p])
    /\ bus (cleanup_pipeline s) = None
    /\ watched (replay (trace (cleanup_pipeline s))) = []
    /\ (forall pre b post,
          trace s = pre ++ EvRemoveSignalWatch b :: post ->
          In b (live (replay pre)) /\ In b (stopping (replay pre)))
    /\ (forall pre sig b post,
          trace s = pre ++ EvDispatch sig :: post -> bus_of sig = Some b ->
          live (replay pre) = [b] /\ In b (watched (replay pre))).
Proof.
  destruct (reachable found interval shuffle entropy sigs)
    as (s & Hrun & I & _ & _).
  exists s. split; [exact Hrun|].
  pose proof (i_consistent I) as C.
  destruct (cleanup_consistent C) as (Cc & _ & Hb & _).
  split; [|split; [exact Hb|split; [|split]]].
  - intros p b Hp Hbus. rewrite trace_cleanup. unfold teardown_events.
    rewrite Hp, Hbus. destruct (timeout_id s); reflexivity.
  - rewrite (c_watched Cc), Hb. reflexivity.
  - intros pre b post E.
    pose proof (sound_at pre post _ (c_sound C) E) as H. cbn in H.
    rewrite andb_true_iff, !has_In in H. exact H.
  - intros pre sig b post E Hsig.
    pose proof (sound_at pre post _ (c_sound C) E) as H. cbn in H.
    rewrite Hsig, andb_true_iff, has_In in H. destruct H as [Hl Hw].
    split; [|apply has_In; exact Hw].
    apply has_single; [apply has_In; exact Hl|]. apply sound_one_live.
    apply sound_prefix with (EvDispatch sig :: post). rewrite <- E. apply C.
Qed.

(** C10. The implication "a pending timeout has a pipeline" holds when
    the viewer is created and every operation keeps it; after
    [create_pipeline] a timeout is pending only if the call returned
    [True], that is, right after the pipeline started. *)
Theorem timer_implies_pipeline_kept (s : session)
  (H : timer_implies_pipeline s) :
  timer_implies_pipeline (cleanup_pipeline s)
  /\ (forall media_path,
        timer_implies_pipeline (fst (create_pipeline s media_path))
        /\ (timeout_id (fst (create_pipeline s media_path)) <> None ->
            snd (create_pipeline s media_path) = true))
  /\ timer_implies_pipeline (on_destroy s)
  /\ (forall s', load_current_media s = Ok s' -> timer_implies_pipeline s')
  /\ (forall s', change_media s = Ok s' -> timer_implies_pipeline s')
  /\ (forall sig s', step sig s = Ok s' -> timer_implies_pipeline s')
  /\ (forall found interval shuffle entropy,
        timer_implies_pipeline (init found interval shuffle entropy)).
Proof.
  assert (Hclean : forall s0, timer_implies_pipeline s0 ->
            timer_implies_pipeline (cleanup_pipeline s0)
            /\ timeout_id (cleanup_pipeline s0) = None).
  { clear. intros s0. unfold timer_implies_pipeline, cleanup_pipeline.
    destruct s0 as [mf ci iv [p|] [b|] isv [id|] no ns t sk]; cbn; intro H;
      split; try reflexivity; try congruence;
      exfalso; apply H; congruence. }
  assert (Hcreate : forall s0 media_path, timer_implies_pipeline s0 ->
            timer_implies_pipeline (fst (create_pipeline s0 media_path))
            /\ (timeout_id (fst (create_pipeline s0 media_path)) <> None ->
                snd (create_pipeline s0 media_path) = true)).
  { clear - Hclean. intros s0 media_path H0.
    destruct (Hclean s0 H0) as (_ & Ht).
    unfold timer_implies_pipeline, create_pipeline, start_pipeline.
    destruct (cleanup_pipeline s0) as [mf ci iv pl bu isv tid no ns t sk].
    cbn in Ht. subst tid.
    destruct (is_video_file media_path); cbn; split_ifs;
      split; intro; congruence. }
  assert (Hdestroy : forall s0, timer_implies_pipeline s0 ->
            timer_implies_pipeline (on_destroy s0)).
  { clear. intros s0. unfold timer_implies_pipeline, on_destroy, cleanup_pipeline.
    destruct s0 as [mf ci iv [p|] [b|] isv [id|] no ns t sk]; cbn; intro H;
      try exact H; intro Hn; exfalso; apply Hn; reflexivity. }
  assert (Hloop : forall fuel a s0 r, timer_implies_pipeline s0 ->
            load_loop fuel a s0 = Ok r -> timer_implies_pipeline (snd r)).
  { clear - Hcreate. induction fuel as [|fuel IH]; intros a s0 r H0 E;
      [discriminate|].
    rewrite load_loop_unfold in E.
    destruct (a <? len (media_files s0)).
    - destruct (getitem (media_files s0) (current_index s0)) as [f| |];
        cbn [bind] in E; try discriminate.
      assert (H1 : timer_implies_pipeline
                     (fst (create_pipeline (picked s0 f) f))).
      { apply Hcreate. unfold picked.
        destruct (is_video_file f); exact H0. }
      destruct (snd (create_pipeline (picked s0 f) f)).
      + injection E as <-. exact H1.
      + destruct (mod_ _ _) as [i| |]; cbn [bind] in E; try discriminate.
        apply (IH (a + 1)
                 (set_current_index i (fst (create_pipeline (picked s0 f) f)))
                 r H1 E).
    - injection E as <-. exact H0. }
  assert (Hload : forall s0 s', timer_implies_pipeline s0 ->
            load_current_media s0 = Ok s' -> timer_implies_pipeline s').
  { clear - Hloop Hdestroy. intros s0 s' H0 E.
    unfold load_current_media in E. cbv zeta in E.
    destruct (load_loop _ 0 (emit EvFocusWindow s0)) as [[a s1]| |] eqn:El;
      cbn [bind] in E; try discriminate.
    apply Hloop in El; [|exact H0]. cbn [snd] in El.
    destruct (a >=? len (media_files s1)); injection E as <-;
      [apply (Hdestroy (emit EvDestroy s1)) |]; exact El. }
  assert (Hchange : forall s0 s', timer_implies_pipeline s0 ->
            change_media s0 = Ok s' -> timer_implies_pipeline s').
  { clear - Hload. intros s0 s' H0 E. unfold change_media in E.
    destruct (mod_ _ _) as [i| |]; cbn [bind] in E; try discriminate.
    destruct (load_current_media (set_current_index i s0)) as [s1| |] eqn:El;
      cbn [bind] in E; try discriminate.
    injection E as <-. refine (Hload _ _ _ El); exact H0. }
  split; [apply Hclean, H|]. split; [intro; apply Hcreate, H|].
  split; [apply Hdestroy, H|].
  split; [intros s' E; refine (Hload _ _ _ E); exact H|].
  split; [intros s' E; refine (Hchange _ _ _ E); exact H|]. split.
  - intros sig s' E. unfold step in E.
    destruct (enabled (replay (trace s)) sig); [|injection E as <-; exact H].
    assert (H0 : timer_implies_pipeline (emit (EvDispatch sig) s)) by exact H.
    revert H0 E. generalize (emit (EvDispatch sig) s). intros s0 H0 E.
    destruct sig as [|id|b|b|b percent|b|escape|]; cbn [handle] in E.
    + unfold initialize_media in E.
      destruct (load_current_media (emit EvFocusWindow s0)) as [s1| |] eqn:El;
        cbn [bind] in E; try discriminate.
      injection E as <-. refine (Hload _ _ _ El); exact H0.
    + destruct (change_media s0) as [s1| |] eqn:El;
        cbn [bind] in E; try discriminate.
      injection E as <-. refine (Hchange _ _ _ El); exact H0.
    + refine (Hchange _ _ _ E); exact H0.
    + unfold on_eos in E. destruct (is_video s0);
        [refine (Hchange _ _ _ E); exact H0 | injection E as <-; exact H0].
    + unfold on_buffering in E. destruct (pipeline s0) eqn:Ep; [|discriminate].
      destruct (percent <? 100); injection E as <-; intros _;
        cbn [pipeline emit]; rewrite Ep; discriminate.
    + injection E as <-. exact H0.
    + unfold on_key_press in E. injection E as <-. destruct escape;
        [apply (Hdestroy (emit EvDestroy s0)) |]; exact H0.
    + injection E as <-. apply Hdestroy, H0.
  - intros found interval shuffle entropy. unfold init.
    destruct found; [|intro Hn; exfalso; apply Hn; reflexivity].
    apply (Hdestroy (emit EvDestroy _)). intro Hn. exfalso. apply Hn.
    reflexivity.
Qed.

(* ================================================================== *)
(** ** Retrying and advancing *)

(** C2. On a non-empty list in which every item fails to load, the loop
    of [load_current_media] returns for any fuel above the length of the
    list, after exactly [len(media_files)] attempts, on consecutive
    positions counted from the one the pass began with; the index is back
    where it began and [load_current_media] calls [destroy], which quits
    the main loop. *)
Theorem retry_loop_bounded (s : session)
  (Hnonempty : media_files s <> [])
  (Hrange : in_range s)
  (Hfail : forall s0 p, In p (media_files s) ->
                        snd (create_pipeline s0 p) = false) :
  (forall fuel, (List.length (media_files s) < fuel)%nat ->
     exists s',
       load_loop fuel 0 s = Ok (len (media_files s), s')
       /\ current_index s' = current_index s
       /\ selected (trace s') =
          selected (trace s)
          ++ map (fun k => (current_index s + Z.of_nat k)
                           mod len (media_files s))
                 (seq 0 (List.length (media_files s))))
  /\ exists s'',
       load_current_media s = Ok s''
       /\ In EvDestroy (trace s'')
       /\ quit (replay (trace s'')) = true
       /\ List.length (selected (trace s''))
          = (List.length (selected (trace s))
             + List.length (media_files s))%nat.
Proof.
  assert (Hloop : forall s0 fuel,
            media_files s0 = media_files s ->
            current_index s0 = current_index s ->
            (List.length (media_files s) < fuel)%nat ->
            exists s',
              load_loop fuel 0 s0 = Ok (len (media_files s), s')
              /\ media_files s' = media_files s
              /\ current_index s' = current_index s
              /\ selected (trace s') =
                 selected (trace s0)
                 ++ map (fun k => (current_index s + Z.of_nat k)
                                  mod len (media_files s))
                        (seq 0 (List.length (media_files s)))).
  { intros s0 fuel Hm Hc Hf.
    destruct (@load_loop_all_fail fuel 0 s0) as (s' & Hrun & Hm' & Hc' & Hsel).
    - rewrite Hm. exact Hfail.
    - unfold in_range. rewrite Hm, Hc. exact Hrange.
    - unfold len. lia.
    - rewrite Hm. unfold len. lia.
    - rewrite Hm, Hc in *. exists s'.
      split; [exact Hrun|]. split; [exact Hm'|]. split.
      + rewrite Hc'.
        replace (current_index s + (len (media_files s) - 0))
          with (current_index s + 1 * len (media_files s)) by lia.
        rewrite Z_mod_plus_full. apply Z.mod_small. exact Hrange.
      + rewrite Hsel. f_equal. f_equal. f_equal. unfold len. lia. }
  split.
  - intros fuel Hf.
    destruct (Hloop s fuel eq_refl eq_refl Hf) as (s' & Hrun & _ & Hc & Hsel).
    exists s'. auto.
  - unfold load_current_media. cbv zeta.
    destruct (Hloop (emit EvFocusWindow s)
                (S (List.length (media_files (emit EvFocusWindow s))))
                eq_refl eq_refl) as (s' & Hrun & Hm & _ & Hsel).
    { cbn. lia. }
    rewrite Hrun. cbn [bind]. rewrite Hm.
    replace (len (media_files s) >=? len (media_files s)) with true
      by (symmetry; rewrite Z.geb_leb; apply Z.leb_refl).
    exists (destroy s'). split; [reflexivity|].
    split; [apply destroy_logged|]. split; [apply destroy_quits|].
    destruct (destroy_keeps s') as (_ & _ & ->).
    rewrite Hsel, emit_selected by reflexivity.
    rewrite length_app, length_map, length_seq. reflexivity.
Qed.

(** The pipeline of call [n] cannot be built for [media_path]:
    [Gst.parse_launch] raises, or there is no playbin. *)
Definition construction_fails (n : nat) (media_path : string) : bool :=
  if is_video_file media_path then
    if endswith (str_lower media_path) ".avi"
    then parse_launch_raises n media_path
    else playbin_missing n
  else parse_launch_raises n media_path.

(** What [create_pipeline] returns and leaves in the attributes, by what
    the environment answers to call [next_object s]. *)
Lemma create_by_cause (s : session) (media_path : string) :
  consistent s ->
  let r := create_pipeline s media_path in
  let n := next_object s in
  (construction_fails n media_path = true ->
   snd r = false /\ pipeline (fst r) = None /\ bus (fst r) = None
   /\ timeout_id (fst r) = None
   /\ trace (fst r) = trace s ++ teardown_events s)
  /\ (construction_fails n media_path = false -> start_fails n = true ->
      snd r = false /\ pipeline (fst r) = Some n /\ bus (fst r) = Some n
      /\ timeout_id (fst r) = None
      /\ exists k,
           trace (fst r) = (trace s ++ teardown_events s)
                           ++ [EvConstruct n k media_path;
                               EvAddSignalWatch n;
                               EvSetStatePlaying n false])
  /\ (construction_fails n media_path = false -> start_fails n = false ->
      is_video_file media_path = false ->
      timeout_add_raises (image_interval s) = true ->
      snd r = false /\ pipeline (fst r) = Some n /\ bus (fst r) = Some n
      /\ timeout_id (fst r) = None
      /\ exists k,
           trace (fst r) = (trace s ++ teardown_events s)
                           ++ [EvConstruct n k media_path;
                               EvAddSignalWatch n;
                               EvSetStatePlaying n true])
  /\ (construction_fails n media_path = false -> start_fails n = false ->
      (is_video_file media_path = true
       \/ timeout_add_raises (image_interval s) = false) ->
      snd r = true).
Proof.
  intro C. unfold create_pipeline, start_pipeline, construction_fails.
  destruct (cleanup_consistent C) as (_ & Hp & Hbu & Hti).
  pose proof (cleanup_keeps s) as (_ & _ & Hi & Hno & Hns).
  pose proof (trace_cleanup s) as Ht.
  destruct (cleanup_pipeline s) as [mf ci iv pl bu isv tid no ns t sk].
  cbn in Hp, Hbu, Hti, Hi, Hno, Hns, Ht. subst pl bu tid.
  rewrite <- Hi, <- Hno, <- Ht. clear.
  destruct (is_video_file media_path); cbn; split_ifs;
    rewrite <- ?app_assoc; cbn;
    repeat split; intros; try discriminate; eauto;
    repeat match goal with
    | H : _ \/ _ |- _ => destruct H; try discriminate
    end.
Qed.

(** [self.sink] is written for an image whose pipeline was built, and
    nowhere else: no teardown clears it. *)
Lemma cleanup_sink (s : session) : sink (cleanup_pipeline s) = sink s.
Proof.
  destruct s as [mf ci iv [p|] [b|] isv [id|] no ns t sk]; reflexivity.
Qed.

Lemma create_sink (s : session) (media_path : string) :
  sink (fst (create_pipeline s media_path))
  = if is_video_file media_path
       || parse_launch_raises (next_object s) media_path
    then sink s else Some (next_object s).
Proof.
  unfold create_pipeline, start_pipeline.
  pose proof (cleanup_sink s) as Hs.
  pose proof (cleanup_keeps s) as (_ & _ & _ & Hno & _).
  destruct (cleanup_pipeline s) as [mf ci iv pl bu isv tid no ns t sk].
  cbn in Hs, Hno. rewrite <- Hs, <- Hno. clear.
  destruct (is_video_file media_path); cbn; split_ifs; reflexivity.
Qed.

Lemma destroy_sink (s : session) : sink (destroy s) = sink s.
Proof.
  unfold destroy, on_destroy.
  destruct s as [mf ci iv [p|] [b|] isv [id|] no ns t sk]; reflexivity.
Qed.

(** C3, as the code has it.  [create_pipeline] returns [False] exactly
    when the pipeline cannot be built, when [set_state(PLAYING)] returns
    [FAILURE], or when [timeout_add_seconds] raises for an image, and it
    then attaches no timeout.  After a failed construction no pipeline
    or bus is referenced or live.  After a failed start, or a refused
    timeout, the
    pipeline built by the call and its bus watch stay referenced, the
    only live ones, until the next [cleanup_pipeline] (the first
    statement of the next [create_pipeline], or [destroy] after the last
    attempt), which leaves no pipeline, bus or timeout.  [self.sink],
    written for an image once its pipeline is built, is cleared by
    neither. *)
Theorem failed_load_leftovers (s : session) (media_path : string)
  (Hc : consistent s) :
  let r := create_pipeline s media_path in
  let s' := fst r in
  let n := next_object s in
  (snd r = false <->
   construction_fails n media_path = true \/ start_fails n = true
   \/ (is_video_file media_path = false
       /\ timeout_add_raises (image_interval s) = true))
  /\ (construction_fails n media_path = true ->
      snd r = false
      /\ pipeline s' = None /\ bus s' = None /\ timeout_id s' = None
      /\ live (replay (trace s')) = [] /\ watched (replay (trace s')) = []
      /\ armed (replay (trace s')) = []
      /\ trace s' = trace s ++ teardown_events s)
  /\ (construction_fails n media_path = false ->
      start_fails n = true
      \/ (is_video_file media_path = false
          /\ timeout_add_raises (image_interval s) = true) ->
      snd r = false
      /\ pipeline s' = Some n /\ bus s' = Some n /\ timeout_id s' = None
      /\ live (replay (trace s')) = [n] /\ watched (replay (trace s')) = [n]
      /\ armed (replay (trace s')) = []
      /\ exists k,
           trace s' = (trace s ++ teardown_events s)
                      ++ [EvConstruct n k media_path;
                          EvAddSignalWatch n;
                          EvSetStatePlaying n (negb (start_fails n))])
  /\ (pipeline (cleanup_pipeline s') = None
      /\ bus (cleanup_pipeline s') = None
      /\ timeout_id (cleanup_pipeline s') = None
      /\ live (replay (trace (cleanup_pipeline s'))) = []
      /\ watched (replay (trace (cleanup_pipeline s'))) = []
      /\ armed (replay (trace (cleanup_pipeline s'))) = []
      /\ stopping (replay (trace (cleanup_pipeline s'))) = [])
  /\ (forall next_path,
        exists rest,
          trace (fst (create_pipeline s' next_path))
          = trace (cleanup_pipeline s') ++ rest)
  /\ pipeline (destroy s') = None /\ bus (destroy s') = None
  /\ sink s' = (if is_video_file media_path
                    || parse_launch_raises n media_path
                 then sink s else Some n)
  /\ sink (cleanup_pipeline s') = sink s'
  /\ sink (destroy s') = sink s'.
Proof.
  intros r s' n.
  pose proof (create_by_cause media_path Hc) as (K1 & K2 & K3 & K4).
  cbv zeta in K1, K2, K3, K4. fold r n in K1, K2, K3, K4.
  pose proof (create_consistent media_path Hc) as C'. fold r s' in C'.
  destruct (cleanup_consistent C') as (Cc & Hp & Hb & Ht).
  destruct (destroy_consistent C') as (_ & Hpd & Hbd & _).
  split; [|split; [|split; [|split; [|split]]]].
  - destruct (construction_fails n media_path) eqn:Ec.
    + split; [auto | intros _; apply K1; reflexivity].
    + destruct (start_fails n) eqn:Es.
      * split; [auto | intros _; apply K2; reflexivity].
      * destruct (is_video_file media_path) eqn:Ev.
        -- split; intro H.
           ++ rewrite K4 in H by auto. discriminate.
           ++ destruct H as [H|[H|[H _]]]; discriminate.
        -- destruct (timeout_add_raises (image_interval s)) eqn:Et.
           ++ split; [auto | intros _; apply K3; reflexivity].
           ++ split; intro H.
              ** rewrite K4 in H by auto. discriminate.
              ** destruct H as [H|[H|[_ H]]]; discriminate.
  - intro Ec. destruct (K1 Ec) as (R & P & B & T & Tr).
    fold s' in P, B, T, Tr.
    rewrite (c_live C'), (c_watched C'), (c_armed C'), P, B, T. auto 10.
  - intros Ec Hcause.
    assert (K : snd r = false /\ pipeline s' = Some n /\ bus s' = Some n
                /\ timeout_id s' = None
                /\ exists k,
                     trace s' = (trace s ++ teardown_events s)
                                ++ [EvConstruct n k media_path;
                                    EvAddSignalWatch n;
                                    EvSetStatePlaying n
                                      (negb (start_fails n))]).
    { destruct (start_fails n) eqn:Es; cbn [negb].
      - apply K2; [exact Ec | reflexivity].
      - destruct Hcause as [H|[Ev Et]]; [discriminate|].
        apply K3; auto. }
    destruct K as (R & P & B & T & Tr).
    rewrite (c_live C'), (c_watched C'), (c_armed C'), P, B, T. auto 10.
  - rewrite (c_live Cc), (c_watched Cc), (c_armed Cc), (c_stopping Cc),
      Hp, Hb, Ht. auto 10.
  - intro next_path.
    destruct (create_starts_clean next_path C') as ((rest & E) & _).
    exists rest. rewrite trace_cleanup. exact E.
  - split; [exact Hpd|]. split; [exact Hbd|].
    split; [apply create_sink|].
    split; [apply cleanup_sink | apply destroy_sink].
Qed.

Lemma load_loop_selected (fuel : nat) (a : Z) (s : session)
  (r : Z * session) :
  load_loop fuel a s = Ok r ->
  exists rest,
    selected (trace (snd r)) = selected (trace s) ++ rest
    /\ (a < len (media_files s) -> exists rest', rest = current_index s :: rest').
Proof.
  revert a s r. induction fuel as [|fuel IH]; intros a s r E; [discriminate|].
  rewrite load_loop_unfold in E.
  destruct (a <? len (media_files s)) eqn:Ea.
  - destruct (getitem (media_files s) (current_index s)) as [f| |];
      cbn [bind] in E; try discriminate.
    destruct (attempt_keeps s f) as (_ & _ & _ & Hsel). cbn in Hsel.
    destruct (snd (create_pipeline (picked s f) f)).
    + injection E as <-. cbn [snd]. exists [current_index s].
      split; [exact Hsel|]. intros _. exists []. reflexivity.
    + destruct (mod_ _ _) as [i| |]; cbn [bind] in E; try discriminate.
      apply IH in E. destruct E as (rest & E & _).
      cbn [trace set_current_index] in E. rewrite Hsel, <- app_assoc in E.
      exists ([current_index s] ++ rest). split; [exact E|].
      intros _. exists rest. reflexivity.
  - injection E as <-. exists []. split; [symmetry; apply app_nil_r|].
    apply Z.ltb_ge in Ea. lia.
Qed.

Lemma stepwise_differs (n : Z) (l pre post : list Z) (i j : Z) :
  stepwise n l -> 1 < n -> l = pre ++ i :: j :: post -> j <> i.
Proof.
  intros St Hn ->. induction pre as [|a pre IH].
  - destruct St as [-> _]. intro E.
    pose proof (Z.mod_pos_bound (i + 1) n ltac:(lia)) as B.
    rewrite E in B.
    destruct (Z.eq_dec (i + 1) n) as [En|En].
    + rewrite En, Z_mod_same_full in E. lia.
    + rewrite Z.mod_small in E by lia. lia.
  - apply IH. destruct pre as [|b pre]; cbn in St |- *; tauto.
Qed.

(** C4. [change_media] moves [current_index] to the next position before
    the first load attempt; and in every session each item picked is the
    one after the item picked before it, whether the earlier one failed
    in the loop, failed while playing, or ended, so with more than one
    media file no item is tried twice in a row. *)
Theorem failing_item_skipped (s : session) (Hrange : in_range s) :
  (forall s', change_media s = Ok s' ->
     exists rest,
       selected (trace s') =
       selected (trace s)
       ++ (current_index s + 1) mod len (media_files s) :: rest)
  /\ (forall found interval shuffle entropy sigs,
        exists s',
          run sigs (init found interval shuffle entropy) = Ok s'
          /\ stepwise (len (media_files s')) (selected (trace s'))
          /\ (1 < len (media_files s') ->
              forall pre i j post,
                selected (trace s') = pre ++ i :: j :: post -> j <> i)).
Proof.
  split.
  - intros s' E. unfold change_media in E.
    assert (Hn : 0 < len (media_files s)) by (unfold in_range in Hrange; lia).
    destruct (mod_in_range (current_index s + 1) Hn) as (i & Ei & -> & Ri).
    rewrite Ei in E. cbn [bind] in E.
    unfold load_current_media in E. cbv zeta in E.
    destruct (load_loop _ 0 _) as [[a s1]| |] eqn:El;
      cbn [bind] in E; try discriminate.
    apply load_loop_selected in El. destruct El as (rest & Hsel & Hfirst).
    cbn [snd trace media_files current_index emit set_current_index] in *.
    rewrite selected_app in Hsel. cbn in Hsel. rewrite app_nil_r in Hsel.
    destruct (Hfirst Hn) as (rest' & ->). exists rest'.
    destruct (a >=? len (media_files s1)); injection E as <-.
    + rewrite emit_selected by reflexivity.
      destruct (destroy_keeps s1) as (_ & _ & ->). exact Hsel.
    + rewrite emit_selected by reflexivity. exact Hsel.
  - intros found interval shuffle entropy sigs.
    destruct (reachable found interval shuffle entropy sigs)
      as (s' & Hrun & I & _ & _).
    exists s'. split; [exact Hrun|]. split; [apply I|].
    intros Hn pre i j post E.
    eapply stepwise_differs; [apply (i_stepwise I) | exact Hn | exact E].
Qed.

Lemma set_current_index_same (s : session) :
  set_current_index (current_index s) s = s.
Proof. destruct s; reflexivity. Qed.

Lemma advance_times_spec (k : nat) (s : session) :
  in_range s ->
  advance_times k s
  = Ok (set_current_index
          ((current_index s + Z.of_nat k) mod len (media_files s)) s).
Proof.
  revert s. induction k as [|k IH]; intros s R.
  - cbn [advance_times]. rewrite Z.add_0_r, Z.mod_small by exact R.
    rewrite set_current_index_same. reflexivity.
  - cbn [advance_times]. unfold advance_index.
    assert (Hn : 0 < len (media_files s)) by (unfold in_range in R; lia).
    destruct (mod_in_range (current_index s + 1) Hn) as (i & -> & Ei & Ri).
    cbn [bind]. rewrite IH by exact Ri.
    cbn [current_index media_files set_current_index]. f_equal.
    rewrite Ei, Zplus_mod_idemp_l.
    replace (current_index s + 1 + Z.of_nat k)
      with (current_index s + Z.of_nat (S k)) by lia.
    destruct s; reflexivity.
Qed.

(** C7. The advance step takes [current_index] to the next position
    modulo the length of the list and keeps it inside the list; repeated
    [len(media_files)] times it brings the session back to where it was;
    from the last position it goes to 0; it is the step of
    [change_media]; and in every session on a non-empty list the index
    is a position of the list. *)
Theorem index_wraps_around (s : session) (Hrange : in_range s) :
  (exists s',
     advance_index s = Ok s'
     /\ current_index s' = (current_index s + 1) mod len (media_files s)
     /\ media_files s' = media_files s
     /\ in_range s')
  /\ advance_times (List.length (media_files s)) s = Ok s
  /\ (current_index s = len (media_files s) - 1 ->
      exists s', advance_index s = Ok s' /\ current_index s' = 0)
  /\ change_media s
     = (s1 <- advance_index s ;;
        s2 <- load_current_media s1 ;; Ok (emit EvQueueDraw s2))
  /\ (forall found interval shuffle entropy sigs,
        found <> [] ->
        exists s',
          run sigs (init found interval shuffle entropy) = Ok s'
          /\ in_range s').
Proof.
  assert (Hn : 0 < len (media_files s)) by (unfold in_range in Hrange; lia).
  destruct (mod_in_range (current_index s + 1) Hn) as (i & Ei & Hi & Ri).
  split; [|split; [|split; [|split]]].
  - exists (set_current_index i s). unfold advance_index. rewrite Ei.
    cbn [bind]. split; [reflexivity|]. split; [exact Hi|].
    split; [reflexivity | exact Ri].
  - rewrite advance_times_spec by exact Hrange. f_equal.
    replace (Z.of_nat (List.length (media_files s)))
      with (1 * len (media_files s)) by (unfold len; lia).
    rewrite Z_mod_plus_full, Z.mod_small by exact Hrange.
    apply set_current_index_same.
  - intro Hlast. exists (set_current_index i s). unfold advance_index.
    rewrite Ei. cbn [bind]. split; [reflexivity|].
    cbn [current_index set_current_index]. rewrite Hi, Hlast.
    replace (len (media_files s) - 1 + 1) with (len (media_files s)) by lia.
    apply Z_mod_same_full.
  - unfold change_media, advance_index.
    destruct (mod_ _ _); reflexivity.
  - intros found interval shuffle entropy sigs Hf.
    destruct (reachable found interval shuffle entropy sigs)
      as (s' & Hrun & _ & _ & R).
    exists s'. split; [exact Hrun | exact (R Hf)].
Qed.

End ViewerFacts.

(* ================================================================== *)
(** ** Concrete sessions *)

(** An environment in which every pipeline is built and starts. *)
Definition working_engine : MediaEngine :=
  {| parse_launch_raises := fun _ _ => false;
     playbin_missing := fun _ => false;
     start_fails := fun _ => false;
     timeout_add_raises := fun seconds => seconds <? 0 |}.

(** An environment in which every pipeline is built and none starts. *)
Definition stalling_engine : MediaEngine :=
  {| parse_launch_raises := fun _ _ => false;
     playbin_missing := fun _ => false;
     start_fails := fun _ => true;
     timeout_add_raises := fun seconds => seconds <? 0 |}.

(** An environment in which no pipeline can be built. *)
Definition broken_engine : MediaEngine :=
  {| parse_launch_raises := fun _ _ => true;
     playbin_missing := fun _ => true;
     start_fails := fun _ => false;
     timeout_add_raises := fun seconds => seconds <? 0 |}.

(** The viewer on three files with a 3 second interval, as created. *)
Definition three_files : session :=
  init ["a.jpg"; "b.mp4"; "c.png"]%string 3 false (fun _ => 0%nat).

(** The viewer on one video, and the same once the video plays. *)
Definition one_video : session :=
  init ["b.mp4"]%string 3 false (fun _ => 0%nat).

Definition video_playing : session :=
  {| media_files := ["b.mp4"]%string; current_index := 0;
     image_interval := 3; pipeline := Some 0%nat; bus := Some 0%nat;
     is_video := true; timeout_id := None;
     next_object := 1; next_source := 1;
     trace := [EvIdleAdd; EvDispatch SigIdle; EvFocusWindow; EvFocusWindow;
               EvSelect 0 "b.mp4"; EvClearDrawingArea;
               EvConstruct 0 Playbin "b.mp4"; EvAddSignalWatch 0;
               EvSetStatePlaying 0 true; EvIdleDone];
     sink := None |}.

(** The viewer showing the first of three files, its timeout pending. *)
Definition image_showing : session :=
  {| media_files := ["a.jpg"; "b.mp4"; "c.png"]%string; current_index := 0;
     image_interval := 3; pipeline := Some 0%nat; bus := Some 0%nat;
     is_video := false; timeout_id := Some 1%positive;
     next_object := 1; next_source := 2;
     trace := [EvIdleAdd; EvDispatch SigIdle; EvFocusWindow; EvFocusWindow;
               EvSelect 0 "a.jpg"; EvConstruct 0 JpegChain "a.jpg";
               EvAddSignalWatch 0; EvSetStatePlaying 0 true;
               EvTimeoutAdd 1 3; EvIdleDone];
     sink := Some 0%nat |}.

Example video_playing_reached :
  run (py := AsciiStr) (engine := working_engine) [SigIdle] one_video
  = Ok video_playing.
Proof. vm_compute. reflexivity. Qed.

Example image_showing_reached :
  run (py := AsciiStr) (engine := working_engine) [SigIdle] three_files
  = Ok image_showing.
Proof. vm_compute. reflexivity. Qed.

(** The scenario of the three files: the image is shown until its
    timeout fires, the video until it ends, the second image until its
    timeout fires, and the first image comes back. *)
Example three_files_cycle :
  match run (py := AsciiStr) (engine := working_engine)
          [SigIdle; SigTimeout 1; SigEos 1; SigTimeout 2] three_files with
  | Ok s =>
      selected (trace s) = [0; 1; 2; 0]
      /\ current_index s = 0
      /\ pipeline s = Some 3%nat
      /\ timeout_id s = Some 3%positive
      /\ live (replay (trace s)) = [3%nat]
      /\ armed (replay (trace s)) = [3%positive]
      /\ checks no_resources (trace s) = true
  | _ => False
  end.
Proof. vm_compute. repeat split. Qed.

(** A file that cannot be loaded is skipped within the same call. *)
Example bad_file_skipped :
  match run (py := AsciiStr)
          (engine := {| parse_launch_raises :=
                          fun _ path => String.eqb path "bad.png";
                        playbin_missing := fun _ => false;
                        start_fails := fun _ => false;
                        timeout_add_raises := fun _ => false |})
          [SigIdle]
          (init ["bad.png"; "good.jpg"]%string 3 false (fun _ => 0%nat)) with
  | Ok s =>
      selected (trace s) = [0; 1]
      /\ current_index s = 1
      /\ pipeline s = Some 1%nat
      /\ quit (replay (trace s)) = false
  | _ => False
  end.
Proof. vm_compute. repeat split. Qed.

(** What teardown does to the playing video and to the shown image. *)
Example teardown_order :
  trace (cleanup_pipeline video_playing)
  = trace video_playing
    ++ [EvSetStateNull 0; EvRemoveSignalWatch 0; EvGetState 0; EvRelease 0]
  /\ trace (cleanup_pipeline image_showing)
     = trace image_showing
       ++ [EvSourceRemove 1; EvSetStateNull 0; EvRemoveSignalWatch 0;
           EvGetState 0; EvRelease 0].
Proof. split; reflexivity. Qed.

(** C6, as the specification states it, fails on the playing video: the
    first call of its teardown sets the pipeline to NULL, and the bus
    watch is removed after that. *)
Lemma unsubscribes_first_fails : ~ unsubscribes_first video_playing.
Proof.
  intros (b & rest & H). vm_compute in H. discriminate H.
Qed.

(** C3, as the specification states it, fails when the pipeline of the
    only file is built and does not start: [create_pipeline] returns
    [False] and the viewer still holds the pipeline and its bus. *)
Lemma released_on_failure_fails :
  ~ released_on_failure (py := AsciiStr) (engine := stalling_engine)
      one_video "b.mp4".
Proof.
  unfold released_on_failure. intro H.
  destruct (H eq_refl) as [Hp _]. vm_compute in Hp. discriminate Hp.
Qed.

Example failed_start_state :
  let r := create_pipeline (py := AsciiStr) (engine := stalling_engine)
             one_video "b.mp4" in
  snd r = false
  /\ pipeline (fst r) = Some 0%nat
  /\ bus (fst r) = Some 0%nat
  /\ watched (replay (trace (fst r))) = [0%nat]
  /\ trace (fst r)
     = [EvIdleAdd; EvConstruct 0 Playbin "b.mp4"; EvAddSignalWatch 0;
        EvSetStatePlaying 0 false].
Proof. repeat split; reflexivity. Qed.

Lemma consistent_one_video : consistent one_video.
Proof.
  constructor; try reflexivity.
  - intros p Hin. vm_compute in Hin. contradiction.
  - left. reflexivity.
  - intro Hn. exfalso. apply Hn. reflexivity.
Defined.

Lemma in_range_three_files : in_range three_files.
Proof. split; [discriminate | reflexivity]. Defined.

Lemma failed_load_leftovers_witness :
  consistent one_video
  /\ snd (create_pipeline (py := AsciiStr) (engine := stalling_engine)
            one_video "b.mp4") = false
  /\ pipeline (fst (create_pipeline (py := AsciiStr)
                      (engine := stalling_engine) one_video "b.mp4"))
     = Some 0%nat
  /\ pipeline (cleanup_pipeline
                 (fst (create_pipeline (py := AsciiStr)
                         (engine := stalling_engine) one_video "b.mp4")))
     = None.
Proof.
  pose proof (failed_load_leftovers (py := AsciiStr)
                (engine := stalling_engine) "b.mp4" consistent_one_video)
    as K.
  cbv zeta in K. destruct K as (_ & _ & K2 & K3 & _).
  destruct (K2 eq_refl (or_introl eq_refl)) as (R & P & _).
  split; [exact consistent_one_video|]. split; [exact R|].
  split; [exact P | exact (proj1 K3)].
Defined.

Lemma retry_loop_bounded_witness :
  media_files three_files <> []
  /\ in_range three_files
  /\ (forall s0 p, In p (media_files three_files) ->
        snd (create_pipeline (py := AsciiStr) (engine := broken_engine) s0 p)
        = false)
  /\ exists s'',
       load_current_media (py := AsciiStr) (engine := broken_engine)
         three_files = Ok s''
       /\ In EvDestroy (trace s'')
       /\ quit (replay (trace s'')) = true
       /\ List.length (selected (trace s''))
          = (List.length (selected (trace three_files))
             + List.length (media_files three_files))%nat.
Proof.
  assert (Hfail : forall s0 p, In p (media_files three_files) ->
            snd (create_pipeline (py := AsciiStr) (engine := broken_engine)
                   s0 p) = false).
  { intros s0 p _. unfold create_pipeline.
    generalize (cleanup_pipeline s0). intro s1.
    generalize (is_video_file (py := AsciiStr) p). intros [|]; cbn.
    - destruct (endswith _ ".avi"); reflexivity.
    - reflexivity. }
  split; [discriminate|]. split; [exact in_range_three_files|].
  split; [exact Hfail|].
  apply (retry_loop_bounded (py := AsciiStr) (engine := broken_engine)
           (s := three_files)); [discriminate | exact in_range_three_files
                                 | exact Hfail].
Defined.

Lemma failing_item_skipped_witness :
  in_range three_files
  /\ forall s',
       change_media (py := AsciiStr) (engine := working_engine) three_files
       = Ok s' ->
       exists rest,
         selected (trace s') =
         selected (trace three_files)
         ++ (current_index three_files + 1)
            mod len (media_files three_files) :: rest.
Proof.
  split; [exact in_range_three_files|].
  apply (failing_item_skipped (py := AsciiStr) (engine := working_engine)
           in_range_three_files).
Defined.

Lemma index_wraps_around_witness :
  in_range three_files
  /\ advance_times (List.length (media_files three_files)) three_files
     = Ok three_files.
Proof.
  split; [exact in_range_three_files|].
  apply (index_wraps_around (py := AsciiStr) (engine := working_engine)
           in_range_three_files).
Defined.

Lemma timer_implies_pipeline_kept_witness :
  timer_implies_pipeline image_showing
  /\ timer_implies_pipeline (cleanup_pipeline image_showing)
  /\ timer_implies_pipeline (on_destroy image_showing).
Proof.
  assert (H : timer_implies_pipeline image_showing)
    by (intros _; discriminate).
  split; [exact H|].
  pose proof (timer_implies_pipeline_kept (py := AsciiStr)
                (engine := working_engine) H) as K.
  split; [exact (proj1 K) | exact (proj1 (proj2 (proj2 K)))].
Defined.

(* ================================================================== *)
(** * Further properties of the viewer *)

Section Closing.

Context {py : PyStr} {engine : MediaEngine}.

(** Once [Gtk.main_quit] was called the main loop runs no callback. *)
Lemma run_after_quit (sigs : list signal) (s : session) :
  quit (replay (trace s)) = true -> run sigs s = Ok s.
Proof.
  intro Q. induction sigs as [|sig sigs IH]; [reflexivity|].
  cbn [run]. unfold step, enabled. rewrite Q. cbn [negb andb bind].
  exact IH.
Qed.

(** X1. In a session the viewer's own statements raise none of
    [IndexError], [ZeroDivisionError] and [AttributeError]: between two
    callbacks [current_index] is a position of [media_files], a timeout
    of [change_media] is attached only for a non-empty list, and a bus
    message finds the pipeline it came from.  Outside a session they do
    raise: the advance step divides by zero on an empty list, a
    buffering message without a pipeline reads an attribute of [None];
    the loading loop on an empty list closes the viewer at once. *)
Theorem viewer_statements_never_raise (found : list string) (interval : Z)
  (shuffle : bool) (entropy : nat -> nat) (sigs : list signal) :
  (run sigs (init found interval shuffle entropy) <> Raised IndexError
   /\ run sigs (init found interval shuffle entropy)
      <> Raised ZeroDivisionError
   /\ run sigs (init found interval shuffle entropy)
      <> Raised AttributeError)
  /\ (forall s, run sigs (init found interval shuffle entropy) = Ok s ->
        (found <> [] -> in_range s)
        /\ (forall id, enabled (replay (trace s)) (SigTimeout id) = true ->
                       media_files s <> [] /\ in_range s)
        /\ (forall b percent,
              enabled (replay (trace s)) (SigBuffering b percent) = true ->
              pipeline s = Some b))
  /\ (forall s, media_files s = [] ->
        change_media s = Raised ZeroDivisionError
        /\ load_current_media s = Ok (destroy (emit EvFocusWindow s)))
  /\ (forall s percent, pipeline s = None ->
        on_buffering percent s = Raised AttributeError).
Proof.
  destruct (reachable found interval shuffle entropy sigs)
    as (s0 & H0 & I0 & _ & R0).
  split; [|split; [|split]].
  - rewrite H0. repeat split; discriminate.
  - intros s Hs. rewrite H0 in Hs. injection Hs as <-.
    split; [exact R0|]. split.
    + intros id En. unfold enabled in En.
      apply andb_true_iff in En. destruct En as [Hq Ha].
      apply negb_true_iff in Hq.
      destruct (i_running I0) as [Q|(R & _)]; [congruence|].
      split; [|exact R]. intro E. unfold in_range in R.
      rewrite E in R. cbn in R. lia.
    + intros b percent En. unfold enabled in En.
      apply andb_true_iff in En. destruct En as [_ Hw].
      destruct (watched_live b (i_consistent I0) Hw) as (Hp & _).
      exact Hp.
  - intros s Hm. split.
    + unfold change_media, mod_, len. rewrite Hm. reflexivity.
    + unfold load_current_media. cbv zeta. rewrite load_loop_unfold.
      cbn [media_files emit]. rewrite Hm.
      replace (0 <? len (@nil string)) with false by reflexivity.
      cbn [bind media_files emit]. rewrite Hm. reflexivity.
  - intros s percent Hp. unfold on_buffering. rewrite Hp. reflexivity.
Qed.

(** X2. With no media file found the viewer closes itself in
    [__init__]: it only calls [destroy] and [Gtk.main_quit], schedules no
    [initialize_media], builds no pipeline and attaches no timeout, and
    no signal delivered afterwards changes anything. *)
Theorem empty_catalog_closes (interval : Z) (shuffle : bool)
  (entropy : nat -> nat) (sigs : list signal) :
  let s := init [] interval shuffle entropy in
  trace s = [EvDestroy; EvMainQuit]
  /\ pipeline s = None /\ timeout_id s = None
  /\ idle_pending (replay (trace s)) = false
  /\ run sigs s = Ok s.
Proof.
  cbn zeta. repeat split. apply run_after_quit. reflexivity.
Qed.

End Closing.

Section Attempts.

Context {py : PyStr} {engine : MediaEngine}.


(** The loop for any answers of the environment: it returns, the bound is
    respected, and it tried consecutive positions; when it stopped below
    the bound it stopped on a [create_pipeline] that returned [True]. *)
Lemma load_loop_attempts (fuel : nat) (attempts : Z) (s : session) :
  in_range s -> 0 <= attempts <= len (media_files s) ->
  (Z.to_nat (len (media_files s) - attempts) < fuel)%nat ->
  exists attempts' s',
    load_loop fuel attempts s = Ok (attempts', s')
    /\ attempts <= attempts' <= len (media_files s)
    /\ media_files s' = media_files s
    /\ selected (trace s') =
       selected (trace s)
       ++ map (fun k => (current_index s + Z.of_nat k) mod len (media_files s))
              (seq 0 (Z.to_nat (if attempts' <? len (media_files s)
                                then attempts' - attempts + 1
                                else len (media_files s) - attempts)))
    /\ current_index s' =
       (current_index s + (attempts' - attempts)) mod len (media_files s)
    /\ (attempts' < len (media_files s) ->
        exists s0 f,
          getitem (media_files s) (current_index s') = Ok f
          /\ s' = fst (create_pipeline s0 f)
          /\ snd (create_pipeline s0 f) = true).
Proof.
  revert attempts s.
  induction fuel as [|fuel IH]; intros a s R Ha Hf; [lia|].
  rewrite load_loop_unfold.
  assert (Hn : 0 < len (media_files s)) by (unfold in_range in R; lia).
  destruct (a <? len (media_files s)) eqn:E.
  - apply Z.ltb_lt in E.
    destruct (getitem_in_range (media_files s) R) as (f & Hget & _).
    rewrite Hget. cbn [bind].
    destruct (attempt_keeps s f) as (Hm & Hc & _ & Hsel).
    cbn in Hm, Hc, Hsel.
    destruct (snd (create_pipeline (picked s f) f)) eqn:Ok1.
    + exists a, (fst (create_pipeline (picked s f) f)).
      split; [reflexivity|]. split; [lia|]. split; [exact Hm|].
      assert (Ea : (a <? len (media_files s)) = true)
        by (apply Z.ltb_lt; exact E).
      rewrite Ea.
      replace (a - a + 1) with 1 by lia. replace (a - a) with 0 by lia.
      split; [|split].
      * rewrite Hsel. change (Z.to_nat 1) with 1%nat.
        cbn [seq map Z.of_nat].
        rewrite Z.add_0_r, Z.mod_small by exact R. reflexivity.
      * rewrite Z.add_0_r, Z.mod_small by exact R. exact Hc.
      * intros _. exists (picked s f), f. rewrite Hc. auto.
    + set (s1 := fst (create_pipeline (picked s f) f)) in *.
      rewrite Hm, Hc.
      destruct (mod_in_range (current_index s + 1) Hn) as (i & -> & Ei & Ri).
      cbn [bind].
      destruct (IH (a + 1) (set_current_index i s1))
        as (a' & s' & Hrun & Ha' & Hm' & Hsel' & Hc' & Hlast).
      * unfold in_range. cbn [current_index media_files set_current_index].
        rewrite Hm. exact Ri.
      * cbn [media_files set_current_index]. rewrite Hm. lia.
      * cbn [media_files set_current_index]. rewrite Hm. lia.
      * cbn [current_index media_files set_current_index trace]
          in Hrun, Ha', Hm', Hsel', Hc', Hlast.
        rewrite Hm in *. exists a', s'.
        split; [exact Hrun|]. split; [lia|]. split; [exact Hm'|].
        split; [|split].
        -- rewrite Hsel', Hsel, <- app_assoc. f_equal.
           replace (Z.to_nat (if a' <? len (media_files s)
                              then a' - a + 1 else len (media_files s) - a))
             with (S (Z.to_nat (if a' <? len (media_files s)
                                then a' - (a + 1) + 1
                                else len (media_files s) - (a + 1))))
             by (destruct (a' <? len (media_files s)); lia).
           rewrite pass_cons by exact R. subst i. reflexivity.
        -- rewrite Hc', Ei, Zplus_mod_idemp_l. f_equal. lia.
        -- exact Hlast.
  - apply Z.ltb_ge in E. assert (a = len (media_files s)) by lia. subst a.
    exists (len (media_files s)), s.
    split; [reflexivity|]. split; [lia|]. split; [reflexivity|].
    rewrite Z.ltb_irrefl, Z.sub_diag, Z.add_0_r. cbn.
    rewrite app_nil_r, (Z.mod_small _ _ R).
    split; [reflexivity|]. split; [reflexivity|]. lia.
Qed.

(** The loading loop in the model, where every [create_pipeline]
    returns. *)
Lemma load_current_media_attempts (s : session) (Hrange : in_range s) :
  exists k s',
    load_current_media s = Ok s'
    /\ (1 <= k <= List.length (media_files s))%nat
    /\ media_files s' = media_files s
    /\ selected (trace s') =
       selected (trace s)
       ++ map (fun j => (current_index s + Z.of_nat j) mod len (media_files s))
              (seq 0 k)
    /\ ((k = List.length (media_files s)
         /\ current_index s' = current_index s
         /\ In EvDestroy (trace s')
         /\ quit (replay (trace s')) = true)
        \/ (current_index s' =
              (current_index s + Z.of_nat k - 1) mod len (media_files s)
            /\ exists s0 f,
                 getitem (media_files s) (current_index s') = Ok f
                 /\ s' = fst (create_pipeline s0 f)
                 /\ snd (create_pipeline s0 f) = true)).
Proof.
  assert (Hn : 0 < len (media_files s)) by (unfold in_range in Hrange; lia).
  unfold load_current_media. cbv zeta.
  destruct (@load_loop_attempts
              (S (List.length (media_files (emit EvFocusWindow s)))) 0
              (emit EvFocusWindow s))
    as (a & s1 & -> & Ha & Hm & Hsel & Hc & Hlast).
  - exact Hrange.
  - cbn [media_files emit]. lia.
  - cbn [media_files emit]. unfold len. lia.
  - cbn [bind]. cbn [media_files current_index emit] in *.
    rewrite emit_selected in Hsel by reflexivity. rewrite Hm.
    destruct (a >=? len (media_files s)) eqn:E.
    + rewrite Z.geb_leb in E. apply Z.leb_le in E.
      assert (a = len (media_files s)) by lia. subst a.
      rewrite Z.ltb_irrefl in Hsel.
      exists (List.length (media_files s)), (destroy s1).
      destruct (destroy_keeps s1) as (Hmd & Hcd & Hseld).
      split; [reflexivity|]. split; [unfold len in Hn; lia|].
      split; [congruence|]. split.
      * rewrite Hseld, Hsel. do 3 f_equal. unfold len. lia.
      * left. split; [reflexivity|].
        split; [|split; [apply destroy_logged | apply destroy_quits]].
        rewrite Hcd, Hc.
        replace (current_index s + (len (media_files s) - 0))
          with (current_index s + 1 * len (media_files s)) by lia.
        rewrite Z_mod_plus_full. apply Z.mod_small. exact Hrange.
    + rewrite Z.geb_leb in E. apply Z.leb_gt in E.
      pose proof E as E'. apply Z.ltb_lt in E'. rewrite E' in Hsel.
      exists (Z.to_nat (a + 1)), s1.
      split; [reflexivity|]. split; [unfold len in *; lia|].
      split; [exact Hm|]. split.
      * rewrite Hsel. do 3 f_equal. lia.
      * right. split; [|exact (Hlast E)].
        rewrite Hc. f_equal. lia.
Qed.

(** X4. The loading loop is bounded: whatever the environment answers
    it needs no more iterations than there are media files.  When
    [load_current_media] returns it has made at least one and at most
    [len(media_files)] load attempts, on consecutive positions starting
    at [current_index]: either it has tried every item, the index is
    back where it began and the viewer is closed; or it stopped on the
    position of the last attempt, which is a [create_pipeline] that
    returned [True] on the file at that position. *)
Theorem load_attempts_bounded (s : session) (Hrange : in_range s) :
  (forall fuel, (List.length (media_files s) < fuel)%nat ->
                load_loop fuel 0 (emit EvFocusWindow s) <> OutOfFuel)
  /\ forall s',
       load_current_media s = Ok s' ->
       exists k,
         (1 <= k <= List.length (media_files s))%nat
         /\ media_files s' = media_files s
         /\ selected (trace s') =
            selected (trace s)
            ++ map (fun j => (current_index s + Z.of_nat j)
                             mod len (media_files s))
                   (seq 0 k)
         /\ ((k = List.length (media_files s)
              /\ current_index s' = current_index s
              /\ In EvDestroy (trace s')
              /\ quit (replay (trace s')) = true)
             \/ (current_index s' =
                   (current_index s + Z.of_nat k - 1)
                   mod len (media_files s)
                 /\ exists s0 f,
                      getitem (media_files s) (current_index s') = Ok f
                      /\ s' = fst (create_pipeline s0 f)
                      /\ snd (create_pipeline s0 f) = true)).
Proof.
  split.
  - intros fuel Hf. apply load_loop_terminates.
    cbn [media_files emit]. unfold len. lia.
  - intros s' Hs'.
    destruct (load_current_media_attempts Hrange) as (k & s1 & E & H).
    rewrite E in Hs'. injection Hs' as <-. exists k. exact H.
Qed.





End Attempts.

Section Showing.

Context {py : PyStr} {engine : MediaEngine}.

(** The pipeline description [create_pipeline] chooses for a path. *)
Definition chain_of (media_path : string) : pipeline_kind :=
  if is_video_file media_path then
    if endswith (str_lower media_path) ".avi" then AviChain else Playbin
  else
    if endswith (str_lower media_path) ".jpg"
       || endswith (str_lower media_path) ".jpeg"
    then JpegChain else DecodebinChain.

(** The pipelines built so far, in order: identifier, description and
    file. *)
Definition constructs (t : list event)
  : list (nat * pipeline_kind * string) :=
  flat_map (fun e => match e with
                     | EvConstruct p k path => [(p, k, path)]
                     | _ => []
                     end) t.

(** The pipeline the viewer holds is the last one built, it was built
    for the current item with the description of its path, [is_video]
    tells the kind of the item, and a timeout is pending exactly when it
    is an image. *)
Definition showing_current (s : session) : Prop :=
  forall p, pipeline s = Some p ->
  exists f,
    getitem (media_files s) (current_index s) = Ok f
    /\ is_video s = is_video_file f
    /\ (timeout_id s <> None <-> is_video_file f = false)
    /\ last_opt (constructs (trace s)) = Some (p, chain_of f, f).

(** What a trace may contain for a given list of files and interval:
    items are picked inside the list, pipelines are built for files of the
    list with the description of their path, and timeouts last the
    interval. *)
Definition expected (mf : list string) (iv : Z) (e : event) : Prop :=
  match e with
  | EvSelect i path => 0 <= i < len mf /\ getitem mf i = Ok path
  | EvConstruct _ k path => In path mf /\ k = chain_of path
  | EvTimeoutAdd _ seconds => seconds = iv
  | _ => True
  end.

Lemma create_is_video (s : session) (media_path : string) :
  is_video (fst (create_pipeline s media_path)) = is_video_file media_path.
Proof.
  unfold create_pipeline, start_pipeline.
  destruct (cleanup_pipeline s) as [mf ci iv pl bu isv tid no ns t sk].
  destruct (is_video_file media_path); cbn;
    repeat match goal with
    | |- context [endswith ?a ?b] => destruct (endswith a b); cbn
    | |- context [parse_launch_raises ?a ?b] =>
        destruct (parse_launch_raises a b); cbn
    | |- context [playbin_missing ?a] => destruct (playbin_missing a); cbn
    | |- context [start_fails ?a] => destruct (start_fails a); cbn
    | |- context [timeout_add_raises ?a] =>
        destruct (timeout_add_raises a); cbn
    end; reflexivity.
Qed.

Lemma load_loop_showing (fuel : nat) (a : Z) (s : session)
  (r : Z * session) :
  consistent s -> load_loop fuel a s = Ok r ->
  consistent (snd r)
  /\ media_files (snd r) = media_files s
  /\ (fst r < len (media_files s) ->
      pipeline (snd r) <> None /\ showing_current (snd r)).
Proof.
  revert a s r. induction fuel as [|fuel IH]; intros a s r C E; [discriminate|].
  rewrite load_loop_unfold in E.
  destruct (a <? len (media_files s)) eqn:Ea.
  - destruct (getitem (media_files s) (current_index s)) as [f| |] eqn:Hget;
      cbn [bind] in E; try discriminate.
    pose proof (create_consistent f (picked_consistent f C)) as C1.
    pose proof (create_outcome f (picked_consistent f C)) as Out.
    cbv zeta in Out.
    destruct (attempt_keeps s f) as (Hm & Hc & _ & _). cbn in Hm, Hc.
    destruct (snd (create_pipeline (picked s f) f)).
    + injection E as <-. cbn [fst snd].
      split; [exact C1|]. split; [exact Hm|]. intros _.
      destruct Out as (Hp & _ & Ht & Htr).
      assert (Hpl : pipeline (fst (create_pipeline (picked s f) f)) <> None)
        by (rewrite Hp; discriminate).
      split; [exact Hpl|]. intros p Hpp. exists f.
      rewrite Hp in Hpp. injection Hpp as <-.
      rewrite Hm, Hc, create_is_video, Ht.
      split; [exact Hget|]. split; [reflexivity|]. split.
      * destruct (is_video_file f); split; intro H; try congruence;
          try discriminate.
      * rewrite Htr. unfold constructs. rewrite !flat_map_app.
        fold (constructs (trace (picked s f) ++ teardown_events (picked s f))).
        assert (E0 : flat_map
                       (fun e => match e with
                                 | EvConstruct p k path => [(p, k, path)]
                                 | _ => []
                                 end)
                       (if is_video_file f then []
                        else [EvTimeoutAdd (next_source (picked s f))
                                (image_interval (picked s f))]) = [])
          by (destruct (is_video_file f); reflexivity).
        rewrite E0, app_nil_r. cbn [flat_map app].
        apply last_opt_snoc.
    + destruct (mod_ _ _) as [i| |]; cbn [bind] in E; try discriminate.
      apply IH in E; [|apply consistent_set_index; exact C1].
      cbn [media_files set_current_index] in E. rewrite Hm in E. exact E.
  - injection E as <-. cbn [fst snd]. split; [exact C|].
    split; [reflexivity|]. apply Z.ltb_ge in Ea. intro. lia.
Qed.

Lemma last_opt_in {A} (l : list A) (x : A) : last_opt l = Some x -> In x l.
Proof.
  induction l as [|a [|b l] IH]; cbn; intro H; [discriminate | |].
  - injection H as ->. now left.
  - right. apply IH. exact H.
Qed.

Lemma last_in_constructs (t : list event) (p : nat) (k : pipeline_kind)
  (f : string) :
  last_opt (constructs t) = Some (p, k, f) -> In (EvConstruct p k f) t.
Proof.
  intro H. apply last_opt_in in H. unfold constructs in H.
  apply in_flat_map in H. destruct H as (e & He & Hin).
  destruct e; cbn in Hin; try contradiction.
  destruct Hin as [E|[]]. injection E as -> -> ->. exact He.
Qed.

Lemma showing_emit (e : event) (s : session) :
  constructs [e] = [] -> showing_current s -> showing_current (emit e s).
Proof.
  intros He W p Hp. destruct (W p Hp) as (f & H1 & H2 & H3 & H4).
  exists f. split; [exact H1|]. split; [exact H2|]. split; [exact H3|].
  cbn [trace emit]. unfold constructs in *. rewrite flat_map_app, He.
  rewrite app_nil_r. exact H4.
Qed.

Lemma showing_closed (s : session) : pipeline s = None -> showing_current s.
Proof. intros H p Hp. congruence. Qed.

Lemma load_current_media_showing (s s' : session) :
  consistent s -> load_current_media s = Ok s' -> showing_current s'.
Proof.
  intros C E. unfold load_current_media in E. cbv zeta in E.
  destruct (load_loop _ 0 (emit EvFocusWindow s)) as [[a s1]| |] eqn:El;
    cbn [bind] in E; try discriminate.
  apply load_loop_showing in El;
    [|apply consistent_emit; [intro r; cbn; tauto | reflexivity | exact C]].
  cbn [fst snd] in El. destruct El as (C1 & Hm & Hshow).
  rewrite Hm in E.
  destruct (a >=? len (media_files (emit EvFocusWindow s))) eqn:Ea;
    injection E as <-.
  - apply showing_closed. apply (destroy_consistent C1).
  - rewrite Z.geb_leb in Ea. apply Z.leb_gt in Ea. apply (Hshow Ea).
Qed.

Lemma change_media_showing (s s' : session) :
  consistent s -> change_media s = Ok s' -> showing_current s'.
Proof.
  intros C E. unfold change_media in E.
  destruct (mod_ _ _) as [i| |]; cbn [bind] in E; try discriminate.
  destruct (load_current_media (set_current_index i s)) as [s1| |] eqn:El;
    cbn [bind] in E; try discriminate.
  injection E as <-. apply showing_emit; [reflexivity|].
  apply (load_current_media_showing (consistent_set_index i C) El).
Qed.

Lemma step_showing (sig : signal) (s s' : session) :
  invariant s -> showing_current s -> step sig s = Ok s' ->
  showing_current s'.
Proof.
  intros I W E. unfold step in E.
  destruct (enabled (replay (trace s)) sig) eqn:En;
    [|injection E as <-; exact W].
  assert (C0 : consistent (emit (EvDispatch sig) s)).
  { destruct (step_invariant sig I) as (s2 & E2 & _).
    unfold step in E2. rewrite En in E2.
    unfold enabled in En. apply andb_true_iff in En. destruct En as [Hq Hen].
    apply consistent_emit; [intro r; cbn; tauto | | apply I].
    cbn. destruct (bus_of sig) as [b|] eqn:Hb; [|reflexivity].
    assert (Hw : has b (watched (replay (trace s))) = true)
      by (destruct sig; cbn in Hb; try discriminate;
          injection Hb as <-; exact Hen).
    destruct (watched_live b (i_consistent I) Hw) as (_ & _ & Hl).
    rewrite Hl, Hw. reflexivity. }
  assert (W0 : showing_current (emit (EvDispatch sig) s))
    by (apply showing_emit; [reflexivity | exact W]).
  revert C0 W0 E. generalize (emit (EvDispatch sig) s). intros s0 C0 W0 E.
  destruct sig as [|id|b|b|b percent|b|escape|]; cbn [handle] in E.
  - unfold initialize_media in E.
    destruct (load_current_media (emit EvFocusWindow s0)) as [s1| |] eqn:El;
      cbn [bind] in E; try discriminate.
    injection E as <-. apply showing_emit; [reflexivity|].
    refine (load_current_media_showing _ El).
    apply consistent_emit; [intro r; cbn; tauto | reflexivity | exact C0].
  - destruct (change_media s0) as [s1| |] eqn:El;
      cbn [bind] in E; try discriminate.
    injection E as <-. apply showing_emit; [reflexivity|].
    apply (change_media_showing C0 El).
  - apply (change_media_showing C0 E).
  - unfold on_eos in E. destruct (is_video s0);
      [apply (change_media_showing C0 E) | injection E as <-; exact W0].
  - unfold on_buffering in E. destruct (pipeline s0) eqn:Ep; [|discriminate].
    destruct (percent <? 100); injection E as <-;
      (apply showing_emit; [reflexivity | exact W0]).
  - injection E as <-. exact W0.
  - unfold on_key_press in E. injection E as <-. destruct escape; [|exact W0].
    apply showing_closed. apply (destroy_consistent C0).
  - injection E as <-. apply showing_closed.
    apply (on_destroy_consistent C0).
Qed.

Lemma run_showing (sigs : list signal) (s s' : session) :
  invariant s -> showing_current s -> run sigs s = Ok s' ->
  showing_current s'.
Proof.
  revert s. induction sigs as [|sig sigs IH]; intros s I W E.
  - injection E as <-. exact W.
  - cbn [run] in E.
    destruct (step_invariant sig I) as (s1 & E1 & I1 & _).
    rewrite E1 in E. cbn [bind] in E.
    apply (IH s1 I1 (step_showing sig I W E1) E).
Qed.

(** X6. Between two callbacks of any session, the pipeline the viewer
    holds is the last one that was built, and it was built for the file
    at [current_index] with the description of its path; [is_video] is
    the kind of that file, and a timeout is pending exactly when the file
    is an image: a shown image always has the timeout that will replace
    it, and a video never has one.  Without a pipeline no timeout is
    pending.  End-of-stream is acted on only for a video. *)
Theorem image_shown_has_timer (found : list string) (interval : Z)
  (shuffle : bool) (entropy : nat -> nat) (sigs : list signal) :
  exists s,
    run sigs (init found interval shuffle entropy) = Ok s
    /\ (forall p, pipeline s = Some p ->
        exists f,
          getitem (media_files s) (current_index s) = Ok f
          /\ last_opt (constructs (trace s)) = Some (p, chain_of f, f)
          /\ In (EvConstruct p (chain_of f) f) (trace s)
          /\ is_video s = is_video_file f
          /\ (timeout_id s <> None <-> is_video_file f = false)
          /\ (is_video_file f = false -> on_eos s = Ok s)
          /\ (is_video_file f = true -> on_eos s = change_media s))
    /\ (pipeline s = None -> timeout_id s = None /\ bus s = None).
Proof.
  destruct (reachable found interval shuffle entropy sigs)
    as (s & Hrun & I & _ & _).
  exists s. split; [exact Hrun|]. split.
  - intros p Hp.
    assert (W : showing_current s).
    { refine (run_showing sigs (init_invariant found interval shuffle entropy)
                _ Hrun).
      apply showing_closed. unfold init. destruct found; reflexivity. }
    destruct (W p Hp) as (f & Hget & Hv & Ht & Hlast). exists f.
    split; [exact Hget|]. split; [exact Hlast|]. split.
    { apply last_in_constructs. exact Hlast. }
    split; [exact Hv|]. split; [exact Ht|].
    unfold on_eos. rewrite Hv. split; intros ->; reflexivity.
  - intro Hp. pose proof (i_consistent I) as C. split.
    + destruct (timeout_id s) eqn:Et; [|reflexivity].
      exfalso. apply (c_timer C); [rewrite Et; discriminate | exact Hp].
    + destruct (c_bus C) as [Hb|Hb]; [exact Hb | congruence].
Qed.

End Showing.

Section Audit.

Context {py : PyStr} {engine : MediaEngine}.

Variable mf : list string.
Variable iv : Z.

Lemma expected_emit (e : event) (s : session) :
  expected mf iv e -> Forall (expected mf iv) (trace s) ->
  Forall (expected mf iv) (trace (emit e s)).
Proof.
  intros He H. cbn [trace emit]. apply Forall_app. split; [exact H|].
  constructor; [exact He | constructor].
Qed.

Lemma expected_cleanup (s : session) :
  Forall (expected mf iv) (trace s) ->
  Forall (expected mf iv) (trace (cleanup_pipeline s)).
Proof.
  intro H. rewrite trace_cleanup. apply Forall_app. split; [exact H|].
  unfold teardown_events.
  destruct (pipeline s), (timeout_id s), (bus s);
    repeat constructor.
Qed.

Lemma expected_create (s : session) (media_path : string) :
  In media_path mf -> image_interval s = iv ->
  Forall (expected mf iv) (trace s) ->
  Forall (expected mf iv) (trace (fst (create_pipeline s media_path))).
Proof.
  intros Hin Hiv H. apply expected_cleanup in H.
  pose proof (cleanup_keeps s) as (_ & _ & Hi & _).
  unfold create_pipeline, start_pipeline.
  destruct (cleanup_pipeline s) as [m ci i pl bu isv tid no ns t sk].
  cbn in Hi, H. rewrite Hiv in Hi. subst i.
  assert (Hk : forall k, k = chain_of media_path ->
            Forall (expected mf iv) (t ++ [EvConstruct no k media_path])).
  { intros k ->. apply Forall_app. split; [exact H|].
    constructor; [split; [exact Hin | reflexivity] | constructor]. }
  unfold chain_of in Hk.
  destruct (is_video_file media_path); cbn;
    repeat match goal with
    | |- context [endswith ?a ?b] => destruct (endswith a b); cbn in Hk |- *
    | |- context [parse_launch_raises ?a ?b] =>
        destruct (parse_launch_raises a b); cbn
    | |- context [playbin_missing ?a] => destruct (playbin_missing a); cbn
    | |- context [start_fails ?a] => destruct (start_fails a); cbn
    | |- context [timeout_add_raises ?a] =>
        destruct (timeout_add_raises a); cbn
    end;
    repeat (apply Forall_app; split;
            [| constructor; [first [exact I | reflexivity] | constructor]]);
    first [exact H | apply Hk; reflexivity].
Qed.

Lemma expected_on_destroy (s : session) :
  Forall (expected mf iv) (trace s) ->
  Forall (expected mf iv) (trace (on_destroy s)).
Proof.
  intro H. unfold on_destroy. apply expected_emit; [exact I|].
  apply expected_cleanup.
  destruct (timeout_id s); [apply expected_emit; [exact I | exact H] | exact H].
Qed.

Lemma expected_destroy (s : session) :
  Forall (expected mf iv) (trace s) ->
  Forall (expected mf iv) (trace (destroy s)).
Proof.
  intro H. unfold destroy. apply expected_on_destroy.
  apply expected_emit; [exact I | exact H].
Qed.

Lemma expected_load_loop (fuel : nat) (a : Z) (s : session)
  (r : Z * session) :
  media_files s = mf -> image_interval s = iv -> in_range s ->
  Forall (expected mf iv) (trace s) ->
  load_loop fuel a s = Ok r ->
  Forall (expected mf iv) (trace (snd r))
  /\ media_files (snd r) = mf /\ image_interval (snd r) = iv.
Proof.
  revert a s r.
  induction fuel as [|fuel IH]; intros a s r Hm Hi R H E; [discriminate|].
  rewrite load_loop_unfold in E.
  destruct (a <? len (media_files s)).
  - destruct (getitem (media_files s) (current_index s)) as [f| |] eqn:Hget;
      cbn [bind] in E; try discriminate.
    destruct (attempt_keeps s f) as (Hm1 & Hc1 & Hi1 & _).
    cbn in Hm1, Hc1, Hi1.
    assert (Hin : In f mf).
    { destruct (getitem_in_range (media_files s) R) as (f' & Hg & Hn).
      rewrite Hget in Hg. injection Hg as <-. rewrite <- Hm.
      apply nth_error_In in Hn. exact Hn. }
    assert (H1 : Forall (expected mf iv)
                   (trace (fst (create_pipeline (picked s f) f)))).
    { apply expected_create; [exact Hin | |].
      - rewrite (proj1 (proj2 (proj2 (picked_keeps s f)))). exact Hi.
      - unfold picked.
        assert (Hsel : expected mf iv (EvSelect (current_index s) f))
          by (rewrite <- Hm; split; [exact R | exact Hget]).
        destruct (is_video_file f);
          [apply expected_emit; [exact I|] |];
          apply expected_emit; assumption. }
    destruct (snd (create_pipeline (picked s f) f)).
    + injection E as <-. cbn [snd]. split; [exact H1|]. split; congruence.
    + destruct (mod_ _ _) as [i| |] eqn:Emod; cbn [bind] in E;
        try discriminate.
      apply IH in E; [exact E | | | | exact H1].
      * cbn [media_files set_current_index]. congruence.
      * cbn [image_interval set_current_index]. congruence.
      * unfold in_range. cbn [current_index media_files set_current_index].
        unfold mod_ in Emod.
        destruct (len _ =? 0); [discriminate|]. injection Emod as <-.
        apply Z.mod_pos_bound. rewrite Hm1. unfold in_range in R. lia.
  - injection E as <-. auto.
Qed.

Lemma expected_load_current_media (s s' : session) :
  media_files s = mf -> image_interval s = iv -> in_range s ->
  Forall (expected mf iv) (trace s) ->
  load_current_media s = Ok s' ->
  Forall (expected mf iv) (trace s').
Proof.
  intros Hm Hi R H E. unfold load_current_media in E. cbv zeta in E.
  destruct (load_loop _ 0 (emit EvFocusWindow s)) as [[a s1]| |] eqn:El;
    cbn [bind] in E; try discriminate.
  apply expected_load_loop in El;
    [| exact Hm | exact Hi | exact R | apply expected_emit; [exact I | exact H]].
  cbn [snd] in El. destruct El as (H1 & _).
  destruct (a >=? len (media_files s1)); injection E as <-;
    [apply expected_destroy |]; exact H1.
Qed.

Lemma expected_change_media (s s' : session) :
  media_files s = mf -> image_interval s = iv -> in_range s ->
  Forall (expected mf iv) (trace s) ->
  change_media s = Ok s' ->
  Forall (expected mf iv) (trace s').
Proof.
  intros Hm Hi R H E. unfold change_media in E.
  destruct (mod_ _ _) as [i| |] eqn:Emod; cbn [bind] in E; try discriminate.
  destruct (load_current_media (set_current_index i s)) as [s1| |] eqn:El;
    cbn [bind] in E; try discriminate.
  injection E as <-. apply expected_emit; [exact I|].
  refine (expected_load_current_media _ _ _ _ El); try assumption.
  unfold in_range. cbn [current_index media_files set_current_index].
  unfold mod_ in Emod. destruct (len _ =? 0); [discriminate|].
  injection Emod as <-. apply Z.mod_pos_bound. unfold in_range in R. lia.
Qed.

Lemma expected_step (sig : signal) (s s' : session) :
  invariant s -> media_files s = mf -> image_interval s = iv ->
  Forall (expected mf iv) (trace s) ->
  step sig s = Ok s' ->
  Forall (expected mf iv) (trace s').
Proof.
  intros Inv Hm Hi H E. unfold step in E.
  destruct (enabled (replay (trace s)) sig) eqn:En;
    [|injection E as <-; exact H].
  unfold enabled in En. apply andb_true_iff in En. destruct En as [Hq _].
  apply negb_true_iff in Hq.
  assert (R : in_range s).
  { destruct (i_running Inv) as [Q|(R & _)]; [congruence | exact R]. }
  assert (H0 : Forall (expected mf iv) (trace (emit (EvDispatch sig) s)))
    by (apply expected_emit; [exact I | exact H]).
  assert (Hm0 : media_files (emit (EvDispatch sig) s) = mf) by exact Hm.
  assert (Hi0 : image_interval (emit (EvDispatch sig) s) = iv) by exact Hi.
  assert (R0 : in_range (emit (EvDispatch sig) s)) by exact R.
  revert H0 Hm0 Hi0 R0 E. generalize (emit (EvDispatch sig) s).
  intros s0 H0 Hm0 Hi0 R0 E.
  destruct sig as [|id|b|b|b percent|b|escape|]; cbn [handle] in E.
  - unfold initialize_media in E.
    destruct (load_current_media (emit EvFocusWindow s0)) as [s1| |] eqn:El;
      cbn [bind] in E; try discriminate.
    injection E as <-. apply expected_emit; [exact I|].
    refine (expected_load_current_media _ _ _ _ El); try assumption.
    apply expected_emit; [exact I | exact H0].
  - destruct (change_media s0) as [s1| |] eqn:El;
      cbn [bind] in E; try discriminate.
    injection E as <-. apply expected_emit; [exact I|].
    apply (expected_change_media Hm0 Hi0 R0 H0 El).
  - apply (expected_change_media Hm0 Hi0 R0 H0 E).
  - unfold on_eos in E. destruct (is_video s0);
      [apply (expected_change_media Hm0 Hi0 R0 H0 E)
      | injection E as <-; exact H0].
  - unfold on_buffering in E. destruct (pipeline s0); [|discriminate].
    destruct (percent <? 100); injection E as <-;
      (apply expected_emit; [exact I | exact H0]).
  - injection E as <-. exact H0.
  - unfold on_key_press in E. injection E as <-. destruct escape;
      [apply expected_destroy |]; exact H0.
  - injection E as <-. apply expected_on_destroy. exact H0.
Qed.

Lemma expected_run (sigs : list signal) (s s' : session) :
  invariant s -> media_files s = mf -> image_interval s = iv ->
  Forall (expected mf iv) (trace s) ->
  run sigs s = Ok s' ->
  Forall (expected mf iv) (trace s').
Proof.
  revert s. induction sigs as [|sig sigs IH]; intros s Inv Hm Hi H E.
  - injection E as <-. exact H.
  - cbn [run] in E.
    destruct (step_invariant sig Inv) as (s1 & E1 & I1 & Hm1 & Hi1 & _).
    rewrite E1 in E. cbn [bind] in E.
    apply (IH s1 I1); try congruence.
    apply (expected_step sig Inv Hm Hi H E1).
Qed.

End Audit.

Section Catalog.

Context {py : PyStr} {engine : MediaEngine}.

(** X7. In every session only files of the catalog are loaded: each
    item is picked at a position inside [media_files] and is the file at
    that position, each pipeline is built for a file of [media_files],
    which is one of the files found, with the description chosen for
    its path, and each timeout lasts the configured interval. *)
Theorem only_catalog_files_loaded (found : list string) (interval : Z)
  (shuffle : bool) (entropy : nat -> nat) (sigs : list signal) :
  exists s,
    run sigs (init found interval shuffle entropy) = Ok s
    /\ media_files s = order_media shuffle entropy found
    /\ (forall i path, In (EvSelect i path) (trace s) ->
          0 <= i < len (media_files s)
          /\ nth_error (media_files s) (Z.to_nat i) = Some path)
    /\ (forall p k path, In (EvConstruct p k path) (trace s) ->
          In path (media_files s) /\ In path found /\ k = chain_of path)
    /\ (forall id seconds, In (EvTimeoutAdd id seconds) (trace s) ->
          seconds = interval).
Proof.
  destruct (run_invariant sigs (init_invariant found interval shuffle entropy))
    as (s & Hrun & Inv & Hm & Hi & _).
  assert (Hm0 : media_files (init found interval shuffle entropy)
                = order_media shuffle entropy found).
  { unfold init. destruct found; [|reflexivity]. destruct shuffle; reflexivity. }
  assert (H : Forall (expected (media_files s) interval) (trace s)).
  { refine (expected_run sigs (init_invariant found interval shuffle entropy)
              _ _ _ Hrun).
    - symmetry. exact Hm.
    - apply init_interval.
    - unfold init. destruct found; repeat constructor. }
  rewrite Forall_forall in H.
  exists s. split; [exact Hrun|]. split; [congruence|].
  split; [|split].
  - intros i path Hin. destruct (H _ Hin) as (R & Hget). split; [exact R|].
    destruct (getitem_in_range (media_files s) R) as (f & Hg & Hn).
    congruence.
  - intros p k path Hin. destruct (H _ Hin) as (Hmf & Hk).
    split; [exact Hmf|]. split; [|exact Hk].
    rewrite Hm, Hm0 in Hmf.
    apply (Permutation_in _ (order_media_perm shuffle entropy found) Hmf).
  - intros id seconds Hin. apply (H _ Hin).
Qed.

(** X8. The pipeline description follows the path alone: an [.avi] path
    (in any letter case) always gets the explicit demux chain and never
    playbin, playbin is used exactly for the other video paths, a
    [.jpg] or [.jpeg] path gets the JPEG chain, every other image the
    decodebin chain; and the one pipeline a [create_pipeline] call builds
    is for the path it was given, with that description and the next
    free identifier. *)
Theorem chain_follows_path (s : session) (media_path : string) :
  (endswith (str_lower media_path) ".avi" = true ->
   chain_of media_path = AviChain)
  /\ (chain_of media_path = Playbin <->
      is_video_file media_path = true
      /\ endswith (str_lower media_path) ".avi" = false)
  /\ (endswith (str_lower media_path) ".jpg" = true
      \/ endswith (str_lower media_path) ".jpeg" = true ->
      chain_of media_path = JpegChain)
  /\ (is_video_file media_path = true <->
      chain_of media_path = AviChain \/ chain_of media_path = Playbin)
  /\ (forall p k path,
        In (EvConstruct p k path) (trace (fst (create_pipeline s media_path))) ->
        In (EvConstruct p k path) (trace s)
        \/ (p = next_object s /\ path = media_path
            /\ k = chain_of media_path)).
Proof.
  split; [|split; [|split; [|split]]].
  - intro H. unfold chain_of.
    assert (Hv : is_video_file media_path = true).
    { apply is_video_file_spec. exists ".avi"%string.
      split; [cbn; tauto | exact H]. }
    rewrite Hv, H. reflexivity.
  - unfold chain_of.
    destruct (is_video_file media_path);
      destruct (endswith (str_lower media_path) ".avi");
      destruct (endswith (str_lower media_path) ".jpg"
                || endswith (str_lower media_path) ".jpeg");
      split; intro H; try discriminate; try (destruct H; discriminate); auto.
  - intro H. unfold chain_of.
    assert (Hv : is_video_file media_path = false).
    { destruct (is_video_file media_path) eqn:E; [|reflexivity].
      apply is_video_file_spec in E. destruct E as (vid & Hvid & E).
      destruct H as [H|H].
      - rewrite (@image_not_video _ ".jpg" vid) in E;
          [discriminate | cbn; tauto | exact Hvid | exact H].
      - rewrite (@image_not_video _ ".jpeg" vid) in E;
          [discriminate | cbn; tauto | exact Hvid | exact H]. }
    rewrite Hv. destruct H as [-> | ->]; [reflexivity|].
    rewrite orb_true_r. reflexivity.
  - unfold chain_of.
    destruct (is_video_file media_path);
      destruct (endswith (str_lower media_path) ".avi");
      destruct (endswith (str_lower media_path) ".jpg"
                || endswith (str_lower media_path) ".jpeg");
      split; intro H; try discriminate; auto;
      destruct H; discriminate.
  - intros p k path.
    pose proof (cleanup_keeps s) as (_ & _ & _ & Hno & _).
    pose proof (trace_cleanup s) as Ht.
    assert (Htd : ~ In (EvConstruct p k path) (teardown_events s)).
    { unfold teardown_events.
      destruct (pipeline s), (timeout_id s), (bus s); cbn;
        intro H; repeat (destruct H as [H|H]; [discriminate|]); exact H. }
    unfold create_pipeline, start_pipeline, chain_of.
    destruct (cleanup_pipeline s) as [m ci i pl bu isv tid no ns t sk].
    cbn in Hno, Ht. subst no t.
    destruct (is_video_file media_path); cbn;
      repeat match goal with
      | |- context [endswith ?a ?b] => destruct (endswith a b); cbn
      | |- context [parse_launch_raises ?a ?b] =>
          destruct (parse_launch_raises a b); cbn
      | |- context [playbin_missing ?a] => destruct (playbin_missing a); cbn
      | |- context [start_fails ?a] => destruct (start_fails a); cbn
      | |- context [timeout_add_raises ?a] =>
          destruct (timeout_add_raises a); cbn
      end;
      rewrite ?in_app_iff; cbn;
      intro H;
      repeat match type of H with
      | _ \/ _ => destruct H as [H|H]
      end;
      try contradiction; try discriminate; auto;
      try (injection H as <- <- <-; right; auto).
Qed.

End Catalog.

(* ================================================================== *)
(** ** Scanning one directory

    What the loop of the non-recursive search collects from one
    directory that [glob.glob] reads: of its entries [names] it keeps
    those that do not start with a dot and end with [.ext] (on POSIX the
    match is case-sensitive), and returns them behind [prefix], the path
    of that directory with its separator.  Which directories are read
    for a given [media_directory] is the matter of [find_media] below. *)

(** [str.upper] on the ASCII patterns of the viewer. *)
Definition ascii_upper_char (c : ascii) : ascii :=
  let n := nat_of_ascii c in
  if ((97 <=? n) && (n <=? 122))%nat then ascii_of_nat (n - 32) else c.

Fixpoint ascii_upper (s : string) : string :=
  match s with
  | EmptyString => EmptyString
  | String c s' => String (ascii_upper_char c) (ascii_upper s')
  end.

(** [image_exts] and [video_exts] of [__init__] *)
Definition image_exts : list string :=
  ["*.jpg"; "*.jpeg"; "*.png"; "*.bmp"; "*.gif"]%string.

Definition video_exts : list string :=
  ["*.mp4"; "*.avi"; "*.mkv"; "*.mov"; "*.webm"; "*.flv"; "*.wmv"; "*.mpg";
   "*.mpeg"]%string.

(** [fnmatch] for a pattern made of a star and literal characters. *)
Definition matches (pattern name : string) : bool :=
  match pattern with
  | String "*" rest => endswith name rest
  | _ => String.eqb pattern name
  end.

(** A name the star does not match: it starts with a dot. *)
Definition hidden (name : string) : bool :=
  match name with
  | String "." _ => true
  | _ => false
  end.

(** The paths one pattern finds among the entries [names] of a
    directory. *)
Definition glob (prefix : string) (names : list string) (pattern : string)
  : list string :=
  map (String.append prefix)
      (filter (fun name => negb (hidden name) && matches pattern name) names).

(** The loop "for ext in image_exts + video_exts" of the non-recursive
    search, over one directory. *)
Definition scan (prefix : string) (names : list string) : list string :=
  flat_map (fun ext => glob prefix names ext
                       ++ glob prefix names (ascii_upper ext))
           (image_exts ++ video_exts).

(** Every pattern the search uses, in the order it uses them. *)
Definition all_patterns : list string :=
  flat_map (fun ext => [ext; ascii_upper ext]) (image_exts ++ video_exts).

Lemma scan_by_pattern (prefix : string) (names : list string) :
  scan prefix names = flat_map (glob prefix names) all_patterns.
Proof.
  unfold scan, all_patterns.
  induction (image_exts ++ video_exts) as [|e l IH]; [reflexivity|].
  cbn [flat_map]. rewrite IH, flat_map_app. cbn [flat_map].
  rewrite app_nil_r, <- app_assoc. reflexivity.
Qed.

Lemma append_injective (prefix a b : string) :
  (prefix ++ a)%string = (prefix ++ b)%string -> a = b.
Proof.
  induction prefix as [|c prefix IH]; cbn; intro H; [exact H|].
  injection H as H. apply IH. exact H.
Qed.

Lemma in_glob (prefix : string) (names : list string) (pattern path : string) :
  In path (glob prefix names pattern) <->
  exists name, In name names /\ path = (prefix ++ name)%string
               /\ hidden name = false /\ matches pattern name = true.
Proof.
  unfold glob. rewrite in_map_iff. split.
  - intros (name & <- & H). apply filter_In in H. destruct H as (Hin & H).
    apply andb_true_iff in H. destruct H as (Hh & Hm).
    apply negb_true_iff in Hh. exists name. auto.
  - intros (name & Hin & -> & Hh & Hm). exists name. split; [reflexivity|].
    apply filter_In. split; [exact Hin|]. rewrite Hh, Hm. reflexivity.
Qed.

(** A name matches at most one of the patterns. *)
Lemma one_pattern_per_name (name p q : string) :
  In p all_patterns -> In q all_patterns ->
  matches p name = true -> matches q name = true -> p = q.
Proof.
  intros Hp Hq Mp Mq.
  assert (L : all_patterns
              = ["*.jpg"; "*.JPG"; "*.jpeg"; "*.JPEG"; "*.png"; "*.PNG";
                 "*.bmp"; "*.BMP"; "*.gif"; "*.GIF"; "*.mp4"; "*.MP4";
                 "*.avi"; "*.AVI"; "*.mkv"; "*.MKV"; "*.mov"; "*.MOV";
                 "*.webm"; "*.WEBM"; "*.flv"; "*.FLV"; "*.wmv"; "*.WMV";
                 "*.mpg"; "*.MPG"; "*.mpeg"; "*.MPEG"]%string)
    by reflexivity.
  rewrite L in Hp, Hq. clear L. cbn [In] in Hp, Hq.
  repeat (destruct Hp as [<-|Hp]; [|]); try contradiction;
    cbn [matches] in Mp; apply endswith_spec in Mp; destruct Mp as (p1 & ->);
    repeat (destruct Hq as [<-|Hq]; [|]); try contradiction;
    try reflexivity;
    cbn [matches] in Mq; apply endswith_spec in Mq; destruct Mq as (p2 & Mq);
    apply suffixes_agree in Mq; cbn in Mq; discriminate Mq.
Qed.

Lemma all_patterns_nodup : NoDup all_patterns.
Proof.
  assert (D : forall l : list string,
            (fix distinct (l : list string) : bool :=
               match l with
               | [] => true
               | x :: l' => negb (existsb (String.eqb x) l') && distinct l'
               end) l = true -> NoDup l).
  { induction l as [|x l IH]; intro H; constructor.
    - apply andb_true_iff in H. destruct H as (H & _).
      apply negb_true_iff in H. intro Hin.
      assert (existsb (String.eqb x) l = true)
        by (apply existsb_exists; exists x; split;
            [exact Hin | apply String.eqb_refl]).
      congruence.
    - apply IH. apply andb_true_iff in H. apply H. }
  apply D. vm_compute. reflexivity.
Qed.

Lemma glob_nodup (prefix : string) (names : list string) (pattern : string) :
  NoDup names -> NoDup (glob prefix names pattern).
Proof.
  intro H. unfold glob. apply NoDup_map_NoDup_ForallPairs.
  - intros a b _ _ E. apply append_injective in E. exact E.
  - apply NoDup_filter. exact H.
Qed.

Lemma flat_map_nodup {A B} (f : A -> list B) (l : list A) :
  NoDup l -> (forall x, In x l -> NoDup (f x)) ->
  (forall x y b, In x l -> In y l -> In b (f x) -> In b (f y) -> x = y) ->
  NoDup (flat_map f l).
Proof.
  induction l as [|x l IH]; intros Hl Hf Hd; [constructor|].
  cbn [flat_map]. apply NoDup_app.
  - apply Hf. left. reflexivity.
  - apply IH.
    + inversion Hl. assumption.
    + intros y Hy. apply Hf. right. exact Hy.
    + intros y z b Hy Hz. apply Hd; right; assumption.
  - intros b Hb Hb'. apply in_flat_map in Hb'. destruct Hb' as (y & Hy & Hby).
    assert (x = y) by (apply (Hd x y b); [left; reflexivity | right; exact Hy
                                          | exact Hb | exact Hby]).
    subst y. inversion Hl. contradiction.
Qed.

(** In one directory, a path is found exactly when it is the path of an
    entry whose name does not start with a dot and ends with one of the
    fourteen extensions written all in lower case or all in upper case. *)
Lemma in_scan (prefix : string) (names : list string) (path : string) :
  In path (scan prefix names) <->
  exists name ext,
    In name names /\ path = (prefix ++ name)%string
    /\ hidden name = false
    /\ In ext (image_extensions ++ video_extensions)
    /\ (endswith name ext = true \/ endswith name (ascii_upper ext) = true).
Proof.
  unfold scan. rewrite in_flat_map. split.
  - intros (pat & Hpat & H). apply in_app_or in H.
    assert (Hext : exists ext, In ext (image_extensions ++ video_extensions)
                               /\ pat = String "*" ext).
    { cbn in Hpat.
      repeat (destruct Hpat as [<-|Hpat];
              [eexists; split; [|reflexivity]; cbn; tauto|]).
      contradiction. }
    destruct Hext as (ext & Hin & ->).
    destruct H as [H|H]; apply in_glob in H;
      destruct H as (name & Hn & Hp & Hh & Hm); exists name, ext;
      (split; [exact Hn|]; split; [exact Hp|]; split; [exact Hh|];
       split; [exact Hin|]).
    + left. exact Hm.
    + right. exact Hm.
  - intros (name & ext & Hn & Hp & Hh & Hin & Hm).
    exists (String "*" ext). split.
    + cbn in Hin |- *.
      repeat (destruct Hin as [<-|Hin]; [tauto|]). contradiction.
    + apply in_or_app. destruct Hm as [Hm|Hm]; [left | right];
        apply in_glob; exists name; auto.
Qed.

(** Each entry matches at most one of the twenty-eight patterns, so
    distinct entries give a list without duplicates, no longer than the
    directory. *)
Lemma scan_nodup (prefix : string) (names : list string)
  (Hnames : NoDup names) :
  NoDup (scan prefix names)
  /\ (List.length (scan prefix names) <= List.length names)%nat
  /\ forall shuffle entropy,
       NoDup (order_media shuffle entropy (scan prefix names)).
Proof.
  assert (Hnd : NoDup (scan prefix names)).
  { rewrite scan_by_pattern. apply flat_map_nodup.
    - apply all_patterns_nodup.
    - intros p _. apply glob_nodup. exact Hnames.
    - intros p q path Hp Hq Hpp Hqp.
      apply in_glob in Hpp. destruct Hpp as (n1 & _ & -> & _ & M1).
      apply in_glob in Hqp. destruct Hqp as (n2 & _ & E & _ & M2).
      apply append_injective in E. subst n2.
      apply (one_pattern_per_name n1 Hp Hq M1 M2). }
  split; [exact Hnd|]. split.
  - assert (Hincl : incl (scan prefix names) (map (String.append prefix) names)).
    { intros path H. apply in_scan in H.
      destruct H as (name & _ & Hn & -> & _). apply in_map. exact Hn. }
    rewrite <- (length_map (String.append prefix) names).
    apply NoDup_incl_length; assumption.
  - intros shuffle entropy.
    apply (Permutation_NoDup
             (Permutation_sym (order_media_perm shuffle entropy _))).
    exact Hnd.
Qed.

Lemma ascii_lower_app (a b : string) :
  ascii_lower (a ++ b) = (ascii_lower a ++ ascii_lower b)%string.
Proof. induction a as [|c a IH]; cbn; [reflexivity | rewrite IH; reflexivity]. Qed.

Lemma string_app_assoc (a b c : string) :
  ((a ++ b) ++ c)%string = (a ++ (b ++ c))%string.
Proof. induction a as [|x a IH]; cbn; [reflexivity | rewrite IH; reflexivity]. Qed.

Lemma lower_suffix (name e ext : string) :
  ascii_lower e = ext -> endswith name e = true ->
  forall prefix, endswith (ascii_lower (prefix ++ name)) ext = true.
Proof.
  intros He H prefix. apply endswith_spec in H. destruct H as (pre & ->).
  apply endswith_spec. exists (ascii_lower (prefix ++ pre)).
  rewrite <- string_app_assoc, ascii_lower_app, He. reflexivity.
Qed.

(** X11. On ASCII paths the search and the classification agree: a
    path the search found is a video for [is_video_file] exactly when a
    video pattern found it, and an image when an image pattern did. *)
Theorem scan_agrees_with_kind (prefix : string) (names : list string)
  (path : string) (Hfound : In path (scan prefix names)) :
  (is_video_file (py := AsciiStr) path = true <->
   exists name ext,
     path = (prefix ++ name)%string /\ In ext video_extensions
     /\ (endswith name ext = true \/ endswith name (ascii_upper ext) = true))
  /\ (kind_of (py := AsciiStr) path = Image <->
      exists name ext,
        path = (prefix ++ name)%string /\ In ext image_extensions
        /\ (endswith name ext = true
            \/ endswith name (ascii_upper ext) = true)).
Proof.
  assert (Hlow : forall name ext e,
            In ext (image_extensions ++ video_extensions) ->
            e = ext \/ e = ascii_upper ext ->
            endswith name e = true ->
            endswith (ascii_lower (prefix ++ name)) ext = true).
  { intros name ext e Hin He Hm. apply (@lower_suffix name e ext); [|exact Hm].
    cbn in Hin.
    repeat (destruct Hin as [<-|Hin];
            [destruct He as [-> | ->]; reflexivity|]).
    contradiction. }
  assert (Hvid : forall name ext e,
            In ext video_extensions -> e = ext \/ e = ascii_upper ext ->
            endswith name e = true ->
            is_video_file (py := AsciiStr) (prefix ++ name) = true).
  { intros name ext e Hin He Hm. apply is_video_file_spec. exists ext.
    split; [exact Hin|].
    apply (Hlow name ext e); [apply in_or_app; right; exact Hin | exact He
                              | exact Hm]. }
  assert (Himg : forall name ext e,
            In ext image_extensions -> e = ext \/ e = ascii_upper ext ->
            endswith name e = true ->
            is_video_file (py := AsciiStr) (prefix ++ name) = false).
  { intros name ext e Hin He Hm.
    destruct (is_video_file (py := AsciiStr) (prefix ++ name)) eqn:E;
      [|reflexivity].
    apply is_video_file_spec in E. destruct E as (vid & Hv & E).
    rewrite (@image_not_video _ ext vid) in E;
      [discriminate | exact Hin | exact Hv |].
    apply (Hlow name ext e); [apply in_or_app; left; exact Hin | exact He
                              | exact Hm]. }
  apply in_scan in Hfound.
  destruct Hfound as (name & ext & _ & -> & _ & Hin & Hm).
  apply in_app_or in Hin.
  assert (He : exists e, (e = ext \/ e = ascii_upper ext)
                         /\ endswith name e = true).
  { destruct Hm as [Hm|Hm]; eexists; split; try exact Hm; auto. }
  destruct He as (e & He & Hme).
  unfold kind_of. destruct Hin as [Hin|Hin].
  - rewrite (Himg name ext e Hin He Hme). split; split.
    + discriminate.
    + intros (n' & ext' & E & Hin' & Hm').
      apply append_injective in E. subst n'.
      rewrite <- (Himg name ext e Hin He Hme).
      destruct Hm' as [Hm'|Hm'];
        [apply (Hvid name ext' ext') | apply (Hvid name ext' (ascii_upper ext'))];
        auto.
    + intros _. exists name, ext. auto.
    + reflexivity.
  - rewrite (Hvid name ext e Hin He Hme). split; split.
    + intros _. exists name, ext. auto.
    + reflexivity.
    + discriminate.
    + intros (n' & ext' & E & Hin' & Hm').
      apply append_injective in E. subst n'.
      assert (F : is_video_file (py := AsciiStr) (prefix ++ name) = false).
      { destruct Hm' as [Hm'|Hm'];
          [apply (Himg name ext' ext') | apply (Himg name ext' (ascii_upper ext'))];
          auto. }
      rewrite (Hvid name ext e Hin He Hme) in F. discriminate.
Qed.

(** Spellings the search finds and misses in one directory. *)
Example scan_directory :
  scan "/media/" ["b.MP4"; "notes.txt"; ".hidden.jpg"; "a.jpg"; "c.Png";
                  "d.jpeg"; "e.mpeg"]%string
  = ["/media/a.jpg"; "/media/d.jpeg"; "/media/b.MP4"; "/media/e.mpeg"]%string.
Proof. vm_compute. reflexivity. Qed.

(* ================================================================== *)
(** ** The search for media files

    The non-recursive search of [__init__], lines 77 to 82:
    [glob.glob(os.path.join(media_directory, ext))] for each pattern and
    its upper-case form.  [glob.glob] splits the pattern into a
    directory part and a last component.  A directory part with a
    pattern character is itself a pattern, and every directory it
    matches is read; otherwise the one directory is read.  The entries
    whose names match the last component are returned, each joined to
    the directory it was found in. *)

(** What the file system answers. *)
Class FileSystem := {
  (** the names of the entries of a directory, in the order
      [os.scandir] gives them; none when it cannot be read; the empty
      path is the current directory *)
  listdir : string -> list string;
  (** the directories a directory pattern matches (the search of
      [glob] for the directory part) *)
  expand : string -> list string
}.

(** [glob.has_magic]: one of the characters of a pattern occurs. *)
Definition has_magic (s : string) : bool :=
  existsb (fun c => Ascii.eqb c "*" || Ascii.eqb c "?" || Ascii.eqb c "[")
          (list_ascii_of_string s).

Definition starts_with_slash (s : string) : bool :=
  match s with
  | String "/" _ => true
  | _ => false
  end.

Fixpoint contains_slash (s : string) : bool :=
  match s with
  | EmptyString => false
  | String c r => Ascii.eqb c "/" || contains_slash r
  end.

Fixpoint all_slashes (s : string) : bool :=
  match s with
  | EmptyString => true
  | String c r => Ascii.eqb c "/" && all_slashes r
  end.

(** [s.rstrip('/')] *)
Fixpoint rstrip_slashes (s : string) : string :=
  match s with
  | EmptyString => EmptyString
  | String c r => if all_slashes s then EmptyString
                  else String c (rstrip_slashes r)
  end.

(** [os.path.join(a, b)] *)
Definition join (a b : string) : string :=
  if starts_with_slash b then b
  else if String.eqb a "" || endswith a "/" then (a ++ b)%string
  else (a ++ "/" ++ b)%string.

(** [os.path.split(p)]: [p] up to its last slash, without trailing
    slashes unless it is made of slashes only, and what follows the last
    slash. *)
Fixpoint head_to_last_slash (p : string) : string :=
  match p with
  | EmptyString => EmptyString
  | String c r => if contains_slash p then String c (head_to_last_slash r)
                  else EmptyString
  end.

Definition dirname (p : string) : string :=
  let head := head_to_last_slash p in
  if all_slashes head then head else rstrip_slashes head.

Fixpoint basename (p : string) : string :=
  match p with
  | EmptyString => EmptyString
  | String c r => if contains_slash p then basename r else p
  end.

(** [glob._glob1]: the names of a directory that match a pattern; the
    names that start with a dot are left out unless the pattern does. *)
Definition glob1 (names : list string) (pattern : string) : list string :=
  filter (matches pattern)
         (if hidden pattern then names
          else filter (fun x => negb (hidden x)) names).

Section Search.

Context {fs : FileSystem}.

(** [glob.glob(pathname)] for a pattern whose last component has a
    pattern character, as those of the viewer have. *)
Definition glob_glob (pathname : string) : list string :=
  if String.eqb (dirname pathname) ""
  then glob1 (listdir "") (basename pathname)
  else
    let dirs := if negb (String.eqb (dirname pathname) pathname)
                   && has_magic (dirname pathname)
                then expand (dirname pathname)
                else [dirname pathname] in
    flat_map (fun d => map (join d) (glob1 (listdir d) (basename pathname)))
             dirs.

(** "Get list of media files", not recursive. *)
Definition find_media (media_directory : string) : list string :=
  flat_map (fun ext => glob_glob (join media_directory ext)
                       ++ glob_glob (join media_directory (ascii_upper ext)))
           (image_exts ++ video_exts).

(** The directory part of the patterns of the search. *)
Definition pattern_directory (media_directory : string) : string :=
  dirname (join media_directory "*").

(** The directories the search reads. *)
Definition searched (media_directory : string) : list string :=
  if String.eqb (pattern_directory media_directory) "" then [""%string]
  else if has_magic (pattern_directory media_directory)
       then expand (pattern_directory media_directory)
       else [pattern_directory media_directory].

Lemma append_empty (a : string) : (a ++ "")%string = a.
Proof. induction a as [|c a IH]; cbn; [reflexivity|]. f_equal. exact IH. Qed.

Lemma join_prefix (a b : string) :
  starts_with_slash b = false -> join a b = (join a "" ++ b)%string.
Proof.
  intro H. unfold join. rewrite H. cbn [starts_with_slash].
  destruct (String.eqb a "" || endswith a "/").
  - rewrite append_empty. reflexivity.
  - cbn [append]. rewrite string_app_assoc. reflexivity.
Qed.

(** The directory with its separator: empty, or ending with a slash. *)
Lemma join_shape (a : string) :
  join a "" = ""%string \/ exists a', join a "" = (a' ++ "/")%string.
Proof.
  unfold join. cbn [starts_with_slash].
  destruct (String.eqb a "") eqn:E; cbn [orb].
  - apply String.eqb_eq in E. subst. left. reflexivity.
  - destruct (endswith a "/") eqn:F.
    + right. apply endswith_spec in F. destruct F as (a' & ->).
      exists a'. apply append_empty.
    + right. exists a. reflexivity.
Qed.

Lemma slash_free_start (b : string) :
  contains_slash b = false -> starts_with_slash b = false.
Proof.
  destruct b as [|c b]; [reflexivity|]. cbn.
  intro H. apply orb_false_iff in H. destruct H as [H _].
  destruct c as [[] [] [] [] [] [] [] []]; try reflexivity; discriminate H.
Qed.

Lemma contains_slash_app (a b : string) :
  contains_slash (a ++ b) = contains_slash a || contains_slash b.
Proof.
  induction a as [|c a IH]; cbn; [reflexivity|].
  rewrite IH. apply orb_assoc.
Qed.

Lemma split_slash_free (b : string) :
  contains_slash b = false ->
  head_to_last_slash b = ""%string /\ basename b = b.
Proof.
  intro H. destruct b as [|c b]; [split; reflexivity|].
  cbn [head_to_last_slash basename]. rewrite H. split; reflexivity.
Qed.

Lemma contains_slash_mid (a b : string) :
  contains_slash (a ++ String "/" b) = true.
Proof.
  induction a as [|c a IH]; [reflexivity|].
  cbn [append contains_slash]. rewrite IH. apply orb_true_r.
Qed.

Lemma split_after_slash (a b : string) :
  contains_slash b = false ->
  head_to_last_slash (a ++ String "/" b) = (a ++ "/")%string
  /\ basename (a ++ String "/" b) = b.
Proof.
  intro H. induction a as [|c a IH].
  - cbn. destruct (@split_slash_free b H) as (-> & ->). split; reflexivity.
  - cbn [append]. unfold head_to_last_slash, basename.
    fold head_to_last_slash. fold basename.
    assert (E : contains_slash (String c (a ++ String "/" b)) = true)
      by exact (contains_slash_mid (String c a) b).
    rewrite E.
    destruct IH as (-> & ->). split; reflexivity.
Qed.

Lemma split_join (media_directory pattern : string) :
  contains_slash pattern = false ->
  head_to_last_slash (join media_directory pattern) = join media_directory ""
  /\ basename (join media_directory pattern) = pattern.
Proof.
  intro H. rewrite (@join_prefix media_directory pattern (@slash_free_start pattern H)).
  destruct (join_shape media_directory) as [->|(a & ->)].
  - apply (@split_slash_free pattern H).
  - rewrite string_app_assoc. apply (@split_after_slash a pattern H).
Qed.

Lemma dirname_join (media_directory pattern : string) :
  contains_slash pattern = false ->
  dirname (join media_directory pattern) = pattern_directory media_directory.
Proof.
  intro H. unfold pattern_directory, dirname.
  destruct (@split_join media_directory pattern H) as (-> & _).
  destruct (@split_join media_directory "*" eq_refl) as (-> & _).
  reflexivity.
Qed.

Lemma rstrip_length (s : string) :
  (String.length (rstrip_slashes s) <= String.length s)%nat.
Proof.
  induction s as [|c s IH]; [apply Nat.le_refl|].
  cbn [rstrip_slashes]. destruct (all_slashes (String c s)); cbn; lia.
Qed.

(** The directory part is shorter than the pattern. *)
Lemma dirname_differs (media_directory pattern : string) :
  contains_slash pattern = false -> pattern <> ""%string ->
  String.eqb (dirname (join media_directory pattern))
             (join media_directory pattern) = false.
Proof.
  intros H Hne. apply String.eqb_neq. intro E.
  apply (f_equal String.length) in E. revert E.
  unfold dirname. destruct (@split_join media_directory pattern H) as (-> & _).
  rewrite (@join_prefix media_directory pattern (@slash_free_start pattern H)), string_length_app.
  assert (0 < String.length pattern)%nat
    by (destruct pattern; [contradiction | cbn; lia]).
  pose proof (rstrip_length (join media_directory "")).
  destruct (all_slashes (join media_directory "")); lia.
Qed.

Lemma join_empty (b : string) : join "" b = b.
Proof. unfold join. destruct (starts_with_slash b); reflexivity. Qed.

(** What one pattern of the viewer finds. *)
Lemma glob_glob_pattern (media_directory pattern : string) :
  contains_slash pattern = false -> pattern <> ""%string ->
  glob_glob (join media_directory pattern)
  = flat_map (fun d => map (join d) (glob1 (listdir d) pattern))
             (searched media_directory).
Proof.
  intros H Hne. unfold glob_glob, searched.
  rewrite (@dirname_differs media_directory pattern H Hne).
  rewrite (@dirname_join media_directory pattern H).
  destruct (@split_join media_directory pattern H) as (_ & ->).
  destruct (String.eqb (pattern_directory media_directory) "").
  - cbn [flat_map]. rewrite app_nil_r.
    rewrite (map_ext _ (fun x => x) join_empty), map_id. reflexivity.
  - reflexivity.
Qed.

Lemma in_glob1 (names : list string) (pattern name : string) :
  hidden pattern = false ->
  In name (glob1 names pattern) <->
  In name names /\ hidden name = false /\ matches pattern name = true.
Proof.
  intro Hp. unfold glob1. rewrite Hp, !filter_In, negb_true_iff. tauto.
Qed.

(** The patterns of the viewer: a star and an extension. *)
Lemma pattern_shape (pattern : string) :
  In pattern all_patterns ->
  contains_slash pattern = false /\ pattern <> ""%string
  /\ hidden pattern = false
  /\ exists ext, In ext (image_extensions ++ video_extensions)
                 /\ (pattern = String "*" ext
                     \/ pattern = String "*" (ascii_upper ext)).
Proof.
  intro H. unfold all_patterns in H. apply in_flat_map in H.
  destruct H as (e & He & Hp). cbn in He.
  repeat (destruct He as [<-|He];
          [lazymatch type of Hp with
           | In _ [String _ ?x; _] =>
               destruct Hp as [<-|[<-|[]]];
               (split; [reflexivity|]; split; [discriminate|];
                split; [reflexivity|]; exists x; split; [cbn; tauto|]);
               [left; reflexivity | right; reflexivity]
           end|]).
  contradiction.
Qed.

Lemma find_media_by_pattern (media_directory : string) :
  find_media media_directory
  = flat_map (fun pattern => glob_glob (join media_directory pattern))
             all_patterns.
Proof.
  unfold find_media, all_patterns.
  induction (image_exts ++ video_exts) as [|e l IH]; [reflexivity|].
  cbn [flat_map]. rewrite IH, flat_map_app. cbn [flat_map].
  rewrite app_nil_r, <- app_assoc. reflexivity.
Qed.

(** X9. The non-recursive search finds a path exactly when it is an
    entry of one of the directories searched, joined to that directory,
    whose name does not start with a dot and ends with one of the
    fourteen extensions written all in lower case or all in upper case.
    The directory searched is [media_directory] without its trailing
    slashes; when it contains [*], [?] or [[] it is read as a pattern,
    and the directories searched are those it matches. *)
Theorem search_finds (media_directory path : string) :
  In path (find_media media_directory) <->
  exists d name ext,
    In d (searched media_directory)
    /\ In name (listdir d) /\ path = join d name
    /\ hidden name = false
    /\ In ext (image_extensions ++ video_extensions)
    /\ (endswith name ext = true \/ endswith name (ascii_upper ext) = true).
Proof.
  rewrite find_media_by_pattern, in_flat_map. split.
  - intros (pattern & Hpat & H).
    destruct (@pattern_shape pattern Hpat) as (Hs & Hne & Hh & ext & Hext & Hshape).
    rewrite (@glob_glob_pattern media_directory pattern Hs Hne) in H.
    apply in_flat_map in H. destruct H as (d & Hd & H).
    apply in_map_iff in H. destruct H as (name & <- & H).
    apply (@in_glob1 _ pattern _ Hh) in H. destruct H as (Hn & Hhn & Hm).
    exists d, name, ext.
    split; [exact Hd|]. split; [exact Hn|]. split; [reflexivity|].
    split; [exact Hhn|]. split; [exact Hext|].
    destruct Hshape as [-> | ->]; [left | right]; exact Hm.
  - intros (d & name & ext & Hd & Hn & -> & Hhn & Hext & Hm).
    assert (Hpat : exists pattern,
               In pattern all_patterns /\ matches pattern name = true).
    { destruct Hm as [Hm|Hm];
        [exists (String "*" ext) | exists (String "*" (ascii_upper ext))];
        (split; [|exact Hm]); cbn in Hext;
        repeat (destruct Hext as [<-|Hext]; [cbn; tauto|]);
        contradiction. }
    destruct Hpat as (pattern & Hpat & Hmp).
    exists pattern. split; [exact Hpat|].
    destruct (@pattern_shape pattern Hpat) as (Hs & Hne & Hh & _).
    rewrite (@glob_glob_pattern media_directory pattern Hs Hne).
    apply in_flat_map. exists d. split; [exact Hd|].
    apply in_map. apply (@in_glob1 _ pattern _ Hh). auto.
Qed.

Lemma flat_map_ext_in {A B} (f g : A -> list B) (l : list A) :
  (forall x, In x l -> f x = g x) -> flat_map f l = flat_map g l.
Proof.
  induction l as [|x l IH]; intro H; [reflexivity|].
  cbn [flat_map]. rewrite (H x (or_introl eq_refl)). f_equal.
  apply IH. intros y Hy. apply H. now right.
Qed.

(** When one directory is read, the search is the scan of that
    directory. *)
Lemma find_media_one_directory (media_directory : string) :
  has_magic (pattern_directory media_directory) = false ->
  (forall name, In name (listdir (pattern_directory media_directory)) ->
                starts_with_slash name = false) ->
  find_media media_directory
  = scan (join (pattern_directory media_directory) "")
         (listdir (pattern_directory media_directory)).
Proof.
  intros Hmagic Hnames.
  rewrite find_media_by_pattern, scan_by_pattern.
  apply flat_map_ext_in. intros pattern Hpat.
  destruct (@pattern_shape pattern Hpat) as (Hs & Hne & Hh & _).
  rewrite (@glob_glob_pattern media_directory pattern Hs Hne).
  assert (E : searched media_directory = [pattern_directory media_directory]).
  { unfold searched. rewrite Hmagic.
    destruct (String.eqb (pattern_directory media_directory) "") eqn:E0;
      [|reflexivity].
    apply String.eqb_eq in E0. rewrite E0. reflexivity. }
  rewrite E. cbn [flat_map]. rewrite app_nil_r.
  unfold glob, glob1. rewrite Hh.
  set (names := listdir (pattern_directory media_directory)) in *.
  assert (F : filter (matches pattern)
                (filter (fun x => negb (hidden x)) names)
              = filter (fun name => negb (hidden name) && matches pattern name)
                       names).
  { induction names as [|n names IH]; [reflexivity|]. cbn [filter].
    destruct (hidden n); cbn [negb andb].
    - apply IH. intros x Hx. apply Hnames. now right.
    - cbn [filter]. destruct (matches pattern n);
        [f_equal|]; apply IH; intros x Hx; apply Hnames; now right. }
  rewrite F. apply map_ext_in. intros name Hin.
  apply filter_In in Hin. destruct Hin as [Hin _].
  apply join_prefix. apply Hnames. exact Hin.
Qed.

(** X10. When [media_directory] has no pattern character, the
    non-recursive search returns no path twice: the one directory is
    read, and each of its entries matches at most one of the
    twenty-eight patterns, so the list has no duplicates and is no
    longer than the directory, and so is the ordered catalog of the
    viewer. *)
Theorem search_finds_each_file_once (media_directory : string)
  (Hliteral : has_magic (pattern_directory media_directory) = false)
  (Hnames : NoDup (listdir (pattern_directory media_directory)))
  (Hentries : forall name,
      In name (listdir (pattern_directory media_directory)) ->
      starts_with_slash name = false) :
  searched media_directory = [pattern_directory media_directory]
  /\ NoDup (find_media media_directory)
  /\ (List.length (find_media media_directory)
      <= List.length (listdir (pattern_directory media_directory)))%nat
  /\ forall shuffle entropy,
       NoDup (order_media shuffle entropy (find_media media_directory)).
Proof.
  split.
  - unfold searched. rewrite Hliteral.
    destruct (String.eqb (pattern_directory media_directory) "") eqn:E0;
      [|reflexivity].
    apply String.eqb_eq in E0. rewrite E0. reflexivity.
  - rewrite (@find_media_one_directory media_directory Hliteral Hentries).
    apply scan_nodup. exact Hnames.
Qed.

End Search.

(* ================================================================== *)
(** ** The cursor and the stacking of the window

    The attributes and callbacks of the viewer that hide the pointer and
    bring the window to the front.  They share nothing with the playback
    attributes but [ensure_window_focused], which the loading code
    calls. *)

Module Chrome.

(** The two callbacks given to [GLib.timeout_add]. *)
Inductive callback := HideCursor | ResetKeepAbove.

Record state := {
  blank_cursor : bool;                     (* self.blank_cursor is set *)
  has_window : bool;                       (* self.get_window() is not None *)
  cursor_hide_timeout : option positive;
  cursor_blank : bool;                     (* the window shows the blank cursor *)
  keep_above : bool;                       (* set_keep_above *)
  sources : list (positive * callback);    (* attached timeouts *)
  next_id : positive
}.

(** The viewer after the attribute initialisation of [__init__]. *)
Definition initial : state :=
  {| blank_cursor := false; has_window := false;
     cursor_hide_timeout := None; cursor_blank := false;
     keep_above := false; sources := []; next_id := 1 |}.

(** [GLib.source_remove(id)] *)
Definition source_remove (id : positive)
  (l : list (positive * callback)) : list (positive * callback) :=
  filter (fun x => negb (Pos.eqb (fst x) id)) l.

(** [hide_cursor] *)
Definition hide_cursor (c : state) : state :=
  {| blank_cursor := blank_cursor c; has_window := has_window c;
     cursor_hide_timeout := None;
     cursor_blank := if blank_cursor c && has_window c
                     then true else cursor_blank c;
     keep_above := keep_above c; sources := sources c;
     next_id := next_id c |}.

(** [show_cursor] *)
Definition show_cursor (c : state) : state :=
  {| blank_cursor := blank_cursor c; has_window := has_window c;
     cursor_hide_timeout := Some (next_id c);
     cursor_blank := if has_window c then false else cursor_blank c;
     keep_above := keep_above c;
     sources := (next_id c, HideCursor)
                :: match cursor_hide_timeout c with
                   | Some id => source_remove id (sources c)
                   | None => sources c
                   end;
     next_id := Pos.succ (next_id c) |}.

(** [on_mouse_move] *)
Definition on_mouse_move (c : state) : state := show_cursor c.

(** [on_realize]: the window exists when GTK emits "realize". *)
Definition on_realize (c : state) : state :=
  hide_cursor
    {| blank_cursor := true; has_window := true;
       cursor_hide_timeout := cursor_hide_timeout c;
       cursor_blank := cursor_blank c; keep_above := keep_above c;
       sources := sources c; next_id := next_id c |}.

(** [reset_keep_above], the local function of [ensure_window_focused] *)
Definition reset_keep_above (c : state) : state :=
  {| blank_cursor := blank_cursor c; has_window := has_window c;
     cursor_hide_timeout := cursor_hide_timeout c;
     cursor_blank := cursor_blank c; keep_above := false;
     sources := sources c; next_id := next_id c |}.

(** [ensure_window_focused] *)
Definition ensure_window_focused (c : state) : state :=
  let c' := {| blank_cursor := blank_cursor c; has_window := has_window c;
               cursor_hide_timeout := cursor_hide_timeout c;
               cursor_blank := cursor_blank c; keep_above := true;
               sources := (next_id c, ResetKeepAbove) :: sources c;
               next_id := Pos.succ (next_id c) |} in
  if blank_cursor c' then hide_cursor c' else c'.

(** The part of [on_destroy] on the cursor timeout. *)
Definition on_destroy (c : state) : state :=
  match cursor_hide_timeout c with
  | Some id =>
      {| blank_cursor := blank_cursor c; has_window := has_window c;
         cursor_hide_timeout := cursor_hide_timeout c;
         cursor_blank := cursor_blank c; keep_above := keep_above c;
         sources := source_remove id (sources c); next_id := next_id c |}
  | None => c
  end.

(** The main loop runs the callback of an attached timeout; the callback
    returns [False], so the timeout is then removed. *)
Definition fire (id : positive) (c : state) : state :=
  match find (fun x => Pos.eqb (fst x) id) (sources c) with
  | Some (_, cb) =>
      let c' := match cb with
                | HideCursor => hide_cursor c
                | ResetKeepAbove => reset_keep_above c
                end in
      {| blank_cursor := blank_cursor c'; has_window := has_window c';
         cursor_hide_timeout := cursor_hide_timeout c';
         cursor_blank := cursor_blank c'; keep_above := keep_above c';
         sources := source_remove id (sources c'); next_id := next_id c' |}
  | None => c
  end.

Inductive signal :=
| Realize                       (* "realize" *)
| MouseMove                     (* "motion-notify-event" *)
| Focus                         (* ensure_window_focused() *)
| Fire (id : positive).         (* a timeout is due *)

Definition step (sig : signal) (c : state) : state :=
  match sig with
  | Realize => on_realize c
  | MouseMove => on_mouse_move c
  | Focus => ensure_window_focused c
  | Fire id => fire id c
  end.

Definition run (sigs : list signal) (c : state) : state :=
  fold_left (fun c sig => step sig c) sigs c.

(** The identifiers of the attached timeouts of one callback. *)
Definition pending (cb : callback) (c : state) : list positive :=
  map fst (filter (fun x => match snd x, cb with
                            | HideCursor, HideCursor => true
                            | ResetKeepAbove, ResetKeepAbove => true
                            | _, _ => false
                            end) (sources c)).

(** Identifiers are distinct and were handed out; the cursor attribute
    names an attached [hide_cursor] timeout; a window kept above has a
    [reset_keep_above] timeout attached. *)
Record well_formed (c : state) : Prop := {
  wf_distinct : NoDup (map fst (sources c));
  wf_issued : forall id cb, In (id, cb) (sources c) ->
                            (id < next_id c)%positive;
  wf_cursor : forall id, cursor_hide_timeout c = Some id ->
                         In (id, HideCursor) (sources c);
  wf_above : keep_above c = true ->
             exists id, In (id, ResetKeepAbove) (sources c)
}.

(** The cursor attribute names every attached [hide_cursor] timeout. *)
Definition tracked (c : state) : Prop :=
  pending HideCursor c = opt_list (cursor_hide_timeout c).

End Chrome.

Section ChromeFacts.

Import Chrome.

Lemma source_remove_in (id : positive) (l : list (positive * callback))
  (x : positive * callback) :
  In x (source_remove id l) <-> In x l /\ fst x <> id.
Proof.
  unfold source_remove. rewrite filter_In. split; intros [H1 H2]; split; auto.
  - intros E. rewrite E, Pos.eqb_refl in H2. discriminate.
  - apply Bool.negb_true_iff, Pos.eqb_neq. exact H2.
Qed.

Lemma source_remove_pending (P : positive * callback -> bool) (id : positive)
  (l : list (positive * callback)) :
  map fst (filter P (source_remove id l))
  = filter (fun i => negb (Pos.eqb i id)) (map fst (filter P l)).
Proof.
  induction l as [|[i cb] l IH]; [reflexivity|].
  cbn. destruct (Pos.eqb i id) eqn:E; cbn.
  - destruct (P (i, cb)); cbn; [rewrite E; cbn|]; exact IH.
  - destruct (P (i, cb)); cbn; [rewrite E; cbn; f_equal|]; exact IH.
Qed.

Lemma source_remove_distinct (id : positive) (l : list (positive * callback)) :
  NoDup (map fst l) -> NoDup (map fst (source_remove id l)).
Proof.
  induction l as [|[i cb] l IH]; cbn; intros H; [constructor|].
  inversion H as [|? ? Hn Hd]; subst.
  destruct (Pos.eqb i id); cbn; [apply IH; exact Hd|].
  constructor; [|apply IH; exact Hd].
  intros Hin. apply Hn. apply in_map_iff in Hin. destruct Hin as [x [Ex Hx]].
  apply source_remove_in in Hx. apply in_map_iff. exists x. tauto.
Qed.

Lemma one_callback_per_id (l : list (positive * callback)) (id : positive)
  (a b : callback) :
  NoDup (map fst l) -> In (id, a) l -> In (id, b) l -> a = b.
Proof.
  induction l as [|[i cb] l IH]; cbn; intros H Ha Hb; [contradiction|].
  inversion H as [|? ? Hn Hd]; subst.
  destruct Ha as [Ea|Ha], Hb as [Eb|Hb].
  - congruence.
  - inversion Ea; subst. exfalso. apply Hn.
    apply in_map_iff. exists (id, b). auto.
  - inversion Eb; subst. exfalso. apply Hn.
    apply in_map_iff. exists (id, a). auto.
  - apply IH; assumption.
Qed.

Lemma find_attached (l : list (positive * callback)) (id i : positive)
  (cb : callback) :
  find (fun x => Pos.eqb (fst x) id) l = Some (i, cb) -> In (id, cb) l.
Proof.
  intros H. apply find_some in H. destruct H as [Hin E].
  apply Pos.eqb_eq in E. cbn in E. subst. exact Hin.
Qed.

Lemma attached_found (l : list (positive * callback)) (id : positive)
  (cb : callback) :
  NoDup (map fst l) -> In (id, cb) l ->
  find (fun x => Pos.eqb (fst x) id) l = Some (id, cb).
Proof.
  intros Hd Hin.
  destruct (find (fun x => Pos.eqb (fst x) id) l) as [[i cb']|] eqn:E.
  - pose proof (@find_attached _ _ _ _ E) as Hin'.
    apply find_some in E. destruct E as [_ E]. apply Pos.eqb_eq in E.
    cbn in E. subst. f_equal. f_equal.
    exact (@one_callback_per_id _ _ _ _ Hd Hin' Hin).
  - exfalso. pose proof (find_none _ _ E _ Hin) as N. cbn in N.
    rewrite Pos.eqb_refl in N. discriminate.
Qed.

Lemma in_pending (cb : callback) (c : state) (id : positive) :
  In id (pending cb c) <-> In (id, cb) (sources c).
Proof.
  unfold pending. rewrite in_map_iff. split.
  - intros [[i cb'] [E H]]. apply filter_In in H. destruct H as [H M].
    cbn in *. subst. destruct cb', cb; try discriminate; exact H.
  - intros H. exists (id, cb). split; [reflexivity|].
    apply filter_In. split; [exact H|]. destruct cb; reflexivity.
Qed.

Lemma filter_absent (id : positive) (l : list positive) :
  ~ In id l -> filter (fun i => negb (Pos.eqb i id)) l = l.
Proof.
  induction l as [|i l IH]; cbn; intros H; [reflexivity|].
  destruct (Pos.eqb i id) eqn:E.
  - apply Pos.eqb_eq in E. subst. exfalso. apply H. now left.
  - cbn. f_equal. apply IH. intros Hin. apply H. now right.
Qed.

Lemma well_formed_initial : well_formed initial.
Proof.
  constructor; cbn; [constructor | contradiction | discriminate | discriminate].
Qed.

Lemma well_formed_hide_cursor (c : state) :
  well_formed c -> well_formed (hide_cursor c).
Proof.
  intros [Hd Hi Hc Ha]. constructor; cbn; auto. discriminate.
Qed.

Lemma well_formed_show_cursor (c : state) :
  well_formed c -> well_formed (show_cursor c).
Proof.
  intros [Hd Hi Hc Ha].
  assert (Hfresh : forall l, (forall x, In x l -> In x (sources c)) ->
                             ~ In (next_id c) (map fst l)).
  { intros l Hl Hin. apply in_map_iff in Hin. destruct Hin as [[i cb] [E Hx]].
    cbn in E. subst. apply Hl, Hi in Hx. lia. }
  constructor; cbn.
  - constructor.
    + apply Hfresh. destruct (cursor_hide_timeout c); [|auto].
      intros x Hx. apply source_remove_in in Hx. tauto.
    + destruct (cursor_hide_timeout c); [apply source_remove_distinct|]; exact Hd.
  - intros id cb [E|Hin]; [inversion E; lia|].
    assert (In (id, cb) (sources c)) as Hin'.
    { destruct (cursor_hide_timeout c); [|exact Hin].
      apply source_remove_in in Hin. tauto. }
    apply Hi in Hin'. lia.
  - intros id E. inversion E. now left.
  - intros K. destruct (Ha K) as [id Hin]. exists id. right.
    destruct (cursor_hide_timeout c) as [h|] eqn:Eh; [|exact Hin].
    apply source_remove_in. split; [exact Hin|]. cbn. intros ->.
    pose proof (@one_callback_per_id _ _ _ _ Hd Hin (Hc _ eq_refl)).
    discriminate.
Qed.

Lemma well_formed_on_realize (c : state) :
  well_formed c -> well_formed (on_realize c).
Proof.
  intros [Hd Hi Hc Ha]. constructor; cbn; auto. discriminate.
Qed.

Lemma well_formed_ensure_window_focused (c : state) :
  well_formed c -> well_formed (ensure_window_focused c).
Proof.
  intros [Hd Hi Hc Ha]. unfold ensure_window_focused. cbn.
  assert (Hfresh : ~ In (next_id c) (map fst (sources c))).
  { intros Hin. apply in_map_iff in Hin. destruct Hin as [[i cb] [E Hx]].
    cbn in E. subst. apply Hi in Hx. lia. }
  destruct (blank_cursor c); constructor; cbn;
    try (constructor; assumption);
    try (intros id cb [E|Hin]; [inversion E; lia | apply Hi in Hin; lia]);
    try discriminate;
    try (intros _; exists (next_id c); now left).
  intros id E. right. apply Hc. exact E.
Qed.

Lemma well_formed_fire (id : positive) (c : state) :
  well_formed c -> well_formed (fire id c).
Proof.
  intros W. pose proof W as [Hd Hi Hc Ha]. unfold fire.
  destruct (find _ (sources c)) as [[i cb]|] eqn:E; [|exact W].
  apply find_attached in E.
  destruct cb; constructor; cbn;
    try (apply source_remove_distinct; exact Hd);
    try (intros j cb Hin; apply source_remove_in in Hin; apply (Hi j cb); tauto);
    try discriminate.
  - intros K. destruct (Ha K) as [j Hin]. exists j.
    apply source_remove_in. split; [exact Hin|]. cbn. intros ->.
    pose proof (@one_callback_per_id _ _ _ _ Hd Hin E). discriminate.
  - intros j Ej. apply source_remove_in. split; [apply Hc; exact Ej|].
    cbn. intros ->.
    pose proof (@one_callback_per_id _ _ _ _ Hd (Hc _ Ej) E). discriminate.
Qed.

Lemma well_formed_step (sig : signal) (c : state) :
  well_formed c -> well_formed (step sig c).
Proof.
  destruct sig; cbn.
  - apply well_formed_on_realize.
  - apply well_formed_show_cursor.
  - apply well_formed_ensure_window_focused.
  - apply well_formed_fire.
Qed.

Lemma well_formed_run (sigs : list signal) (c : state) :
  well_formed c -> well_formed (run sigs c).
Proof.
  revert c. induction sigs as [|sig sigs IH]; intros c W; [exact W|].
  cbn. apply IH, well_formed_step, W.
Qed.

Lemma pending_source_remove (cb : callback) (id : positive) (c c' : state) :
  sources c' = source_remove id (sources c) ->
  pending cb c' = filter (fun i => negb (Pos.eqb i id)) (pending cb c).
Proof.
  unfold pending. intros ->. apply source_remove_pending.
Qed.

Lemma pending_same_sources (cb : callback) (c c' : state) :
  sources c' = sources c -> pending cb c' = pending cb c.
Proof.
  unfold pending. intros ->. reflexivity.
Qed.

Lemma pending_show_cursor (c : state) :
  tracked c -> pending HideCursor (show_cursor c) = [next_id c].
Proof.
  unfold tracked. intros T.
  change (pending HideCursor (show_cursor c))
    with (next_id c :: pending HideCursor
            {| blank_cursor := blank_cursor c; has_window := has_window c;
               cursor_hide_timeout := None; cursor_blank := cursor_blank c;
               keep_above := keep_above c;
               sources := match cursor_hide_timeout c with
                          | Some id => source_remove id (sources c)
                          | None => sources c
                          end;
               next_id := next_id c |}).
  f_equal. destruct (cursor_hide_timeout c) as [h|]; cbn in T.
  - erewrite @pending_source_remove with (id := h) (c := c); [|reflexivity].
    rewrite T. cbn. rewrite Pos.eqb_refl. reflexivity.
  - erewrite @pending_same_sources with (c := c); [exact T | reflexivity].
Qed.

Lemma tracked_show_cursor (c : state) : tracked c -> tracked (show_cursor c).
Proof.
  intros T. unfold tracked. rewrite (pending_show_cursor T). reflexivity.
Qed.

Lemma pending_fire (cb : callback) (id : positive) (c : state) :
  pending cb (fire id c) = filter (fun i => negb (Pos.eqb i id)) (pending cb c).
Proof.
  unfold fire. destruct (find _ (sources c)) as [[i cb']|] eqn:E.
  - apply pending_source_remove. destruct cb'; reflexivity.
  - symmetry. apply filter_absent. intros Hin. apply in_pending in Hin.
    pose proof (find_none _ _ E _ Hin) as N. cbn in N.
    rewrite Pos.eqb_refl in N. discriminate.
Qed.

Lemma tracked_fire (id : positive) (c : state) :
  well_formed c -> tracked c -> tracked (fire id c).
Proof.
  intros [Hd Hi Hc Ha] T. unfold tracked in *. rewrite pending_fire, T.
  unfold fire.
  destruct (find _ (sources c)) as [[i cb]|] eqn:E.
  - apply find_attached in E. destruct cb; cbn.
    + assert (Hin : In id (pending HideCursor c)) by (apply in_pending; exact E).
      rewrite T in Hin.
      destruct (cursor_hide_timeout c) as [h|]; cbn in *; [|contradiction].
      destruct Hin as [->|[]]. rewrite Pos.eqb_refl. reflexivity.
    + apply filter_absent. rewrite <- T. intros Hin. apply in_pending in Hin.
      pose proof (@one_callback_per_id _ _ _ _ Hd Hin E). discriminate.
  - apply filter_absent. rewrite <- T. intros Hin. apply in_pending in Hin.
    pose proof (find_none _ _ E _ Hin) as N. cbn in N.
    rewrite Pos.eqb_refl in N. discriminate.
Qed.

End ChromeFacts.

(** Signals of the pointer alone: a mouse move or a timeout that is due. *)
Definition pointer_only (sig : Chrome.signal) : bool :=
  match sig with
  | Chrome.MouseMove | Chrome.Fire _ => true
  | _ => false
  end.

Section ChromeProperties.

Import Chrome.

Lemma fire_hide_cursor (id : positive) (c : state) :
  well_formed c -> In (id, HideCursor) (sources c) ->
  cursor_hide_timeout (fire id c) = None
  /\ cursor_blank (fire id c)
     = (if blank_cursor c && has_window c then true else cursor_blank c)
  /\ keep_above (fire id c) = keep_above c.
Proof.
  intros W Hin. unfold fire.
  rewrite (@attached_found _ _ _ (@wf_distinct _ W) Hin). cbn. auto.
Qed.

Lemma fire_reset_keep_above (id : positive) (c : state) :
  well_formed c -> In (id, ResetKeepAbove) (sources c) ->
  keep_above (fire id c) = false
  /\ cursor_hide_timeout (fire id c) = cursor_hide_timeout c
  /\ cursor_blank (fire id c) = cursor_blank c.
Proof.
  intros W Hin. unfold fire.
  rewrite (@attached_found _ _ _ (@wf_distinct _ W) Hin). cbn. auto.
Qed.

Lemma pending_ensure_window_focused (c : state) :
  pending HideCursor (ensure_window_focused c) = pending HideCursor c
  /\ pending ResetKeepAbove (ensure_window_focused c)
     = next_id c :: pending ResetKeepAbove c
  /\ keep_above (ensure_window_focused c) = true
  /\ next_id (ensure_window_focused c) = Pos.succ (next_id c)
  /\ has_window (ensure_window_focused c) = has_window c
  /\ blank_cursor (ensure_window_focused c) = blank_cursor c.
Proof.
  unfold ensure_window_focused. cbn. destruct (blank_cursor c); cbn; auto 10.
Qed.

Lemma pending_on_realize (cb : callback) (c : state) :
  pending cb (on_realize c) = pending cb c.
Proof. reflexivity. Qed.

Lemma pending_reset_show_cursor (c : state) :
  well_formed c ->
  pending ResetKeepAbove (show_cursor c) = pending ResetKeepAbove c.
Proof.
  intros W.
  change (pending ResetKeepAbove (show_cursor c))
    with (pending ResetKeepAbove
            {| blank_cursor := blank_cursor c; has_window := has_window c;
               cursor_hide_timeout := None; cursor_blank := cursor_blank c;
               keep_above := keep_above c;
               sources := match cursor_hide_timeout c with
                          | Some id => source_remove id (sources c)
                          | None => sources c
                          end;
               next_id := next_id c |}).
  destruct (cursor_hide_timeout c) as [h|] eqn:E.
  - erewrite @pending_source_remove with (id := h) (c := c); [|reflexivity].
    apply filter_absent. intros Hin. apply in_pending in Hin.
    pose proof (@one_callback_per_id _ _ _ _ (@wf_distinct _ W) Hin
                  (@wf_cursor _ W _ E)).
    discriminate.
  - reflexivity.
Qed.

Lemma step_before_realize (sig : signal) (c : state) :
  sig <> Realize -> blank_cursor c = false -> cursor_blank c = false ->
  blank_cursor (step sig c) = false /\ cursor_blank (step sig c) = false.
Proof.
  intros Hs Hb Hc. destruct sig as [| | |id]; [congruence | | |]; cbn.
  - rewrite Hc. split; [exact Hb|]. destruct (has_window c); reflexivity.
  - unfold ensure_window_focused. cbn. rewrite Hb. cbn. auto.
  - unfold fire. destruct (find _ (sources c)) as [[i [|]]|]; cbn;
      rewrite ?Hb; cbn; auto.
Qed.

Lemma blank_needs_realize (sigs : list signal) (c : state) :
  blank_cursor c = false -> cursor_blank c = false ->
  cursor_blank (run sigs c) = true -> In Realize sigs.
Proof.
  revert c. induction sigs as [|sig sigs IH]; intros c Hb Hc H.
  - cbn in H. congruence.
  - assert (D : sig = Realize \/ sig <> Realize)
      by (destruct sig; auto; right; discriminate).
    destruct D as [->|D]; [now left | right].
    destruct (@step_before_realize sig c D Hb Hc) as [Hb' Hc'].
    exact (IH _ Hb' Hc' H).
Qed.

(** X12.  While only the pointer acts (mouse moves, and timeouts that
    are due), at most one [hide_cursor] timeout is attached and it is the
    one [cursor_hide_timeout] names: a mouse move replaces the pending
    timeout by a new one, and closing the window removes it. *)
Theorem pointer_timeouts_never_pile_up (sigs : list signal) (c : state)
  (Hwf : well_formed c) (Htracked : tracked c)
  (Hsigs : forallb pointer_only sigs = true) :
  let c' := run sigs c in
  well_formed c' /\ tracked c'
  /\ (List.length (pending HideCursor c') <= 1)%nat
  /\ pending HideCursor (on_mouse_move c') = [next_id c']
  /\ cursor_hide_timeout (on_mouse_move c') = Some (next_id c')
  /\ pending HideCursor (on_destroy c') = [].
Proof.
  cbn zeta.
  assert (K : well_formed (run sigs c) /\ tracked (run sigs c)).
  { revert c Hwf Htracked Hsigs.
    induction sigs as [|sig sigs IH]; intros c W T Hs; [split; assumption|].
    cbn in Hs. apply andb_prop in Hs. destruct Hs as [Hp Hs].
    cbn. apply IH; [apply well_formed_step; exact W | | exact Hs].
    destruct sig; try discriminate; cbn.
    - apply tracked_show_cursor. exact T.
    - apply tracked_fire; assumption. }
  destruct K as [W T]. split; [exact W|]. split; [exact T|].
  split; [|split; [|split]].
  - rewrite T. destruct (cursor_hide_timeout (run sigs c)); cbn; lia.
  - apply pending_show_cursor. exact T.
  - reflexivity.
  - unfold on_destroy. unfold tracked in T.
    destruct (cursor_hide_timeout (run sigs c)) as [h|] eqn:E; [|exact T].
    erewrite @pending_source_remove with (id := h) (c := run sigs c);
      [|reflexivity].
    rewrite T. cbn. rewrite Pos.eqb_refl. reflexivity.
Qed.

(** X13.  [ensure_window_focused] calls [hide_cursor], which clears
    [cursor_hide_timeout] without removing the timeout: a pending
    timeout stays attached but is no longer named.  After the next mouse
    move two [hide_cursor] timeouts are attached, and when the older one
    is due it hides the cursor and clears the attribute of the newer
    one. *)
Theorem focus_forgets_cursor_timeout (c : state) (id : positive)
  (Hwf : well_formed c) (Htracked : tracked c)
  (Hblank : blank_cursor c = true)
  (Hpending : cursor_hide_timeout c = Some id) :
  let c1 := ensure_window_focused c in
  let c2 := on_mouse_move c1 in
  let c3 := fire id c2 in
  cursor_hide_timeout c1 = None /\ pending HideCursor c1 = [id]
  /\ ~ tracked c1
  /\ pending HideCursor c2 = [next_id c1; id]
  /\ cursor_hide_timeout c2 = Some (next_id c1)
  /\ cursor_hide_timeout c3 = None
  /\ pending HideCursor c3 = [next_id c1]
  /\ (has_window c = true -> cursor_blank c3 = true).
Proof.
  cbn zeta. unfold on_mouse_move.
  destruct (pending_ensure_window_focused c) as (Ph & Pr & Ka & Nx & Hw & Bl).
  pose proof (@well_formed_ensure_window_focused c Hwf) as W1.
  pose proof (@well_formed_show_cursor _ W1) as W2.
  unfold tracked in Htracked. rewrite Hpending in Htracked. cbn in Htracked.
  assert (A1 : cursor_hide_timeout (ensure_window_focused c) = None).
  { unfold ensure_window_focused. cbn. rewrite Hblank. reflexivity. }
  assert (P2 : pending HideCursor (show_cursor (ensure_window_focused c))
               = [next_id (ensure_window_focused c); id]).
  { unfold show_cursor, pending at 1. cbn. rewrite A1.
    f_equal. fold (pending HideCursor (ensure_window_focused c)).
    rewrite Ph. exact Htracked. }
  assert (Hin : In (id, HideCursor)
                   (sources (show_cursor (ensure_window_focused c)))).
  { apply in_pending. rewrite P2. right. now left. }
  assert (Hlt : (id < next_id c)%positive).
  { apply (@wf_issued _ Hwf id HideCursor). apply (@wf_cursor _ Hwf). exact Hpending. }
  destruct (@fire_hide_cursor id _ W2 Hin) as (F1 & F2 & _).
  split; [exact A1|]. split; [congruence|].
  split; [unfold tracked; rewrite A1, Ph, Htracked; discriminate|].
  split; [exact P2|]. split; [reflexivity|]. split; [exact F1|].
  split.
  - rewrite pending_fire, P2, Nx. cbn. rewrite Pos.eqb_refl.
    replace (Pos.eqb (Pos.succ (next_id c)) id) with false; [reflexivity|].
    symmetry. apply Pos.eqb_neq. lia.
  - intros Hwin. rewrite F2.
    change (blank_cursor (show_cursor (ensure_window_focused c)))
      with (blank_cursor (ensure_window_focused c)).
    change (has_window (show_cursor (ensure_window_focused c)))
      with (has_window (ensure_window_focused c)).
    rewrite Bl, Hw, Hblank, Hwin. reflexivity.
Qed.

(** X14.  The window is kept above the others only for a while: in every
    state the viewer reaches, a window kept above has a
    [reset_keep_above] timeout attached; such a timeout stays attached
    until it is due, and when it is due the window is no longer kept
    above.  Each call of [ensure_window_focused] attaches one more. *)
Theorem keep_above_is_temporary (sigs : list signal) :
  let c := run sigs initial in
  (keep_above c = true -> pending ResetKeepAbove c <> [])
  /\ (forall id, In id (pending ResetKeepAbove c) ->
                 keep_above (fire id c) = false)
  /\ (forall id sig, In id (pending ResetKeepAbove c) -> sig <> Fire id ->
                     In id (pending ResetKeepAbove (step sig c)))
  /\ keep_above (ensure_window_focused c) = true
  /\ pending ResetKeepAbove (ensure_window_focused c)
     = next_id c :: pending ResetKeepAbove c.
Proof.
  cbn zeta. pose proof (@well_formed_run sigs initial well_formed_initial) as W.
  set (c := run sigs initial) in *.
  destruct (pending_ensure_window_focused c) as (Ph & Pr & Ka & _).
  split; [|split; [|split; [|split]]].
  - intros K E. destruct (@wf_above _ W K) as [id Hin].
    apply in_pending in Hin. rewrite E in Hin. exact Hin.
  - intros id Hin. apply in_pending in Hin.
    apply (@fire_reset_keep_above id c W Hin).
  - intros id sig Hin Hsig. destruct sig as [| | |j]; unfold step.
    + rewrite pending_on_realize. exact Hin.
    + unfold on_mouse_move. rewrite (@pending_reset_show_cursor c W). exact Hin.
    + rewrite Pr. now right.
    + rewrite pending_fire. apply filter_In. split; [exact Hin|].
      apply Bool.negb_true_iff, Pos.eqb_neq. congruence.
  - exact Ka.
  - exact Pr.
Qed.

(** X15.  The cursor is hidden only once the window was realised: before
    the "realize" signal no callback makes the cursor blank. *)
Theorem cursor_hidden_only_once_realized (sigs : list signal) :
  cursor_blank (run sigs initial) = true -> In Realize sigs.
Proof.
  apply blank_needs_realize; reflexivity.
Qed.

End ChromeProperties.

(* ================================================================== *)
(** ** Closing the window *)

Section ClosingTheWindow.

Context {py : PyStr} {engine : MediaEngine}.

Lemma trace_on_destroy (s : session) :
  trace (on_destroy s)
  = trace s
    ++ match timeout_id s with Some id => [EvSourceRemove id] | None => [] end
    ++ teardown_events s ++ [EvMainQuit].
Proof.
  unfold on_destroy, cleanup_pipeline, teardown_events.
  destruct s as [mf ci iv [p|] [b|] isv [id|] no ns t sk]; cbn;
    rewrite <- ?app_assoc; reflexivity.
Qed.

Lemma on_destroy_sink (s : session) : sink (on_destroy s) = sink s.
Proof.
  unfold on_destroy, cleanup_pipeline.
  destruct s as [mf ci iv [p|] [b|] isv [id|] no ns t sk]; reflexivity.
Qed.

(** X3. What closing the window does, in every state a session and the
    cursor code reach.  [on_destroy] removes the timeout of
    [change_media], tears the pipeline down and tells the main loop to
    quit, in this order: afterwards [pipeline], [bus] and [timeout_id]
    are [None] and no pipeline is live, no bus watched, no
    [change_media] timeout attached.  A pending timeout is removed
    twice, by [on_destroy] and again by [cleanup_pipeline], which finds
    [timeout_id] still set; the second call names a source that is no
    longer attached.  [sink] and [cursor_hide_timeout] keep their
    values, the window stays above if it was, and only the
    [hide_cursor] timeout the attribute names is removed: the
    [reset_keep_above] timeouts and the [hide_cursor] timeouts the
    attribute has forgotten stay attached.  The Escape key does the same
    through [destroy]; any other key does nothing. *)
Theorem closing_stops_playback (found : list string) (interval : Z)
  (shuffle : bool) (entropy : nat -> nat) (sigs : list signal)
  (pointer : list Chrome.signal) :
  exists s,
    run sigs (init found interval shuffle entropy) = Ok s
    /\ trace (on_destroy s)
       = trace s
         ++ match timeout_id s with
            | Some id => [EvSourceRemove id]
            | None => []
            end
         ++ teardown_events s ++ [EvMainQuit]
    /\ (forall id, timeout_id s = Some id ->
          armed (replay (trace s ++ [EvSourceRemove id])) = []
          /\ exists rest, teardown_events s = EvSourceRemove id :: rest)
    /\ pipeline (on_destroy s) = None
    /\ bus (on_destroy s) = None
    /\ timeout_id (on_destroy s) = None
    /\ live (replay (trace (on_destroy s))) = []
    /\ watched (replay (trace (on_destroy s))) = []
    /\ armed (replay (trace (on_destroy s))) = []
    /\ stopping (replay (trace (on_destroy s))) = []
    /\ quit (replay (trace (on_destroy s))) = true
    /\ sink (on_destroy s) = sink s
    /\ on_key_press true s = on_destroy (emit EvDestroy s)
    /\ on_key_press false s = s
    /\ (forall more, run more (on_destroy s) = Ok (on_destroy s))
    /\ (let c := Chrome.run pointer Chrome.initial in
        Chrome.cursor_hide_timeout (Chrome.on_destroy c)
        = Chrome.cursor_hide_timeout c
        /\ Chrome.keep_above (Chrome.on_destroy c) = Chrome.keep_above c
        /\ Chrome.pending Chrome.ResetKeepAbove (Chrome.on_destroy c)
           = Chrome.pending Chrome.ResetKeepAbove c
        /\ (forall id,
              In id (Chrome.pending Chrome.HideCursor c) ->
              Chrome.cursor_hide_timeout c <> Some id ->
              In id (Chrome.pending Chrome.HideCursor (Chrome.on_destroy c)))).
Proof.
  destruct (reachable found interval shuffle entropy sigs)
    as (s & Hrun & I & _ & _).
  exists s. split; [exact Hrun|].
  pose proof (i_consistent I) as C0.
  destruct (on_destroy_consistent C0) as (C & Hp & Hb & Ht & Q).
  split; [apply trace_on_destroy|]. split.
  { intros id Hid. split.
    - rewrite replay_snoc. cbn. rewrite (c_armed C0), Hid. cbn.
      rewrite Pos.eqb_refl. reflexivity.
    - unfold teardown_events.
      destruct (pipeline s) as [p|] eqn:Ep.
      + rewrite Hid. eexists. reflexivity.
      + exfalso. apply (c_timer C0); [rewrite Hid; discriminate | exact Ep]. }
  split; [exact Hp|]. split; [exact Hb|]. split; [exact Ht|].
  split; [rewrite (c_live C), Hp; reflexivity|].
  split; [rewrite (c_watched C), Hb; reflexivity|].
  split; [rewrite (c_armed C), Ht; reflexivity|].
  split; [apply C|]. split; [exact Q|]. split; [apply on_destroy_sink|].
  split; [reflexivity|]. split; [reflexivity|].
  split; [intro more; apply run_after_quit; exact Q|].
  cbv zeta.
  pose proof (@well_formed_run pointer Chrome.initial well_formed_initial)
    as W.
  set (c := Chrome.run pointer Chrome.initial) in *.
  unfold Chrome.on_destroy.
  destruct (Chrome.cursor_hide_timeout c) as [h|] eqn:Eh.
  - split; [reflexivity|]. split; [reflexivity|]. split.
    + erewrite @pending_source_remove with (id := h) (c := c);
        [|reflexivity].
      apply filter_absent. intro Hin. apply in_pending in Hin.
      pose proof (@one_callback_per_id _ _ _ _ (@Chrome.wf_distinct _ W) Hin
                    (@Chrome.wf_cursor _ W _ Eh)).
      discriminate.
    + intros id Hin Hne.
      erewrite @pending_source_remove with (id := h) (c := c);
        [|reflexivity].
      apply filter_In. split; [exact Hin|].
      apply negb_true_iff, Pos.eqb_neq. congruence.
  - split; [first [reflexivity | exact Eh]|].
    split; [reflexivity|]. split; [reflexivity|].
    intros id Hin _. exact Hin.
Qed.

End ClosingTheWindow.

(* ================================================================== *)
(** ** Instances of the further properties *)


Lemma load_attempts_bounded_witness :
  in_range three_files
  /\ match load_current_media (py := AsciiStr) (engine := working_engine)
             three_files with
     | Ok s' =>
         exists k, (1 <= k <= List.length (media_files three_files))%nat
                   /\ media_files s' = media_files three_files
     | _ => False
     end.
Proof.
  split; [exact in_range_three_files|].
  pose proof (proj2 (load_attempts_bounded (py := AsciiStr)
                       (engine := working_engine) in_range_three_files))
    as K.
  destruct (load_current_media (py := AsciiStr) (engine := working_engine)
              three_files) as [s'|e|] eqn:E.
  - destruct (K s' eq_refl) as (k & Hk & Hm & _). exists k. split; assumption.
  - vm_compute in E. discriminate E.
  - vm_compute in E. discriminate E.
Defined.


(** A file system with one directory of four entries. *)
Definition media_folder : FileSystem :=
  {| listdir := fun d => if String.eqb d "/media"
                         then ["a.jpg"; "b.MP4"; "notes.txt"; "c.Jpg"]%string
                         else [];
     expand := fun _ => [] |}.

Lemma search_finds_each_file_once_witness :
  has_magic (pattern_directory "/media/") = false
  /\ NoDup (listdir (FileSystem := media_folder) (pattern_directory "/media/"))
  /\ NoDup (find_media (fs := media_folder) "/media/").
Proof.
  assert (Hnames : NoDup (listdir (FileSystem := media_folder)
                            (pattern_directory "/media/"))).
  { vm_compute. repeat constructor; cbn; intuition discriminate. }
  assert (Hentries : forall name,
            In name (listdir (FileSystem := media_folder)
                       (pattern_directory "/media/")) ->
            starts_with_slash name = false).
  { intros name Hin. vm_compute in Hin.
    destruct Hin as [<-|[<-|[<-|[<-|[]]]]]; reflexivity. }
  split; [reflexivity|]. split; [exact Hnames|].
  exact (proj1 (proj2 (search_finds_each_file_once (fs := media_folder)
                         "/media/" eq_refl Hnames Hentries))).
Defined.

(** The search of that directory, and of the pattern it would be read
    as if its name had a bracket. *)
Example find_media_folder :
  find_media (fs := media_folder) "/media/"
  = ["/media/a.jpg"; "/media/b.MP4"]%string
  /\ find_media (fs := media_folder) "/media"
     = ["/media/a.jpg"; "/media/b.MP4"]%string
  /\ pattern_directory "/media//" = "/media"%string
  /\ searched (fs := media_folder) "/pics[1]" = [].
Proof. vm_compute. repeat split. Qed.

Lemma scan_agrees_with_kind_witness :
  In "/media/b.MP4"%string
     (scan "/media/" ["a.jpg"; "b.MP4"; "notes.txt"]%string)
  /\ (is_video_file (py := AsciiStr) "/media/b.MP4" = true <->
      exists name ext,
        "/media/b.MP4"%string = ("/media/" ++ name)%string
        /\ In ext video_extensions
        /\ (endswith name ext = true
            \/ endswith name (ascii_upper ext) = true)).
Proof.
  assert (Hfound : In "/media/b.MP4"%string
                      (scan "/media/" ["a.jpg"; "b.MP4"; "notes.txt"]%string)).
  { vm_compute. right. left. reflexivity. }
  split; [exact Hfound|].
  exact (proj1 (scan_agrees_with_kind "/media/"
                  ["a.jpg"; "b.MP4"; "notes.txt"]%string "/media/b.MP4"
                  Hfound)).
Defined.

Lemma pointer_timeouts_never_pile_up_witness :
  Chrome.tracked Chrome.initial
  /\ Chrome.pending Chrome.HideCursor
       (Chrome.on_mouse_move
          (Chrome.run [Chrome.MouseMove; Chrome.MouseMove; Chrome.Fire 2]
             Chrome.initial))
     = [Chrome.next_id
          (Chrome.run [Chrome.MouseMove; Chrome.MouseMove; Chrome.Fire 2]
             Chrome.initial)].
Proof.
  split; [reflexivity|].
  exact (proj1 (proj2 (proj2 (proj2
    (@pointer_timeouts_never_pile_up
       [Chrome.MouseMove; Chrome.MouseMove; Chrome.Fire 2] Chrome.initial
       well_formed_initial eq_refl eq_refl))))).
Defined.

Lemma focus_forgets_cursor_timeout_witness :
  Chrome.cursor_hide_timeout
    (Chrome.run [Chrome.Realize; Chrome.MouseMove] Chrome.initial) = Some 1%positive
  /\ Chrome.pending Chrome.HideCursor
       (Chrome.on_mouse_move
          (Chrome.ensure_window_focused
             (Chrome.run [Chrome.Realize; Chrome.MouseMove] Chrome.initial)))
     = [Chrome.next_id
          (Chrome.ensure_window_focused
             (Chrome.run [Chrome.Realize; Chrome.MouseMove] Chrome.initial));
        1%positive].
Proof.
  split; [reflexivity|].
  exact (proj1 (proj2 (proj2 (proj2
    (@focus_forgets_cursor_timeout
       (Chrome.run [Chrome.Realize; Chrome.MouseMove] Chrome.initial)
       1%positive
       (@well_formed_run [Chrome.Realize; Chrome.MouseMove] Chrome.initial
          well_formed_initial)
       eq_refl eq_refl eq_refl))))).
Defined.

Lemma cursor_hidden_only_once_realized_witness :
  Chrome.cursor_blank (Chrome.run [Chrome.Realize] Chrome.initial) = true
  /\ In Chrome.Realize [Chrome.Realize].
Proof.
  split; [reflexivity|].
  exact (@cursor_hidden_only_once_realized [Chrome.Realize] eq_refl).
Defined.

(** Moving the mouse, showing the next item within the two seconds and
    moving the mouse again leaves two [hide_cursor] timeouts attached. *)
Example two_cursor_timeouts :
  Chrome.pending Chrome.HideCursor
    (Chrome.run [Chrome.Realize; Chrome.MouseMove; Chrome.Focus;
                 Chrome.MouseMove] Chrome.initial)
  = [3%positive; 1%positive].
Proof. vm_compute. reflexivity. Qed.
